(** * InsightCRM job pipeline: broker, consumers, vendor simulator, delivery engine

    A shallow embedding of the asynchronous core of the CRM server:

    - [src/server/src/config/redis.js]            (module [RedisService])
    - [src/server/src/controllers/vendor.controller.js], kept in the source
      tree as [src/unnamed/part_001]              (modules [VendorAPIService], [VendorController])
    - [src/server/src/consumers/campaign.consumer.js]  (modules [CampaignConsumer],
      [CampaignMessages])
    - [src/server/src/consumers/customer.consumer.js]  (modules [CustomerConsumer],
      [CustomerImport], [CustomerEvents])
    - [src/server/src/controllers/segment.controller.js]  (modules [SegmentController],
      [Segments], [CampaignEndpoint])
    - the webhook call and the send endpoint of the vendor controller
      (modules [VendorWebhook], [VendorEndpoints])

    Every [async] method is a computation in the monad [M]: a function of the
    [World] (Redis lists, MongoDB collections, the vendor singleton, clock,
    random source, console) that returns a value or throws.  What the outside
    decides (a Redis or MongoDB call failing, the clock, [Math.random]) is read
    from tapes carried by the world, so a statement over every world covers
    every behaviour of the collaborators.  The collaborators whose code is
    not in the source tree and whose state the world does not hold (the
    User, Customer and Segment models, the creation of a campaign, the
    publisher, [JSON.parse], [Date.parse]) are variables of the sections
    that call them: what is proved there holds for every behaviour they may
    have.

    Conventions.  Counters are JavaScript numbers holding small integers and are
    modelled by [nat]; the two percentages are computed with binary64 floats as
    the source does.  Redis elements are kept parsed ([JSON.parse] after
    [JSON.stringify] is the identity on the JSON values of [json]).
    An error is identified with its message.  Pictographs in console texts are
    left out.

    What arrives from outside (a job, the body of a request, an event) is a
    parsed JSON object whose members may be of any JSON type.  Where the
    source converts such a member to text, the conversion is [interpolate],
    which throws the TypeError of an object that has nothing to convert it;
    [template] is the text of a conversion that returns.

    Callbacks scheduled with [setTimeout] are recorded in the vendor's [timers]
    and run outside the computations modelled here; when one runs it posts a
    receipt to [handleDeliveryReceipt], which writes communication logs only. *)

From Stdlib Require Import ZArith Floats Uint63 QArith Ascii String.
From stdpp Require Import gmap strings list fin_maps pretty.

Set Warnings "-register-all,-clear-no-such-hyp".

Open Scope string_scope.
Open Scope list_scope.
Open Scope Z_scope.

(* ===================================================================== *)
(** * JavaScript values *)
(* ===================================================================== *)

(** JSON values as [JSON.parse] produces them.  Numbers that occur in jobs
    are integral: [JNum n] is the number the literal [n] parses to, the
    binary64 number nearest to [n]. *)
Inductive json :=
| JNull
| JBool (b : bool)
| JNum (n : Z)
| JStr (s : string)
| JArr (items : list json)
| JObj (members : list (string * json)).

(** A parsed job: the own properties of the top-level object. *)
Abbreviation Job := (gmap string json).

(** The named properties of a parsed value that is not null: the members of
    an object (the first of two with the same key, which a parsed object
    does not have); a number, a boolean, a string or an array has none of
    the names that are read here. *)
Definition fields (v : json) : Job :=
  match v with
  | JObj members => list_to_map members
  | _ => ∅
  end.

(** [separated sep parts] is [parts.join(sep)]. *)
Fixpoint separated (sep : string) (parts : list string) : string :=
  match parts with
  | [] => ""
  | [p] => p
  | p :: rest => p +:+ sep +:+ separated sep rest
  end.

(** ** Numbers as text *)

(** The binary64 number nearest to a non-negative integer, with ties going
    to the even significand.  Up to 2^53 every integer is one. *)
Definition to_binary64 (a : Z) : Z :=
  let q := Z.log2 a - 52 in
  if q <=? 0 then a
  else
    let m := a / 2 ^ q in
    let r := a mod 2 ^ q in
    (if (2 ^ (q - 1) <? r) || ((r =? 2 ^ (q - 1)) && Z.odd m) then m + 1 else m) * 2 ^ q.

(** The decimal with the fewest significant digits whose number is [d]:
    with [p] trailing zeros if one of the two multiples of [10^p] around
    [d] will do (the nearer one, the even one of two equally near), with
    fewer otherwise. *)
Fixpoint shortest (d : Z) (p : nat) : Z :=
  let unit := 10 ^ Z.of_nat p in
  let below := d / unit * unit in
  let above := below + unit in
  let nearer :=
    if (d - below <? above - d) || ((d - below =? above - d) && Z.even (d / unit))
    then below else above in
  match to_binary64 below =? d, to_binary64 above =? d, p with
  | true, true, _ => nearer
  | true, false, _ => below
  | false, true, _ => above
  | false, false, S p' => shortest d p'
  | false, false, O => d
  end.

(** A row of digits without its trailing zeros. *)
Fixpoint trimmed (digits : string) : string :=
  match digits with
  | EmptyString => EmptyString
  | String c rest =>
      match trimmed rest with
      | EmptyString => if Ascii.eqb c "0" then EmptyString else String c EmptyString
      | kept => String c kept
      end
  end.

(** [String(x)] for the number [x] an integer literal parses to: the
    shortest decimal that reads back as [x], written out in full below
    10^21 and with an exponent from there on. *)
Definition Number_toString (n : Z) : string :=
  let d := to_binary64 (Z.abs n) in
  let sign := if n <? 0 then "-" else "" in
  if 2 ^ 1024 <=? d then sign +:+ "Infinity"
  else
    let text := pretty (shortest d (String.length (pretty d) - 1)) in
    if (String.length text <=? 21)%nat then sign +:+ text
    else
      sign +:+
      match trimmed text with
      | String first EmptyString => String first EmptyString
      | String first more => String first ("." +:+ more)
      | EmptyString => EmptyString
      end +:+ "e+" +:+ pretty (String.length text - 1)%nat.

(** ** Conversion to a string *)

(** Whether [String(v)] returns.  An object is converted by calling its
    [toString]: a parsed object inherits the one of [Object.prototype]
    unless it has a member of that name, and JSON cannot hold a function, so
    an object with a member [toString] has nothing to call (its [valueOf],
    own or inherited, gives no primitive either) and the conversion throws
    a TypeError.  An array joins the conversions of its elements. *)
Fixpoint convertible (v : json) : bool :=
  match v with
  | JArr items => forallb convertible items
  | JObj members => negb (existsb (fun member => String.eqb (fst member) "toString") members)
  | _ => true
  end.

(** The text of [String(v)], the conversion a template literal applies,
    where that conversion returns ([convertible v]); [ToString] below is the
    conversion with its error. *)
Fixpoint String_of (v : json) : string :=
  match v with
  | JNull => "null"
  | JBool true => "true"
  | JBool false => "false"
  | JNum n => Number_toString n
  | JStr s => s
  | JArr items =>
      separated ","
        ((fix elements (l : list json) : list string :=
            match l with
            | [] => []
            | JNull :: l' => "" :: elements l'
            | x :: l' => String_of x :: elements l'
            end) items)
  | JObj _ => "[object Object]"
  end.

(** The text of [`${o}`] for a property that may be absent ([undefined]),
    where the conversion returns. *)
Definition template (o : option json) : string :=
  match o with
  | None => "undefined"
  | Some v => String_of v
  end.

(** Whether [`${o}`] returns: [undefined] always converts. *)
Definition printable (o : option json) : bool :=
  match o with
  | None => true
  | Some v => convertible v
  end.

(** The message of the TypeError of a conversion that has nothing to call. *)
Definition not_primitive : string := "Cannot convert object to primitive value".

(** JavaScript truthiness of a property that may be absent. *)
Definition truthy (o : option json) : bool :=
  match o with
  | None | Some JNull | Some (JBool false) | Some (JNum 0) | Some (JStr "") => false
  | Some _ => true
  end.

(** [type === name] for a property that may be absent and a string literal
    [name]: a [case] label of a [switch]. *)
Definition is_type (type : option json) (name : string) : bool :=
  match type with
  | Some (JStr s) => String.eqb s name
  | _ => false
  end.

(** Truthiness of an optional string (absent or empty is falsy). *)
Definition nonempty (o : option string) : bool :=
  match o with
  | None | Some "" => false
  | Some _ => true
  end.

(** ** Dates *)

Definition zero_padded (width : nat) (n : Z) : string :=
  let digits := pretty (Z.abs n) in
  String.concat "" (replicate (width - String.length digits)%nat "0") +:+ digits.

(** Proleptic Gregorian (year, month, day) of a day count since 1970-01-01. *)
Definition civil_from_days (days : Z) : Z * Z * Z :=
  let z := days + 719468 in
  let era := z / 146097 in
  let doe := z mod 146097 in
  let yoe := (doe - doe / 1460 + doe / 36524 - doe / 146096) / 365 in
  let doy := doe - (365 * yoe + yoe / 4 - yoe / 100) in
  let mp := (5 * doy + 2) / 153 in
  let d := doy - (153 * mp + 2) / 5 + 1 in
  let m := if mp <? 10 then mp + 3 else mp - 9 in
  let y := yoe + era * 400 + (if m <=? 2 then 1 else 0) in
  (y, m, d).

(** A [Date] object: an instant in milliseconds since the epoch, or the
    Invalid Date. *)
Inductive JSDate :=
| Instant (ms : Z)
| Invalid_Date.

(** [TimeClip]: an instant more than 8.64e15 ms from the epoch is no date. *)
Definition TimeClip (ms : Z) : JSDate :=
  if Z.abs ms <=? 8640000000000000 then Instant ms else Invalid_Date.

(** [new Date(ms).toISOString()]. *)
Definition toISOString (ms : Z) : string :=
  let '(y, m, d) := civil_from_days (ms / 86400000) in
  let t := ms mod 86400000 in
  let year :=
    if (0 <=? y) && (y <=? 9999) then zero_padded 4 y
    else (if y <? 0 then "-" else "+") +:+ zero_padded 6 y in
  year +:+ "-" +:+ zero_padded 2 m +:+ "-" +:+ zero_padded 2 d +:+ "T" +:+
  zero_padded 2 (t / 3600000) +:+ ":" +:+ zero_padded 2 (t / 60000 mod 60) +:+ ":" +:+
  zero_padded 2 (t / 1000 mod 60) +:+ "." +:+ zero_padded 3 (t mod 1000) +:+ "Z".

(** ** Numbers *)

(** A counter as a JavaScript number. *)
Definition Number_of (n : nat) : float :=
  PrimFloat.of_uint63 (Uint63.of_Z (Z.of_nat n)).

(** The integer [n] of [Number.prototype.toFixed(2)] for a finite positive
    [m * 2^e]: the one for which [n / 100] is closest, the larger of two. *)
Definition nearest_hundredth (m : positive) (e : Z) : Z :=
  if 0 <=? e
  then Z.pos m * 2 ^ e * 100
  else (2 * 100 * Z.pos m + 2 ^ (- e)) / (2 * 2 ^ (- e)).

(** The digits of [n] with a point before the last two. *)
Definition two_decimals (n : Z) : string :=
  zero_padded 1 (n / 100) +:+ "." +:+ zero_padded 2 (n mod 100).

(** [x.toFixed(2)].  Above 10^21 JavaScript switches to exponent notation;
    the operands here are percentages of two counters and stay far below. *)
Definition toFixed2 (x : float) : string :=
  match Prim2SF x with
  | S754_nan => "NaN"
  | S754_infinity false => "Infinity"
  | S754_infinity true => "-Infinity"
  | S754_zero _ => "0.00"
  | S754_finite s m e =>
      (if s then "-" else "") +:+ two_decimals (nearest_hundredth m e)
  end.

(** [Math.floor(x)] of a finite number ([0] stands in for NaN and the
    infinities, which have no integer floor). *)
Definition Math_floor (x : float) : Z :=
  match Prim2SF x with
  | S754_finite s m e =>
      let q := if 0 <=? e then Z.pos m * 2 ^ e else Z.pos m / 2 ^ (- e) in
      if s
      then (if 0 <=? e then - q
            else if Z.pos m mod 2 ^ (- e) =? 0 then - q else - q - 1)
      else q
  | _ => 0
  end.

(** The exact value of a finite number. *)
Definition exact (x : float) : option Q :=
  match Prim2SF x with
  | S754_zero _ => Some 0%Q
  | S754_finite s m e =>
      let v := if 0 <=? e then inject_Z (Z.pos m * 2 ^ e)
               else Qmake (Z.pos m) (Z.to_pos (2 ^ (- e))) in
      Some (if s then Qopp v else v)
  | _ => None
  end.

(** ASCII [toLowerCase]. *)
Definition lower_ascii (c : ascii) : ascii :=
  let n := nat_of_ascii c in
  if ((65 <=? n) && (n <=? 90))%nat then ascii_of_nat (n + 32) else c.

Fixpoint toLowerCase (s : string) : string :=
  match s with
  | EmptyString => EmptyString
  | String c s' => String (lower_ascii c) (toLowerCase s')
  end.

(* ===================================================================== *)
(** * The world and the monad of asynchronous methods *)
(* ===================================================================== *)

(** ** Documents *)

(** Modelled from the spec: the states of a campaign's [status]
    ([models/campaign.model.js] is not part of the source tree). *)
Inductive CampaignStatus := Pending | Processing | Completed | Failed.

(** The [delivery_stats] object the engine writes. *)
Record DeliveryStatsDoc := {
  ds_sent : nat;
  ds_failed : nat;
  ds_total : nat;
  ds_success_rate : string
}.

(** Modelled from the spec: the Campaign document ([models/campaign.model.js]
    is not part of the source tree), with the fields the delivery engine
    writes, under the names its updates give them. *)
Record Campaign := {
  c_status : CampaignStatus;
  c_started_at : option Z;
  c_completed_at : option Z;
  c_delivery_stats : option DeliveryStatsDoc;
  c_failure_reason : option string
}.

(** Modelled from the spec: the CommunicationLog document
    ([models/comunicationLog.model.js] is not part of the source tree), with
    the fields the engine inserts and the receipt handler updates.  The
    failure reason and the delivery date are kept as the update hands them
    over: what the schema makes of a reason that is not a string or of an
    Invalid Date is not in the source tree. *)
Record CommunicationLog := {
  customer_id : string;
  campaign_id : string;
  message_id : string;
  log_type : string;
  log_subject : string;
  message_content : string;
  recipient_email : string;
  log_status : string;
  failure_reason : option json;
  delivered_at : option JSDate;
  metadata : gmap string json
}.

(** The receipt [callDeliveryReceiptAPI] posts to
    [/api/vendor/delivery-receipt].  The vendor generates the vendor id
    (null when the send itself failed), the status, the instant (posted as
    its ISO string) and the failure reason (null when there is none); the
    message id, the recipient and the two ids are the values of the email it
    was asked to send, whatever they are. *)
Record Receipt := {
  r_vendorMessageId : option string;
  r_messageId : option json;
  r_status : string;
  r_deliveredAt : Z;
  r_failureReason : option string;
  r_recipient : option json;
  r_campaignId : option json;
  r_customerId : option json
}.

(** The vendor singleton's [deliveryStats]. *)
Record DeliveryStats := {
  totalSent : nat;
  successful : nat;
  stat_failed : nat;
  successRate : json
}.

(** One value of [Math.random()], with its base-36 rendering
    ([toString(36)], which the language leaves to the implementation). *)
Record Draw := { value : float; radix36 : string }.

(** ** Services *)

(** Each fault tape lists what the next calls to a collaborator do:
    [None] answers, [Some message] rejects with that error; a tape that has
    run out answers. *)
Abbreviation Faults := (list (option string)).

Record Redis := {
  queues : gmap string (list Job);
  redis_faults : Faults
}.

Record Mongo := {
  campaigns : gmap string Campaign;
  campaign_writes : list (string * Campaign);
  communicationLogs : list CommunicationLog;
  mongo_faults : Faults
}.

(** A callback scheduled with [setTimeout]: its delay, and the receipt it
    will post as a function of the instant at which it runs. *)
Abbreviation Timer := (Z * (Z -> Receipt))%type.

Record Vendor := {
  deliveryStats : DeliveryStats;
  bulk_faults : Faults;
  timers : list Timer
}.

Record Ambient := {
  clock : list Z;
  random : list Draw;
  console : list string
}.

Record World := {
  redis : Redis;
  mongo : Mongo;
  vendor : Vendor;
  ambient : Ambient
}.

Definition with_redis (f : Redis -> Redis) (w : World) : World :=
  {| redis := f (redis w); mongo := mongo w; vendor := vendor w; ambient := ambient w |}.
Definition with_mongo (f : Mongo -> Mongo) (w : World) : World :=
  {| redis := redis w; mongo := f (mongo w); vendor := vendor w; ambient := ambient w |}.
Definition with_vendor (f : Vendor -> Vendor) (w : World) : World :=
  {| redis := redis w; mongo := mongo w; vendor := f (vendor w); ambient := ambient w |}.
Definition with_ambient (f : Ambient -> Ambient) (w : World) : World :=
  {| redis := redis w; mongo := mongo w; vendor := vendor w; ambient := f (ambient w) |}.

(** ** The monad *)

Inductive result (A : Type) :=
| Ok (a : A)
| Throw (message : string).
Arguments Ok {A} a.
Arguments Throw {A} message.

Definition M (A : Type) : Type := World -> result A * World.

Definition ret {A} (a : A) : M A := fun w => (Ok a, w).

Definition throw {A} (message : string) : M A := fun w => (Throw message, w).

Definition bind {A B} (m : M A) (k : A -> M B) : M B :=
  fun w =>
    match m w with
    | (Ok a, w') => k a w'
    | (Throw e, w') => (Throw e, w')
    end.

(** [try { body } catch (error) { handler }]. *)
Definition try_catch {A} (body : M A) (handler : string -> M A) : M A :=
  fun w =>
    match body w with
    | (Ok a, w') => (Ok a, w')
    | (Throw e, w') => handler e w'
    end.

Notation "'let*' x := m 'in' k" := (bind m (fun x => k))
  (at level 10, x name, m at level 100, k at level 200).
Notation "'do*' m 'in' k" := (bind m (fun _ => k))
  (at level 10, m at level 100, k at level 200).

(** A step that returns or throws without touching the world. *)
Definition lift {A} (r : result A) : M A := fun w => (r, w).

(** ** Conversions that can throw *)

(** [String(v)]. *)
Definition ToString (v : json) : result string :=
  if convertible v then Ok (String_of v) else Throw not_primitive.

(** The same for a property that may be absent: the conversion a template
    literal and a computed property name apply. *)
Definition converted (o : option json) : result string :=
  if printable o then Ok (template o) else Throw not_primitive.

(** [`${o}`] as a step of a computation: the text, or the TypeError of a
    value that cannot be converted. *)
Definition interpolate (o : option json) : M string :=
  lift (converted o).

(** [new Date(v)] for a property that may be absent.  [undefined] makes the
    Invalid Date, null and the booleans count as numbers, a number is the
    instant itself, a string is parsed, and an object or an array is
    converted to a primitive first: to the string it converts to.
    [Date_parse] is [Date.parse], which the language fixes for the format
    of [toISOString] and leaves to the implementation for other texts. *)
Definition new_Date (Date_parse : string -> JSDate) (v : option json) : result JSDate :=
  match v with
  | None => Ok Invalid_Date
  | Some JNull => Ok (Instant 0)
  | Some (JBool b) => Ok (Instant (if b then 1 else 0))
  | Some (JNum n) => Ok (TimeClip n)
  | Some (JStr s) => Ok (Date_parse s)
  | Some value =>
      match ToString value with
      | Ok s => Ok (Date_parse s)
      | Throw e => Throw e
      end
  end.

(** ** Ambient effects *)

(** The next decision of a fault tape, and the rest of the tape. *)
Definition next_fault (tape : Faults) : option string * Faults :=
  match tape with
  | [] => (None, [])
  | f :: rest => (f, rest)
  end.

(** [Date.now()] (also the instant of [new Date()]): the next reading of the
    clock; a tape that has run out reads 0. *)
Definition Date_now : M Z :=
  fun w =>
    match clock (ambient w) with
    | [] => (Ok 0, w)
    | t :: later =>
        (Ok t, with_ambient (fun a => {| clock := later; random := random a; console := console a |}) w)
    end.

(** [Math.random()]. *)
Definition Math_random : M Draw :=
  fun w =>
    match random (ambient w) with
    | [] => (Ok {| value := 0%float; radix36 := "0" |}, w)
    | d :: later =>
        (Ok d, with_ambient (fun a => {| clock := clock a; random := later; console := console a |}) w)
    end.

(** [console.log], [console.warn] and [console.error]: one line each. *)
Definition console_log (line : string) : M unit :=
  fun w =>
    (Ok tt, with_ambient (fun a => {| clock := clock a; random := random a; console := console a ++ [line] |}) w).

(** [await new Promise(resolve => setTimeout(resolve, ms))]: the caller is
    suspended; the time that passes shows in the later clock readings. *)
Definition sleep (ms : Z) : M unit := ret tt.

(** [Math.random().toString(36).substr(2, n)]. *)
Definition random_suffix (n : nat) : M string :=
  let* d := Math_random in
  ret (String.substring 2 n (radix36 d)).

(* ===================================================================== *)
(** * The broker: [config/redis.js] *)
(* ===================================================================== *)

Module RedisService.

(** A command sent over the shared client.  The next entry of the fault
    tape decides whether it is rejected (connection lost, wrong type of
    key); otherwise [run] acts on the keyspace. *)
Definition command {A} (run : gmap string (list Job) -> A * gmap string (list Job)) : M A :=
  fun w =>
    let (fault, rest) := next_fault (redis_faults (redis w)) in
    match fault with
    | Some message =>
        (Throw message, with_redis (fun r => {| queues := queues r; redis_faults := rest |}) w)
    | None =>
        let (a, qs) := run (queues (redis w)) in
        (Ok a, with_redis (fun _ => {| queues := qs; redis_faults := rest |}) w)
    end.

(** LPUSH: the element becomes the head; the reply is the new length. *)
Definition lPush (key : string) (element : Job) : M nat :=
  command (fun qs =>
    let l := element :: default [] (qs !! key) in
    (length l, <[key := l]> qs)).

(** BRPOP with a timeout: the tail element, or nothing when the list stays
    empty.  A list emptied by the pop is removed from the keyspace. *)
Definition brPop (key : string) (timeout : Z) : M (option Job) :=
  command (fun qs =>
    match qs !! key with
    | Some l =>
        match last l with
        | Some element =>
            (Some element,
             match removelast l with
             | [] => delete key qs
             | l' => <[key := l']> qs
             end)
        | None => (None, qs)
        end
    | None => (None, qs)
    end).

(** The elements of the list at [key], head first; a key that is not there
    is an empty list. *)
Definition elements (w : World) (key : string) : list Job :=
  default [] (queues (redis w) !! key).

(** LLEN. *)
Definition lLen (key : string) : M nat :=
  command (fun qs => (length (default [] (qs !! key)), qs)).

(** [`${Date.now()}-${Math.random().toString(36).substr(2, 9)}`]. *)
Definition fresh_id : M string :=
  let* now := Date_now in
  let* suffix := random_suffix 9 in
  ret (pretty now +:+ "-" +:+ suffix).

(** [job.type || 'job'] as the console prints it.  The value is handed to
    [console.log] as an argument of its own, which never throws; a string,
    which is what the callers of this repository pass, is printed as it is,
    and for other values the text of the conversion stands in for the
    console's rendering. *)
Definition type_or_job (job : Job) : string :=
  if truthy (job !! "type") then template (job !! "type") else "job".

(** [{ ...job, id, timestamp, status: 'pending' }]. *)
Definition jobData (job : Job) (id : string) (timestamp : Z) : Job :=
  <["status" := JStr "pending"]>
    (<["timestamp" := JStr (toISOString timestamp)]>
       (<["id" := JStr id]> job)).

Definition addToQueue (queueName : string) (job : Job) : M unit :=
  try_catch
    (let* id := fresh_id in
     let* timestamp := Date_now in
     do* lPush queueName (jobData job id timestamp) in
     console_log ("Added job to " +:+ queueName +:+ ": " +:+ type_or_job job))
    (fun error =>
       do* console_log ("Failed to add job to " +:+ queueName +:+ ": " +:+ error) in
       throw error).

(** [{ ...job, error: jobError.message, failedAt }]. *)
Definition failedJob (job : Job) (error : string) (failedAt : Z) : Job :=
  <["failedAt" := JStr (toISOString failedAt)]> (<["error" := JStr error]> job).

(** One turn of the [while (true)] loop of [processQueue].  The element
    popped was stored by [addToQueue], the only writer of the lists, which
    sets [id] to a string: [`${job.id}`] is that string. *)
Definition iteration (queueName : string) (callback : Job -> M unit) : M unit :=
  try_catch
    (let* result := brPop queueName 10 in
     match result with
     | Some job =>
         do* console_log ("Processing job " +:+ template (job !! "id") +:+ " from " +:+ queueName) in
         try_catch
           (do* callback job in
            console_log ("Job " +:+ template (job !! "id") +:+ " completed successfully"))
           (fun jobError =>
              do* console_log ("Job " +:+ template (job !! "id") +:+ " failed: " +:+ jobError) in
              let* failedAt := Date_now in
              addToQueue (queueName +:+ ":failed") (failedJob job jobError failedAt))
     | None => ret tt
     end)
    (fun error =>
       do* console_log ("Error processing queue " +:+ queueName +:+ ": " +:+ error) in
       sleep 5000).

(** The loop never ends; [processQueue q cb n] is its first [n] turns. *)
Fixpoint turns (queueName : string) (callback : Job -> M unit) (n : nat) : M unit :=
  match n with
  | O => ret tt
  | S n' => do* iteration queueName callback in turns queueName callback n'
  end.

Definition processQueue (queueName : string) (callback : Job -> M unit) (n : nat) : M unit :=
  do* console_log ("Started processing queue: " +:+ queueName) in
  turns queueName callback n.

Record QueueStats := { pending : nat; failed : nat; total : nat }.

Definition getQueueStats (queueName : string) : M QueueStats :=
  try_catch
    (let* length := lLen queueName in
     let* failedLength := lLen (queueName +:+ ":failed") in
     ret {| pending := length; failed := failedLength; total := length + failedLength |})
    (fun error =>
       do* console_log ("Failed to get stats for " +:+ queueName +:+ ": " +:+ error) in
       ret {| pending := 0; failed := 0; total := 0 |}).

End RedisService.

(* ===================================================================== *)
(** * The persistence collaborator (Mongoose models) *)
(* ===================================================================== *)

(** The models are Mongoose models over MongoDB.  The campaigns are kept by
    [_id] and the communication logs in insertion order; a query is answered
    or rejected as a whole. *)
Module Mongoose.

(** A query sent to the database: rejected when the fault tape says so. *)
Definition command {A} (run : Mongo -> A * Mongo) : M A :=
  fun w =>
    let (fault, rest) := next_fault (mongo_faults (mongo w)) in
    let db :=
      {| campaigns := campaigns (mongo w);
         campaign_writes := campaign_writes (mongo w);
         communicationLogs := communicationLogs (mongo w);
         mongo_faults := rest |} in
    match fault with
    | Some message => (Throw message, with_mongo (fun _ => db) w)
    | None => let (a, db') := run db in (Ok a, with_mongo (fun _ => db') w)
    end.

(** [Campaign.findByIdAndUpdate(id, update)]: the document with that id, if
    any, gets the fields of [update]; the reply is the document found.
    Every write is also appended to [campaign_writes], the history of what a
    reader of the collection could have seen. *)
Definition Campaign_findByIdAndUpdate (id : string) (update : Campaign -> Campaign)
  : M (option Campaign) :=
  command (fun db =>
    match campaigns db !! id with
    | Some doc =>
        (Some doc,
         {| campaigns := <[id := update doc]> (campaigns db);
            campaign_writes := campaign_writes db ++ [(id, update doc)];
            communicationLogs := communicationLogs db;
            mongo_faults := mongo_faults db |})
    | None => (None, db)
    end).

(** [CommunicationLog.insertMany(logs)]. *)
Definition CommunicationLog_insertMany (logs : list CommunicationLog)
  : M (list CommunicationLog) :=
  command (fun db =>
    (logs,
     {| campaigns := campaigns db;
        campaign_writes := campaign_writes db;
        communicationLogs := communicationLogs db ++ logs;
        mongo_faults := mongo_faults db |})).

(** [CommunicationLog.updateMany(filter, update)]. *)
Definition CommunicationLog_updateMany
    (filter : CommunicationLog -> bool) (update : CommunicationLog -> CommunicationLog)
  : M unit :=
  command (fun db =>
    (tt,
     {| campaigns := campaigns db;
        campaign_writes := campaign_writes db;
        communicationLogs :=
          map (fun log => if filter log then update log else log) (communicationLogs db);
        mongo_faults := mongo_faults db |})).

(** The first document that passes [filter] is updated. *)
Fixpoint update_first (filter : CommunicationLog -> bool)
    (update : CommunicationLog -> CommunicationLog) (logs : list CommunicationLog)
  : option CommunicationLog * list CommunicationLog :=
  match logs with
  | [] => (None, [])
  | log :: rest =>
      if filter log then (Some (update log), update log :: rest)
      else let (found, rest') := update_first filter update rest in (found, log :: rest')
  end.

(** [CommunicationLog.findOneAndUpdate(filter, update, { new: true })]. *)
Definition CommunicationLog_findOneAndUpdate
    (filter : CommunicationLog -> bool) (update : CommunicationLog -> CommunicationLog)
  : M (option CommunicationLog) :=
  command (fun db =>
    let (found, logs) := update_first filter update (communicationLogs db) in
    (found,
     {| campaigns := campaigns db;
        campaign_writes := campaign_writes db;
        communicationLogs := logs;
        mongo_faults := mongo_faults db |})).

End Mongoose.

(* ===================================================================== *)
(** * The vendor simulator: [controllers/vendor.controller.js] *)
(* ===================================================================== *)

Module VendorAPIService.

(** An email as the delivery engine builds it
    ([campaign.consumer.js], the object literal of [emailBatch]). *)
Record Email := {
  messageId : string;
  to : string;
  subject : string;
  htmlContent : string;
  from : string;
  campaignId : string;
  customerId : string
}.

(** That object. *)
Definition email_json (mail : Email) : json :=
  JObj [("messageId", JStr (messageId mail));
        ("to", JStr (to mail));
        ("subject", JStr (subject mail));
        ("htmlContent", JStr (htmlContent mail));
        ("from", JStr (from mail));
        ("campaignId", JStr (campaignId mail));
        ("customerId", JStr (customerId mail))].

Record SendResult := {
  success : bool;
  vendorMessageId : option string;
  status : string;
  estimatedDelivery : option string;
  error : option string
}.

Record Detail := {
  d_to : option json;
  d_messageId : option json;
  d_vendorMessageId : option string;
  d_status : string;
  d_error : option string
}.

Record BulkResult := {
  sent : nat;
  failed : nat;
  total : nat;
  details : list Detail
}.

(** The statistics the constructor and [resetStats] install. *)
Definition zeroStats : DeliveryStats :=
  {| totalSent := 0; successful := 0; stat_failed := 0; successRate := JNum 0 |}.

(** [updateStats(isSuccess)], on [this.deliveryStats]. *)
Definition updateStats (isSuccess : bool) (s : DeliveryStats) : DeliveryStats :=
  let totalSent' := S (totalSent s) in
  let successful' := if isSuccess then S (successful s) else successful s in
  let failed' := if isSuccess then stat_failed s else S (stat_failed s) in
  {| totalSent := totalSent';
     successful := successful';
     stat_failed := failed';
     successRate :=
       JStr (toFixed2 (PrimFloat.mul (PrimFloat.div (Number_of successful') (Number_of totalSent'))
                                     (Number_of 100))) |}.

Definition resetStats (s : DeliveryStats) : DeliveryStats := zeroStats.

(** A method acting on [this.deliveryStats]. *)
Definition on_stats (f : DeliveryStats -> DeliveryStats) : M unit :=
  fun w =>
    (Ok tt,
     with_vendor (fun v =>
       {| deliveryStats := f (deliveryStats v);
          bulk_faults := bulk_faults v;
          timers := timers v |}) w).

(** [setTimeout(() => this.callDeliveryReceiptAPI(...), delay)]: the receipt
    is posted later, outside the caller's control flow. *)
Definition setTimeout (callback : Z -> Receipt) (delay : Z) : M unit :=
  fun w =>
    (Ok tt,
     with_vendor (fun v =>
       {| deliveryStats := deliveryStats v;
          bulk_faults := bulk_faults v;
          timers := timers v ++ [(delay, callback)] |}) w).

(** [Math.floor(Math.random() * (max - min + 1)) + min]. *)
Definition getRandomDelay (min max : nat) : M Z :=
  let* r := Math_random in
  ret (Math_floor (PrimFloat.mul (value r) (Number_of (max - min + 1))) + Z.of_nat min).

Definition simulateDelay (minMs maxMs : nat) : M unit :=
  let* delay := getRandomDelay minMs maxMs in
  sleep delay.

Definition generateVendorMessageId : M string :=
  let* timestamp := Date_now in
  let* suffix := random_suffix 8 in
  ret ("vendor_" +:+ pretty timestamp +:+ "_" +:+ suffix).

Definition reasons : list string :=
  [ "Recipient mailbox full";
    "Invalid email address";
    "Spam filter rejection";
    "Temporary server error";
    "Recipient domain not found";
    "Message too large";
    "Bounce - user unknown";
    "Rate limit exceeded";
    "Content policy violation";
    "Temporary network error" ].

Definition getRandomFailureReason : M (option string) :=
  let* r := Math_random in
  ret (reasons !! Z.to_nat (Math_floor (PrimFloat.mul (value r) (Number_of (length reasons))))).

(** The receipt [callDeliveryReceiptAPI] posts for a delivery result:
    [emailData] holds the properties [sendEmail] destructured. *)
Definition receipt_of (emailData : Job) (vendorMessageId : option string)
    (status : string) (timestamp : Z) (failureReason : option string) : Receipt :=
  {| r_vendorMessageId := vendorMessageId;
     r_messageId := emailData !! "messageId";
     r_status := status;
     r_deliveredAt := timestamp;
     r_failureReason := failureReason;
     r_recipient := emailData !! "to";
     r_campaignId := emailData !! "campaignId";
     r_customerId := emailData !! "customerId" |}.

(** 0.9 as a binary64 constant. *)
Definition nine_tenths : float := 0x1.ccccccccccccdp-1%float.

(** [sendEmail(emailData)] for an argument that can be destructured: the
    properties of [emailData] are whatever the caller sent.  The only step
    of the [try] block that can throw is the conversion of [to] in the
    console line, after the decision is recorded and the callback scheduled;
    the [catch] block then schedules a second callback. *)
Definition sendEmail (emailData : Job) : M SendResult :=
  try_catch
    (do* simulateDelay 50 200 in
     let* r := Math_random in
     let isSuccess := PrimFloat.ltb (value r) nine_tenths in
     let* vendorMessageId := generateVendorMessageId in
     let status := if isSuccess then "SENT" else "FAILED" in
     let* timestamp := Date_now in
     let* failureReason := if isSuccess then ret None else getRandomFailureReason in
     do* on_stats (updateStats isSuccess) in
     let* delay := getRandomDelay 100 500 in
     do* setTimeout
           (fun _ => receipt_of emailData (Some vendorMessageId) status timestamp failureReason)
           delay in
     let* to := interpolate (emailData !! "to") in
     do* console_log ("Vendor API: Email to " +:+ to +:+ " - " +:+ status +:+
                      " (" +:+ vendorMessageId +:+ ")") in
     ret {| success := true;
            vendorMessageId := Some vendorMessageId;
            status := status;
            estimatedDelivery := Some (if isSuccess then "1-3 minutes" else "Failed");
            error := None |})
    (fun error =>
       do* console_log ("Vendor API Error: " +:+ error) in
       do* setTimeout
             (fun timestamp => receipt_of emailData None "FAILED" timestamp
                                 (Some ("Vendor API Error: " +:+ error)))
             100 in
       ret {| success := false;
              vendorMessageId := None;
              status := "FAILED";
              estimatedDelivery := None;
              error := Some error |}).

(** [sendEmail(emailData)] for any element of a parsed array: the
    destructuring in front of the [try] block throws on null. *)
Definition sendEmail_any (emailData : json) : M SendResult :=
  match emailData with
  | JNull => throw "Cannot destructure property 'messageId' of 'emailData' as it is null."
  | _ => sendEmail (fields emailData)
  end.

(** The body of the [for] loop of [sendBulkEmails], from the email at hand
    to the end of the batch.  In the [try] block nothing after the call of
    [sendEmail] can throw, so the counters a [catch] sees are the ones the
    turn started with; the [catch] block reads [email.to], which throws in
    its turn when the email is null. *)
Fixpoint sendEach (emails : list json) (results : BulkResult) : M BulkResult :=
  match emails with
  | [] => ret results
  | email :: later =>
      let* results' :=
        try_catch
          (let* result := sendEmail_any email in
           let counted :=
             if success result && String.eqb (status result) "SENT"
             then (S (sent results), failed results)
             else (sent results, S (failed results)) in
           let detail :=
             {| d_to := fields email !! "to";
                d_messageId := fields email !! "messageId";
                d_vendorMessageId := vendorMessageId result;
                d_status := status result;
                d_error := None |} in
           do* match later with
               | [] => ret tt
               | _ => simulateDelay 10 50
               end in
           ret {| sent := fst counted;
                  failed := snd counted;
                  total := total results;
                  details := details results ++ [detail] |})
          (fun error =>
             match email with
             | JNull => throw "Cannot read properties of null (reading 'to')"
             | _ =>
                 ret {| sent := sent results;
                        failed := S (failed results);
                        total := total results;
                        details := details results ++
                          [ {| d_to := fields email !! "to";
                               d_messageId := fields email !! "messageId";
                               d_vendorMessageId := None;
                               d_status := "FAILED";
                               d_error := Some error |} ] |}
             end) in
      sendEach later results'
  end.

(** [sendBulkEmails(emailBatch)] for an array of parsed values. *)
Definition sendBulkEmails (emailBatch : list json) : M BulkResult :=
  do* console_log ("Vendor API: Processing bulk batch of " +:+ pretty (length emailBatch) +:+ " emails") in
  let* results :=
    sendEach emailBatch {| sent := 0; failed := 0; total := length emailBatch; details := [] |} in
  do* console_log ("Vendor API Batch Complete: " +:+ pretty (sent results) +:+ " sent, " +:+
                   pretty (failed results) +:+ " failed") in
  ret results.

(** The exported singleton as the delivery engine calls it, with the emails
    it has built.  The method above has no rejecting path for such a batch;
    the engine still provides for the promise being rejected (a vendor that
    is stubbed or down), and the tape [bulk_faults] decides that from
    outside. *)
Definition vendorAPI_sendBulkEmails (emailBatch : list Email) : M BulkResult :=
  fun w =>
    let (fault, rest) := next_fault (bulk_faults (vendor w)) in
    let w' :=
      with_vendor (fun v =>
        {| deliveryStats := deliveryStats v; bulk_faults := rest; timers := timers v |}) w in
    match fault with
    | Some message => (Throw message, w')
    | None => sendBulkEmails (map email_json emailBatch) w'
    end.

End VendorAPIService.

Module VendorController.

(** What the handler sends back: [res.status(code).json(body)]. *)
Record Response := {
  statusCode : nat;
  body_success : bool;
  body_message : string;
  body_error : option string
}.

(** [status.toLowerCase()] for a status that is truthy: only a string has
    that method. *)
Definition lower_cased (status : option json) : result string :=
  match status with
  | Some (JStr s) => Ok (toLowerCase s)
  | _ => Throw "status.toLowerCase is not a function"
  end.

(** [status === 'SENT' ? new Date(deliveredAt) : null]. *)
Definition delivery_date (Date_parse : string -> JSDate) (status deliveredAt : option json)
  : result (option JSDate) :=
  match status with
  | Some (JStr s) =>
      if String.eqb s "SENT" then
        match new_Date Date_parse deliveredAt with
        | Ok date => Ok (Some date)
        | Throw e => Throw e
        end
      else Ok None
  | _ => Ok None
  end.

(** The filter [{ message_id: messageId }].  A string selects the logs with
    that message id.  What the schema makes of a value that is not a string
    is not in the source tree; here no log is selected by one. *)
Definition has_message_id (messageId : option json) (log : CommunicationLog) : bool :=
  match messageId with
  | Some (JStr s) => String.eqb (message_id log) s
  | _ => false
  end.

(** The update document built from a receipt.  The whole [metadata] object
    is replaced; an absent [vendorMessageId] is stored as null. *)
Definition updateData (status : string) (delivered : option JSDate)
    (failureReason vendorMessageId : option json) (receivedAt : Z)
    (log : CommunicationLog) : CommunicationLog :=
  {| customer_id := customer_id log;
     campaign_id := campaign_id log;
     message_id := message_id log;
     log_type := log_type log;
     log_subject := log_subject log;
     message_content := message_content log;
     recipient_email := recipient_email log;
     log_status := status;
     failure_reason := failureReason;
     delivered_at := delivered;
     metadata :=
       <["vendor_webhook" := JBool true]>
         (<["receipt_received_at" := JStr (toISOString receivedAt)]>
            ({[ "vendor_message_id" := default JNull vendorMessageId ]})) |}.

Definition answer (code : nat) (ok : bool) (message : string) (error : option string) : Response :=
  {| statusCode := code; body_success := ok; body_message := message; body_error := error |}.

(** [handleDeliveryReceipt(req, res)] with [req.body = receiptData], an
    object with whatever members the caller posted (the route is public).
    The update document is built, in the order of its members, before the
    query is sent. *)
Definition handleDeliveryReceipt (Date_parse : string -> JSDate) (receiptData : Job)
  : M Response :=
  let messageId := receiptData !! "messageId" in
  let status := receiptData !! "status" in
  try_catch
    (if negb (truthy messageId) then ret (answer 400 false "messageId is required" None)
     else if negb (truthy status) then ret (answer 400 false "status is required" None)
     else
       let* lowered := lift (lower_cased status) in
       let* delivered := lift (delivery_date Date_parse status (receiptData !! "deliveredAt")) in
       let* receivedAt := Date_now in
       let* communicationLog :=
         Mongoose.CommunicationLog_findOneAndUpdate
           (has_message_id messageId)
           (updateData lowered delivered (receiptData !! "failureReason")
                       (receiptData !! "vendorMessageId") receivedAt) in
       match communicationLog with
       | None =>
           let* id := interpolate messageId in
           do* console_log ("Communication log not found for message: " +:+ id) in
           ret (answer 404 false "Communication log not found" None)
       | Some _ =>
           let* id := interpolate messageId in
           let* shown := interpolate status in
           do* console_log ("Delivery receipt processed: " +:+ id +:+ " -> " +:+ shown) in
           ret (answer 200 true "Delivery receipt processed successfully" None)
       end)
    (fun error =>
       do* console_log ("Delivery Receipt Error: " +:+ error) in
       ret (answer 500 false "Failed to process delivery receipt" (Some error))).

End VendorController.

(* ===================================================================== *)
(** * The campaign consumer: [consumers/campaign.consumer.js] *)
(* ===================================================================== *)

Module CampaignConsumer.

Record Customer := {
  id : string;
  name : option string;
  email : string
}.

Record MessageContent := {
  subject : string;
  message : string;
  from_name : string;
  from_email : string
}.

(** The fields [deliverCampaign] destructures from a DELIVER_CAMPAIGN job as
    the campaign API enqueues it. *)
Record DeliverJob := {
  campaignId : string;
  customers : list Customer;
  messageContent : MessageContent;
  userId : string;
  userEmail : string
}.

(** ** [createBatches] *)

(** [array.slice(i, j)]. *)
Definition slice {A} (i j : nat) (array : list A) : list A :=
  take (j - i) (drop i array).

(** The [for] loop of [createBatches] with [i] and [batches] as they stand.
    [None] when the loop has not ended within [fuel] turns. *)
Fixpoint createBatches_from {A} (fuel : nat) (array : list A) (batchSize i : nat)
    (batches : list (list A)) : option (list (list A)) :=
  if (i <? length array)%nat then
    match fuel with
    | O => None
    | S fuel' =>
        createBatches_from fuel' array batchSize (i + batchSize)
          (batches ++ [slice i (i + batchSize) array])
    end
  else Some batches.

(** One turn per element is enough whenever the loop ends at all. *)
Definition createBatches {A} (array : list A) (batchSize : nat) : option (list (list A)) :=
  createBatches_from (length array) array batchSize 0 [].

Section Delivery.

(** Template rendering is pure text substitution; the delivery logic does
    not look into its result. *)
Variable personalizeMessage : string -> Customer -> string.
Variable generateEmailHTML : MessageContent -> Customer -> string.

Definition generateMessageId : M string :=
  let* timestamp := Date_now in
  let* random := random_suffix 9 in
  ret ("msg_" +:+ pretty timestamp +:+ "_" +:+ random).

(** [customers.map(customer => ({ ... }))] of [createCommunicationLogs]. *)
Fixpoint buildLogs (customers : list Customer) (campaignId : string)
    (messageContent : MessageContent) : M (list CommunicationLog) :=
  match customers with
  | [] => ret []
  | customer :: rest =>
      let* message_id := generateMessageId in
      let log :=
        {| customer_id := id customer;
           campaign_id := campaignId;
           message_id := message_id;
           log_type := "email";
           log_subject := personalizeMessage (subject messageContent) customer;
           message_content := personalizeMessage (message messageContent) customer;
           recipient_email := email customer;
           log_status := "pending";
           failure_reason := None;
           delivered_at := None;
           metadata :=
             <["from_email" := JStr (from_email messageContent)]>
               (<["from_name" := JStr (from_name messageContent)]>
                  (<["customer_name" := from_option JStr JNull (name customer)]>
                     ({[ "batch_processed" := JBool true ]}))) |} in
      let* logs := buildLogs rest campaignId messageContent in
      ret (log :: logs)
  end.

Definition createCommunicationLogs (customers : list Customer) (campaignId : string)
    (messageContent : MessageContent) : M (list CommunicationLog) :=
  let* logs := buildLogs customers campaignId messageContent in
  Mongoose.CommunicationLog_insertMany logs.

(** [batch.map((customer, index) => ({ messageId: communicationLogs[index].message_id, ... }))],
    from position [index] on. *)
Fixpoint emailBatch_from (index : nat) (batch : list Customer)
    (communicationLogs : list CommunicationLog) (campaignId : string)
    (messageContent : MessageContent) : M (list VendorAPIService.Email) :=
  match batch with
  | [] => ret []
  | customer :: rest =>
      match communicationLogs !! index with
      | None => throw "Cannot read properties of undefined (reading 'message_id')"
      | Some log =>
          let mail :=
            {| VendorAPIService.messageId := message_id log;
               VendorAPIService.to := email customer;
               VendorAPIService.subject := personalizeMessage (subject messageContent) customer;
               VendorAPIService.htmlContent := generateEmailHTML messageContent customer;
               VendorAPIService.from := from_email messageContent;
               VendorAPIService.campaignId := campaignId;
               VendorAPIService.customerId := id customer |} in
          let* mails := emailBatch_from (S index) rest communicationLogs campaignId messageContent in
          ret (mail :: mails)
      end
  end.

(** The update that force-fails the logs of a batch. *)
Definition mark_failed (reason : string) (at_ : Z) (log : CommunicationLog) : CommunicationLog :=
  {| customer_id := customer_id log;
     campaign_id := campaign_id log;
     message_id := message_id log;
     log_type := log_type log;
     log_subject := log_subject log;
     message_content := message_content log;
     recipient_email := recipient_email log;
     log_status := "failed";
     failure_reason := Some (JStr reason);
     delivered_at := Some (Instant at_);
     metadata := metadata log |}.

(** The body of the batch loop of [deliverCampaign], from batch
    [batchIndex] on, with the running [sentCount] and [failedCount].  In the
    [try] block nothing after the two additions can throw, and the [catch]
    block adds to [failedCount] before anything in it can. *)
Fixpoint deliverBatches (job : DeliverJob) (batchCount batchIndex : nat)
    (batches : list (list Customer)) (sentCount failedCount : nat) : M (nat * nat) :=
  match batches with
  | [] => ret (sentCount, failedCount)
  | batch :: later =>
      do* console_log ("Processing batch " +:+ pretty (batchIndex + 1)%nat +:+ "/" +:+
                       pretty batchCount +:+ " (" +:+ pretty (length batch) +:+ " emails)") in
      let* communicationLogs :=
        createCommunicationLogs batch (campaignId job) (messageContent job) in
      let* emailBatch :=
        emailBatch_from 0 batch communicationLogs (campaignId job) (messageContent job) in
      let* counts :=
        try_catch
          (let* batchResult := VendorAPIService.vendorAPI_sendBulkEmails emailBatch in
           do* console_log ("Batch " +:+ pretty (batchIndex + 1)%nat +:+ " completed: " +:+
                            pretty (VendorAPIService.sent batchResult) +:+ " sent, " +:+
                            pretty (VendorAPIService.failed batchResult) +:+ " failed") in
           do* (if (batchIndex <? batchCount - 1)%nat then sleep 1000 else ret tt) in
           ret ((sentCount + VendorAPIService.sent batchResult)%nat,
                (failedCount + VendorAPIService.failed batchResult)%nat))
          (fun batchError =>
             do* console_log ("Batch " +:+ pretty (batchIndex + 1)%nat +:+ " failed: " +:+ batchError) in
             let* now := Date_now in
             do* Mongoose.CommunicationLog_updateMany
                   (fun log => bool_decide (message_id log ∈ map message_id communicationLogs))
                   (mark_failed ("Batch processing error: " +:+ batchError) now) in
             ret (sentCount, (failedCount + length batch)%nat)) in
      deliverBatches job batchCount (S batchIndex) later (fst counts) (snd counts)
  end.

(** The updates [deliverCampaign] sends to the campaign. *)
Definition set_processing (started_at : Z) (c : Campaign) : Campaign :=
  {| c_status := Processing;
     c_started_at := Some started_at;
     c_completed_at := c_completed_at c;
     c_delivery_stats := c_delivery_stats c;
     c_failure_reason := c_failure_reason c |}.

Definition set_completed (completed_at : Z) (stats : DeliveryStatsDoc) (c : Campaign) : Campaign :=
  {| c_status := Completed;
     c_started_at := c_started_at c;
     c_completed_at := Some completed_at;
     c_delivery_stats := Some stats;
     c_failure_reason := c_failure_reason c |}.

Definition set_failed (completed_at : Z) (reason : string) (c : Campaign) : Campaign :=
  {| c_status := Failed;
     c_started_at := c_started_at c;
     c_completed_at := Some completed_at;
     c_delivery_stats := c_delivery_stats c;
     c_failure_reason := Some reason |}.

(** [((sentCount / customers.length) * 100).toFixed(2)]. *)
Definition success_rate (sentCount audience : nat) : string :=
  toFixed2 (PrimFloat.mul (PrimFloat.div (Number_of sentCount) (Number_of audience))
                          (Number_of 100)).

Definition batchSize : nat := 10.

(** The [delivery_stats] object of the final update. *)
Definition delivery_stats (sentCount failedCount audience : nat) : DeliveryStatsDoc :=
  {| ds_sent := sentCount;
     ds_failed := failedCount;
     ds_total := audience;
     ds_success_rate := success_rate sentCount audience |}.

(** The [try] block of [deliverCampaign].  [createBatches] returns for this
    batch size ([createBatches_returns] below), so its result is there. *)
Definition delivery (job : DeliverJob) : M unit :=
  let* started_at := Date_now in
  do* Mongoose.Campaign_findByIdAndUpdate (campaignId job) (set_processing started_at) in
  do* console_log ("Starting campaign delivery: " +:+ campaignId job +:+ " to " +:+
                   pretty (length (customers job)) +:+ " customers") in
  let batches := default [] (createBatches (customers job) batchSize) in
  let* counts := deliverBatches job (length batches) 0 batches 0 0 in
  let sentCount := fst counts in
  let failedCount := snd counts in
  let* completed_at := Date_now in
  do* Mongoose.Campaign_findByIdAndUpdate (campaignId job)
        (set_completed completed_at
           (delivery_stats sentCount failedCount (length (customers job)))) in
  console_log ("Campaign " +:+ campaignId job +:+ " completed: " +:+ pretty sentCount +:+
               " sent, " +:+ pretty failedCount +:+ " failed").

(** The [catch] block of [deliverCampaign]. *)
Definition delivery_failed (job : DeliverJob) (error : string) : M unit :=
  do* console_log ("Campaign delivery failed for " +:+ campaignId job +:+ ": " +:+ error) in
  let* completed_at := Date_now in
  do* Mongoose.Campaign_findByIdAndUpdate (campaignId job) (set_failed completed_at error) in
  throw error.

Definition deliverCampaign (job : DeliverJob) : M unit :=
  try_catch (delivery job) (delivery_failed job).

(** [const { type, campaignId, customers, messageContent } = job]: how the
    parsed job is read as the fields above. *)
Variable fields_of : Job -> DeliverJob.

(** The first statement of [processCampaignJob], in front of its [try]
    block: [console.log(`Processing campaign job: ${type} for campaign
    ${campaignId}`)].  Building the line converts the two values, which
    throws for one that cannot be converted. *)
Definition announce (job : Job) : M unit :=
  let* type := interpolate (job !! "type") in
  let* campaignId := interpolate (job !! "campaignId") in
  console_log ("Processing campaign job: " +:+ type +:+ " for campaign " +:+ campaignId).

Definition processCampaignJob (job : Job) : M unit :=
  let type := job !! "type" in
  do* announce job in
  try_catch
    (if is_type type "DELIVER_CAMPAIGN" then deliverCampaign (fields_of job)
     else
       let* shown := interpolate type in
       console_log ("Unknown campaign job type: " +:+ shown))
    (fun error =>
       let* campaignId := interpolate (job !! "campaignId") in
       do* console_log ("Failed to process campaign job " +:+ campaignId +:+ ": " +:+ error) in
       throw error).

End Delivery.

End CampaignConsumer.

(* ===================================================================== *)
(** * The campaign API: [controllers/segment.controller.js] *)
(* ===================================================================== *)

Module SegmentController.

(** [customers.map(c => ({ id, name, email }))], one element. *)
Definition customer_json (c : CampaignConsumer.Customer) : json :=
  JObj [("id", JStr (CampaignConsumer.id c));
        ("name", from_option JStr JNull (CampaignConsumer.name c));
        ("email", JStr (CampaignConsumer.email c))].

(** The job the campaign endpoint hands to [addJob('campaign.jobs', ...)]. *)
Definition delivery_job (segmentId : string) (job : CampaignConsumer.DeliverJob) : Job :=
  let content := CampaignConsumer.messageContent job in
  <["userEmail" := JStr (CampaignConsumer.userEmail job)]>
    (<["userId" := JStr (CampaignConsumer.userId job)]>
       (<["messageContent" :=
            JObj [("subject", JStr (CampaignConsumer.subject content));
                  ("message", JStr (CampaignConsumer.message content));
                  ("from_name", JStr (CampaignConsumer.from_name content));
                  ("from_email", JStr (CampaignConsumer.from_email content))]]>
          (<["customers" := JArr (map customer_json (CampaignConsumer.customers job))]>
             (<["segmentId" := JStr segmentId]>
                (<["campaignId" := JStr (CampaignConsumer.campaignId job)]>
                   ({[ "type" := JStr "DELIVER_CAMPAIGN" ]})))))).

End SegmentController.

(* ===================================================================== *)
(** * The customer consumer: [consumers/customer.consumer.js] *)
(* ===================================================================== *)

Module CustomerConsumer.

Section Dispatch.

(** The five handlers act on [job.data] through the user and customer
    models; the dispatcher only awaits them. *)
Variables createCustomer updateCustomer deleteCustomer
          bulkImportCustomers updateCustomerStats : option json -> M unit.

(** The console line in front of the [try] block converts [job.type],
    which throws for a type that cannot be converted; the lines inside
    convert it again. *)
Definition processCustomerJob (job : Job) : M unit :=
  let type := job !! "type" in
  let* shown := interpolate type in
  do* console_log ("Processing customer job: " +:+ shown) in
  try_catch
    (if is_type type "CREATE_CUSTOMER" then createCustomer (job !! "data")
     else if is_type type "UPDATE_CUSTOMER" then updateCustomer (job !! "data")
     else if is_type type "DELETE_CUSTOMER" then deleteCustomer (job !! "data")
     else if is_type type "BULK_IMPORT_CUSTOMERS" then bulkImportCustomers (job !! "data")
     else if is_type type "UPDATE_CUSTOMER_STATS" then updateCustomerStats (job !! "data")
     else
       let* unknown := interpolate type in
       throw ("Unknown job type: " +:+ unknown))
    (fun error =>
       let* failed := interpolate type in
       do* console_log ("Customer job " +:+ failed +:+ " failed: " +:+ error) in
       throw error).

End Dispatch.

End CustomerConsumer.

(* ===================================================================== *)
(** * More of JavaScript *)
(* ===================================================================== *)

(** [v.key] for a parsed JSON value [v] other than null and a key that is
    not one of the built-in properties of strings and arrays: the member of
    an object (the keys of a parsed object are distinct), [undefined] for
    everything else. *)
Definition property (key : string) (v : json) : option json :=
  match v with
  | JObj members => snd <$> List.find (fun member => String.eqb (fst member) key) members
  | _ => None
  end.

(** [`${v.key}`] for a value that may be [undefined]: reading a property of
    [undefined] or of null is a TypeError, and so is converting a property
    that cannot be converted. *)
Definition read_property (v : option json) (key : string) : M string :=
  match v with
  | None => throw ("Cannot read properties of undefined (reading '" +:+ key +:+ "')")
  | Some JNull => throw ("Cannot read properties of null (reading '" +:+ key +:+ "')")
  | Some value => interpolate (property key value)
  end.

(** [Math.ceil(x)] of a finite number. *)
Definition Math_ceil (x : float) : Z := - Math_floor (PrimFloat.opp x).

(* ===================================================================== *)
(** * Message templates: [personalizeMessage] of [consumers/campaign.consumer.js] *)
(* ===================================================================== *)

(** Strings are sequences of bytes here and of UTF-16 units in JavaScript.
    The patterns searched for below are ASCII, and an ASCII byte never
    occurs inside the encoding of another character, so the matches and the
    texts around them are the same in both readings. *)
Module CampaignMessages.

(** [s.startsWith(prefix)]: what a literal pattern matches at a position. *)
Fixpoint starts_with (prefix s : string) : bool :=
  match prefix, s with
  | EmptyString, _ => true
  | String a prefix', String b s' => Ascii.eqb a b && starts_with prefix' s'
  | String _ _, EmptyString => false
  end.

(** [s.slice(n)]. *)
Fixpoint slice_from (n : nat) (s : string) : string :=
  match n, s with
  | O, _ => s
  | S n', String _ s' => slice_from n' s'
  | S _, EmptyString => EmptyString
  end.

(** The text [String.prototype.replace] puts in place of one match
    ([GetSubstitution] of the language definition) when the pattern has no
    capture group: [$$] stands for a dollar sign, [$&] for the match, [$`]
    for the text before it and [$'] for the text after it; every other
    character, a dollar sign included, stands for itself. *)
Fixpoint GetSubstitution (matched before after replacement : string) : string :=
  match replacement with
  | EmptyString => EmptyString
  | String c rest =>
      if Ascii.eqb c "$" then
        match rest with
        | String d rest' =>
            if Ascii.eqb d "$" then String "$" (GetSubstitution matched before after rest')
            else if Ascii.eqb d "&" then matched +:+ GetSubstitution matched before after rest'
            else if Ascii.eqb d "`" then before +:+ GetSubstitution matched before after rest'
            else if Ascii.eqb d "'" then after +:+ GetSubstitution matched before after rest'
            else String c (GetSubstitution matched before after rest)
        | EmptyString => String c EmptyString
        end
      else String c (GetSubstitution matched before after rest)
  end.

(** [s.replace(/pattern/g, replacement)] for a literal, non-empty pattern,
    from the position that has [before] to its left and [rest] to its
    right; the next [skip] characters belong to a match already replaced. *)
Fixpoint replace_scan (pattern replacement : string) (skip : nat) (before rest : string)
  : string :=
  match rest with
  | EmptyString => EmptyString
  | String c rest' =>
      match skip with
      | S skip' => replace_scan pattern replacement skip' (before +:+ String c "") rest'
      | O =>
          if starts_with pattern rest
          then GetSubstitution pattern before (slice_from (String.length pattern) rest) replacement +:+
               replace_scan pattern replacement (String.length pattern - 1)
                 (before +:+ String c "") rest'
          else String c (replace_scan pattern replacement 0 (before +:+ String c "") rest')
      end
  end.

Definition replace_all (pattern replacement s : string) : string :=
  replace_scan pattern replacement 0 "" s.

(** [value || fallback] for a string that may be missing. *)
Definition or_else (value : option string) (fallback : string) : string :=
  match value with
  | None | Some EmptyString => fallback
  | Some s => s
  end.

(** [s.split(' ')[0]]. *)
Fixpoint before_space (s : string) : string :=
  match s with
  | EmptyString => EmptyString
  | String c s' => if Ascii.eqb c " " then EmptyString else String c (before_space s')
  end.

Definition personalizeMessage (template : string) (customer : CampaignConsumer.Customer)
  : string :=
  replace_all "{firstName}"
    (or_else (before_space <$> CampaignConsumer.name customer) "Valued Customer")
    (replace_all "{email}" (CampaignConsumer.email customer)
       (replace_all "{name}" (or_else (CampaignConsumer.name customer) "Valued Customer")
          template)).

End CampaignMessages.

(* ===================================================================== *)
(** * The webhook call of the vendor simulator: [controllers/vendor.controller.js] *)
(* ===================================================================== *)

Module VendorWebhook.

(** The double quote. *)
Definition quote : ascii := "034".

(** One hexadecimal digit, lower case. *)
Definition hex_digit (n : nat) : ascii :=
  default "0"%char (String.get n "0123456789abcdef").

(** How [JSON.stringify] writes one character inside a string: the quote,
    the backslash and the control characters are escaped. *)
Definition escaped (c : ascii) : string :=
  let n := nat_of_ascii c in
  if Ascii.eqb c quote then String "\" (String quote "")
  else if Ascii.eqb c "\" then "\\"
  else if (n =? 8)%nat then "\b"
  else if (n =? 9)%nat then "\t"
  else if (n =? 10)%nat then "\n"
  else if (n =? 12)%nat then "\f"
  else if (n =? 13)%nat then "\r"
  else if (n <? 32)%nat then "\u00" +:+ String (hex_digit (n / 16)) (String (hex_digit (n mod 16)) "")
  else String c "".

(** [JSON.stringify(s)] for a string. *)
Fixpoint quoted_from (s : string) : string :=
  match s with
  | EmptyString => String quote ""
  | String c s' => escaped c +:+ quoted_from s'
  end.

Definition quoted (s : string) : string := String quote (quoted_from s).

(** [JSON.stringify(v)].  A number that is not finite (a literal too large
    for binary64) is written as null. *)
Fixpoint JSON_stringify (v : json) : string :=
  match v with
  | JNull => "null"
  | JBool true => "true"
  | JBool false => "false"
  | JNum n => if 2 ^ 1024 <=? to_binary64 (Z.abs n) then "null" else Number_toString n
  | JStr s => quoted s
  | JArr items =>
      "[" +:+
      separated ","
        ((fix each (l : list json) : list string :=
            match l with
            | [] => []
            | x :: l' => JSON_stringify x :: each l'
            end) items) +:+ "]"
  | JObj members =>
      "{" +:+
      separated ","
        ((fix each (l : list (string * json)) : list string :=
            match l with
            | [] => []
            | (key, x) :: l' => (quoted key +:+ ":" +:+ JSON_stringify x) :: each l'
            end) members) +:+ "}"
  end.

(** The 64 digits of base64. *)
Definition base64_digit (n : nat) : ascii :=
  default "="%char
    (String.get n "ABCDEFGHIJKLMNOPQRSTUVWXYZabcdefghijklmnopqrstuvwxyz0123456789+/").

(** [Buffer.from(s).toString('base64')]: three bytes make four digits, and
    the last group is padded. *)
Fixpoint base64 (bytes : string) : string :=
  match bytes with
  | EmptyString => EmptyString
  | String a EmptyString =>
      let x := nat_of_ascii a in
      String (base64_digit (x / 4)) (String (base64_digit (x mod 4 * 16)) "==")
  | String a (String b EmptyString) =>
      let x := nat_of_ascii a in
      let y := nat_of_ascii b in
      String (base64_digit (x / 4))
        (String (base64_digit (x mod 4 * 16 + y / 16))
           (String (base64_digit (y mod 16 * 4)) "="))
  | String a (String b (String c rest)) =>
      let x := nat_of_ascii a in
      let y := nat_of_ascii b in
      let z := nat_of_ascii c in
      String (base64_digit (x / 4))
        (String (base64_digit (x mod 4 * 16 + y / 16))
           (String (base64_digit (y mod 16 * 4 + z / 64))
              (String (base64_digit (z mod 64)) (base64 rest))))
  end.

(** A member of an object literal whose value may be [undefined]:
    [JSON.stringify] leaves such a member out. *)
Definition member (key : string) (value : option json) : list (string * json) :=
  match value with
  | Some v => [(key, v)]
  | None => []
  end.

(** The body [callDeliveryReceiptAPI] posts, member by member in the order
    of the object literal.  A vendor id or a failure reason that is not
    there is [null]; a value of the email that is not there is left out. *)
Definition receiptData (r : Receipt) : json :=
  JObj ([("vendorMessageId", from_option JStr JNull (r_vendorMessageId r))] ++
        member "messageId" (r_messageId r) ++
        [("status", JStr (r_status r));
         ("deliveredAt", JStr (toISOString (r_deliveredAt r)));
         ("failureReason", from_option JStr JNull (r_failureReason r))] ++
        member "recipient" (r_recipient r) ++
        member "campaignId" (r_campaignId r) ++
        member "customerId" (r_customerId r)).

(** [`sha256=${Buffer.from(payload).toString('base64').substr(0, 20)}`]. *)
Definition generateWebhookSignature (data : json) : string :=
  let payload := JSON_stringify data in
  "sha256=" +:+ String.substring 0 20 (base64 payload).

End VendorWebhook.

(* ===================================================================== *)
(** * The vendor's HTTP endpoints: [controllers/vendor.controller.js] *)
(* ===================================================================== *)

Module VendorEndpoints.

(** [res.status(code).json({ success, message, data, error })]. *)
Record Reply (A : Type) := {
  code : nat;
  success : bool;
  message : string;
  data : option A;
  error : option string
}.
Arguments code {A} _.
Arguments success {A} _.
Arguments message {A} _.
Arguments data {A} _.
Arguments error {A} _.

Definition required : list string :=
  ["messageId"; "to"; "subject"; "htmlContent"; "campaignId"; "customerId"].

(** [required.filter(field => !emailData[field])]. *)
Definition missing (emailData : Job) : list string :=
  List.filter (fun field => negb (truthy (emailData !! field))) required.

(** [sendEmailViaVendor(req, res)] with [req.body = emailData], an object. *)
Definition sendEmailViaVendor (emailData : Job) : M (Reply VendorAPIService.SendResult) :=
  try_catch
    (if (0 <? length (missing emailData))%nat then
       ret {| code := 400; success := false;
              message := "Missing required fields: " +:+ separated ", " (missing emailData);
              data := None; error := None |}
     else
       let* result := VendorAPIService.sendEmail emailData in
       ret {| code := 200; success := true;
              message := "Email submitted to vendor API";
              data := Some result; error := None |})
    (fun error =>
       do* console_log ("Vendor API Controller Error: " +:+ error) in
       ret {| code := 500; success := false;
              message := "Vendor API error";
              data := None; error := Some error |}).

End VendorEndpoints.

(* ===================================================================== *)
(** * Segment rules: [buildSegmentQuery] of [controllers/segment.controller.js] *)
(* ===================================================================== *)

Module Segments.

(** What a rule puts on a field of the MongoDB query; an operand the rule
    does not give is [undefined]. *)
Inductive Condition :=
| Greater (value : option json)      (* { $gt: value } *)
| Less (value : option json)         (* { $lt: value } *)
| AtLeast (value : option json)      (* { $gte: value } *)
| AtMost (value : option json)       (* { $lte: value } *)
| Equals (value : option json)       (* value *)
| NotEqual (value : option json)     (* { $ne: value } *)
| Matches (value : option json)      (* { $regex: value, $options: "i" } *)
| NotMatches (value : option json)   (* { $not: { $regex: value, $options: "i" } } *)
| HasField (present : bool).         (* { $exists: present } *)

(** The own properties of the query object. *)
Abbreviation Query := (gmap string Condition).

(** The [switch (operator)]: the condition of a known operator. *)
Definition condition_of (operator value : option json) : option Condition :=
  match operator with
  | Some (JStr op) =>
      if String.eqb op ">" then Some (Greater value)
      else if String.eqb op "<" then Some (Less value)
      else if String.eqb op ">=" then Some (AtLeast value)
      else if String.eqb op "<=" then Some (AtMost value)
      else if String.eqb op "==" then Some (Equals value)
      else if String.eqb op "!=" then Some (NotEqual value)
      else if String.eqb op "contains" then Some (Matches value)
      else if String.eqb op "not_contains" then Some (NotMatches value)
      else if String.eqb op "exists" then Some (HasField true)
      else if String.eqb op "not_exists" then Some (HasField false)
      else None
  | _ => None
  end.

(** [query[field] = condition].  The key is the field converted to a
    string, which throws for a field that cannot be converted; assigning to
    [__proto__] sets the prototype of the object and adds no property. *)
Definition assign (field : option json) (condition : Condition) (query : Query)
  : result Query :=
  match converted field with
  | Ok key => Ok (if String.eqb key "__proto__" then query else <[key := condition]> query)
  | Throw e => Throw e
  end.

Section Rules.

(** [JSON.parse]: the value, or the message of its SyntaxError. *)
Variable JSON_parse : string -> result json.

(** The callback of [rules.forEach], on the [query] built so far. *)
Definition each_rule (rule : string) (query : Query) : M Query :=
  try_catch
    (match JSON_parse rule with
     | Throw message => throw message
     | Ok JNull => throw "Cannot destructure property 'field' of 'parsedRule' as it is null."
     | Ok parsedRule =>
         let field := property "field" parsedRule in
         let operator := property "operator" parsedRule in
         let value := property "value" parsedRule in
         match condition_of operator value with
         | Some condition => lift (assign field condition query)
         | None => ret query
         end
     end)
    (fun error =>
       do* console_log ("Error parsing rule: " +:+ error) in
       ret query).

Fixpoint forEach (rules : list string) (query : Query) : M Query :=
  match rules with
  | [] => ret query
  | rule :: later =>
      let* query' := each_rule rule query in
      forEach later query'
  end.

Definition buildSegmentQuery (rules : list string) : M Query :=
  forEach rules ∅.

(** [const query = buildSegmentQuery(segment.rules); query.is_active = true],
    as [calculateSegmentStats] and [createCampaign] prepare their queries. *)
Definition active_customers_query (rules : list string) : M Query :=
  let* query := buildSegmentQuery rules in
  ret (<["is_active" := Equals (Some (JBool true))]> query).

End Rules.

End Segments.

(* ===================================================================== *)
(** * Launching a campaign: [createCampaign] of [controllers/segment.controller.js] *)
(* ===================================================================== *)

Module CampaignEndpoint.

(** [req.user], with [_id] as its string. *)
Record User := {
  user_id : string;
  user_name : string;
  user_email : string
}.

(** The fields of [req.body] the handler destructures; one that is not sent
    is [undefined]. *)
Record Body := {
  name : option string;
  subject : option string;
  message : option string;
  fromName : option string;
  fromEmail : option string
}.

(** What the handler reads of the segment it finds. *)
Record Segment := {
  segment_name : string;
  rules : list string
}.

(** The document handed to [Campaign.create]; its [status] is 'pending'. *)
Record NewCampaign := {
  new_name : string;
  new_segment_id : string;
  new_created_by : string;
  new_message_content : CampaignConsumer.MessageContent;
  new_audience_size : nat
}.

(** What the handler reads of the document [Campaign.create] resolves to. *)
Record CampaignDoc := {
  _id : string;
  doc_name : string;
  message_content : CampaignConsumer.MessageContent;
  audience_size : nat;
  status : string;
  createdAt : Z
}.

(** [data] of the 202 response. *)
Record Accepted := {
  campaign_id : string;
  campaign_name : string;
  audienceSize : nat;
  campaign_status : string;
  campaign_createdAt : Z;
  processing : string;
  estimatedDelivery : string
}.

Section Endpoint.

Variable JSON_parse : string -> result json.
(** [Segment.findOne({ _id, created_by, is_active: true })]. *)
Variable Segment_findOne : string -> string -> M (option Segment).
(** [Customer.find(query).select('_id name email')]. *)
Variable Customer_find : Segments.Query -> M (list CampaignConsumer.Customer).
Variable Campaign_create : NewCampaign -> M CampaignDoc.

(** The job handed to [addJob]. *)
Definition job_of (segmentId : string) (user : User)
    (customers : list CampaignConsumer.Customer) (campaign : CampaignDoc) : Job :=
  SegmentController.delivery_job segmentId
    {| CampaignConsumer.campaignId := _id campaign;
       CampaignConsumer.customers := customers;
       CampaignConsumer.messageContent := message_content campaign;
       CampaignConsumer.userId := user_id user;
       CampaignConsumer.userEmail := user_email user |}.

Definition createCampaign (segmentId : string) (user : User) (body : Body)
  : M (VendorEndpoints.Reply Accepted) :=
  try_catch
    (if negb (nonempty (name body)) || negb (nonempty (subject body)) ||
        negb (nonempty (message body)) then
       ret {| VendorEndpoints.code := 400; VendorEndpoints.success := false;
              VendorEndpoints.message := "Campaign name, subject, and message are required";
              VendorEndpoints.data := None; VendorEndpoints.error := None |}
     else
       let* segment := Segment_findOne segmentId (user_id user) in
       match segment with
       | None =>
           ret {| VendorEndpoints.code := 404; VendorEndpoints.success := false;
                  VendorEndpoints.message := "Segment not found";
                  VendorEndpoints.data := None; VendorEndpoints.error := None |}
       | Some segment =>
           let* query := Segments.active_customers_query JSON_parse (rules segment) in
           let* customers := Customer_find query in
           if (length customers =? 0)%nat then
             ret {| VendorEndpoints.code := 400; VendorEndpoints.success := false;
                    VendorEndpoints.message := "No customers found in this segment";
                    VendorEndpoints.data := None; VendorEndpoints.error := None |}
           else
             let* campaign :=
               Campaign_create
                 {| new_name := default "" (name body);
                    new_segment_id := segmentId;
                    new_created_by := user_id user;
                    new_message_content :=
                      {| CampaignConsumer.subject := default "" (subject body);
                         CampaignConsumer.message := default "" (message body);
                         CampaignConsumer.from_name :=
                           CampaignMessages.or_else (fromName body) (user_name user);
                         CampaignConsumer.from_email :=
                           CampaignMessages.or_else (fromEmail body) (user_email user) |};
                    new_audience_size := length customers |} in
             do* console_log ("Campaign " +:+ String "034" "" +:+ default "" (name body) +:+
                              String "034" "" +:+ " created for segment " +:+
                              String "034" "" +:+ segment_name segment +:+
                              String "034" "" +:+ " with " +:+
                              pretty (length customers) +:+ " recipients") in
             do* RedisService.addToQueue "campaign.jobs" (job_of segmentId user customers campaign) in
             do* console_log ("Campaign delivery job queued: " +:+ _id campaign) in
             ret {| VendorEndpoints.code := 202; VendorEndpoints.success := true;
                    VendorEndpoints.message := "Campaign created and queued for delivery";
                    VendorEndpoints.data :=
                      Some {| campaign_id := _id campaign;
                              campaign_name := doc_name campaign;
                              audienceSize := audience_size campaign;
                              campaign_status := status campaign;
                              campaign_createdAt := createdAt campaign;
                              processing := "Campaign is being processed asynchronously";
                              estimatedDelivery :=
                                pretty (Math_ceil (PrimFloat.div (Number_of (length customers))
                                                                 (Number_of 10))) +:+
                                " minutes" |};
                    VendorEndpoints.error := None |}
       end)
    (fun error =>
       do* console_log ("Campaign Creation Error: " +:+ error) in
       ret {| VendorEndpoints.code := 500; VendorEndpoints.success := false;
              VendorEndpoints.message := "Failed to create campaign";
              VendorEndpoints.data := None; VendorEndpoints.error := Some error |}).

End Endpoint.

End CampaignEndpoint.

(* ===================================================================== *)
(** * Customer jobs and events: [consumers/customer.consumer.js] *)
(* ===================================================================== *)

Module CustomerImport.

(** [job.data] of a BULK_IMPORT_CUSTOMERS job, as the handler destructures
    it.  The job is not validated on its way to the handler: [customers] is
    the array, or nothing when the data has no such member. *)
Record ImportData := {
  customers : option (list Job);
  userId : string;
  userEmail : string
}.

Record ImportError := {
  batch : nat;
  error : string
}.

Record ImportResults := {
  imported : nat;
  failed : nat;
  errors : list ImportError
}.

Definition batchSize : nat := 100.

(** [!user || user.email !== userEmail], negated. *)
Definition verified (user : option Job) (userEmail : string) : bool :=
  match user with
  | Some fields =>
      match fields !! "email" with
      | Some (JStr email) => String.eqb email userEmail
      | _ => false
      end
  | None => false
  end.

(** [{ ...customer, created_by: userId, created_by_email: userEmail }]. *)
Definition with_user (userId userEmail : string) (customer : Job) : Job :=
  <["created_by_email" := JStr userEmail]> (<["created_by" := JStr userId]> customer).

(** The [results] object as the completion event carries it. *)
Definition results_json (results : ImportResults) : json :=
  JObj [("imported", JNum (Z.of_nat (imported results)));
        ("failed", JNum (Z.of_nat (failed results)));
        ("errors",
         JArr (map (fun e => JObj [("batch", JNum (Z.of_nat (batch e)));
                                   ("error", JStr (error e))])
                   (errors results)))].

Section Handler.

(** The models and the publisher the handler calls. *)
Variable User_findById : string -> M (option Job).
Variable Customer_insertMany : list Job -> M unit.
Variable publish : string -> Job -> M unit.

(** The [for] loop, with [i] and [results] as they stand.  The index is a
    multiple of the batch size, so [Math.floor(i / batchSize)] is the
    quotient.  The loop ends within one turn per customer (the counting
    lemma of the import below); [fuel] is that bound. *)
Fixpoint import_from (fuel : nat) (data : ImportData) (customers : list Job) (i : nat)
    (results : ImportResults) : M ImportResults :=
  if (i <? length customers)%nat then
    match fuel with
    | O => ret results
    | S fuel' =>
        let batch := CampaignConsumer.slice i (i + batchSize) customers in
        let number := (i / batchSize + 1)%nat in
        let* results' :=
          try_catch
            (let customersWithUser := map (with_user (userId data) (userEmail data)) batch in
             do* Customer_insertMany customersWithUser in
             do* console_log ("Imported batch " +:+ pretty number +:+ ": " +:+
                              pretty (length batch) +:+ " customers") in
             ret {| imported := imported results + length batch;
                    failed := failed results;
                    errors := errors results |})
            (fun error =>
               do* console_log ("Failed to import batch " +:+ pretty number +:+ ": " +:+ error) in
               ret {| imported := imported results;
                      failed := failed results + length batch;
                      errors := errors results ++ [ {| batch := number; error := error |} ] |}) in
        import_from fuel' data customers (i + batchSize) results'
    end
  else ret results.

Definition bulkImportCustomers (data : ImportData) : M ImportResults :=
  try_catch
    (let* user := User_findById (userId data) in
     if verified user (userEmail data) then
       match customers data with
       | None => throw "Cannot read properties of undefined (reading 'length')"
       | Some customers =>
           let* results :=
             import_from (length customers) data customers 0
               {| imported := 0; failed := 0; errors := [] |} in
           do* publish "customer.events"
                 (<["data" := JObj [("userId", JStr (userId data));
                                    ("results", results_json results)]]>
                    ({[ "type" := JStr "customer.bulk.import.completed" ]})) in
           do* console_log ("Bulk import completed: " +:+ pretty (imported results) +:+
                            " imported, " +:+ pretty (failed results) +:+ " failed") in
           ret results
       end
     else throw "User verification failed")
    (fun error =>
       do* publish "customer.events"
             (<["data" := JObj [("error", JStr error); ("userId", JStr (userId data))]]>
                ({[ "type" := JStr "customer.bulk.import.failed" ]})) in
       throw error).

End Handler.

End CustomerImport.

(** Real-time events of the customer channel. *)
Module CustomerEvents.

Definition handleValidationSuccess (data : option json) : M unit :=
  let* email := read_property data "email" in
  console_log ("Customer validation successful: " +:+ email).

Definition handleValidationFailed (data : option json) : M unit :=
  let* error := read_property data "error" in
  console_log ("Customer validation failed: " +:+ error).

Definition handleActivityUpdate (data : option json) : M unit :=
  let* customerId := read_property data "customerId" in
  console_log ("Customer activity updated: " +:+ customerId).

(** [handleCustomerEvent(event)] for an event that is an object, which is
    what the publisher sends.  The console line in front of the [try] block
    converts [event.type], which throws for a type that cannot be
    converted. *)
Definition handleCustomerEvent (event : Job) : M unit :=
  let type := event !! "type" in
  let* shown := interpolate type in
  do* console_log ("Received customer event: " +:+ shown) in
  try_catch
    (if is_type type "customer.validation.success" then handleValidationSuccess (event !! "data")
     else if is_type type "customer.validation.failed" then handleValidationFailed (event !! "data")
     else if is_type type "customer.activity.updated" then handleActivityUpdate (event !! "data")
     else
       let* unknown := interpolate type in
       console_log ("Unknown customer event type: " +:+ unknown))
    (fun error =>
       let* failed := interpolate type in
       console_log ("Error handling customer event " +:+ failed +:+ ": " +:+ error)).

End CustomerEvents.

(* ===================================================================== *)
(** * Reasoning about computations *)
(* ===================================================================== *)

(** [wp m Q w]: run from [w], the computation [m] ends with a result and a
    world that satisfy [Q]. *)
Definition wp {A} (m : M A) (Q : result A -> World -> Prop) (w : World) : Prop :=
  Q (m w).1 (m w).2.

(** The second world differs from the first in the clock, the random source
    and the console at most. *)
Definition ambient_only (w w' : World) : Prop :=
  redis w' = redis w /\ mongo w' = mongo w /\ vendor w' = vendor w.

(** A computation that always returns and acts on the ambient part only. *)
Definition quiet {A} (m : M A) : Prop :=
  forall w, wp m (fun r w1 => (exists a, r = Ok a) /\ ambient_only w w1) w.

(** The second world has the same campaigns, written at the same moments,
    and the same Redis as the first. *)
Definition campaigns_kept (w w' : World) : Prop :=
  campaigns (mongo w') = campaigns (mongo w) /\
  campaign_writes (mongo w') = campaign_writes (mongo w) /\
  redis w' = redis w.

(** The entry [Campaign.findByIdAndUpdate(id, update)] adds to the history of
    writes: one when the campaign is there, none otherwise. *)
Definition written (id : string) (update : Campaign -> Campaign)
    (stored : gmap string Campaign) : list (string * Campaign) :=
  match stored !! id with
  | Some doc => [(id, update doc)]
  | None => []
  end.

(** What one send leaves behind, apart from the ambient part: the
    statistics updated with the decision, and [callbacks] more timers. *)
Definition sent_one (w w' : World) (isSuccess : bool) (callbacks : nat) : Prop :=
  redis w' = redis w /\ mongo w' = mongo w /\
  deliveryStats (vendor w') = VendorAPIService.updateStats isSuccess (deliveryStats (vendor w)) /\
  bulk_faults (vendor w') = bulk_faults (vendor w) /\
  length (timers (vendor w')) = (length (timers (vendor w)) + callbacks)%nat.

(** The values [this.deliveryStats] takes over the life of the vendor
    singleton: the constructor's, then whatever [updateStats] and
    [resetStats] make of it. *)
Inductive reachable : DeliveryStats -> Prop :=
| reachable_new : reachable VendorAPIService.zeroStats
| reachable_update isSuccess s :
    reachable s -> reachable (VendorAPIService.updateStats isSuccess s)
| reachable_reset s :
    reachable s -> reachable (VendorAPIService.resetStats s).

(** ** Properties of the broker *)

(** Redis answers the next [n] commands. *)
Definition answers (n : nat) (tape : Faults) : Prop :=
  Forall (fun fault => fault = None) (take n tape).

(** [n] successive BRPOPs on [key], with what each returned. *)
Fixpoint drain (key : string) (n : nat) : M (list (option Job)) :=
  match n with
  | O => ret []
  | S n' =>
      let* popped := RedisService.brPop key 10 in
      let* later := drain key n' in
      ret (popped :: later)
  end.

(** The [switch] of [processCustomerJob] as a table from job type to
    handler. *)
Definition customer_handlers {H} (createCustomer updateCustomer deleteCustomer
    bulkImportCustomers updateCustomerStats : H) : list (string * H) :=
  [("CREATE_CUSTOMER", createCustomer);
   ("UPDATE_CUSTOMER", updateCustomer);
   ("DELETE_CUSTOMER", deleteCustomer);
   ("BULK_IMPORT_CUSTOMERS", bulkImportCustomers);
   ("UPDATE_CUSTOMER_STATS", updateCustomerStats)].

(** The handler of the first entry whose label is the job's [type]. *)
Definition handler_for {H} (table : list (string * H)) (type : option json) : option H :=
  snd <$> List.find (fun entry => is_type type (fst entry)) table.

(** ** Properties of the vendor and of the engine *)

(** The vendor's three counters moved by [sent] accepted and [failed]
    rejected emails. *)
Definition stats_moved (before after : DeliveryStats) (sent failed : nat) : Prop :=
  totalSent after = (totalSent before + sent + failed)%nat /\
  successful after = (successful before + sent)%nat /\
  stat_failed after = (stat_failed before + failed)%nat.

(** An email whose recipient the vendor can print. *)
Definition addressable (email : json) : bool := printable (fields email !! "to").

(** An element of a batch that is null. *)
Definition is_null (v : json) : bool :=
  match v with
  | JNull => true
  | _ => false
  end.

(** Whom a communication log is about: the customer, the campaign and the
    mailbox. *)
Definition addressee (log : CommunicationLog) : string * string * string :=
  (customer_id log, campaign_id log, recipient_email log).

(** The same for a recipient of a campaign. *)
Definition addressed (campaignId : string) (customer : CampaignConsumer.Customer)
  : string * string * string :=
  (CampaignConsumer.id customer, campaignId, CampaignConsumer.email customer).

(** ** Properties of segment rules *)

(** The field a rule constrains and the condition it puts there; nothing
    for a rule that does not parse to an object, has no known operator,
    names a field that cannot be converted to a key, or names
    [__proto__]. *)
Definition rule_target (JSON_parse : string -> result json) (rule : string)
  : option (string * Segments.Condition) :=
  match JSON_parse rule with
  | Ok (JObj members) =>
      let parsedRule := JObj members in
      match Segments.condition_of (property "operator" parsedRule) (property "value" parsedRule) with
      | Some condition =>
          match converted (property "field" parsedRule) with
          | Ok key => if String.eqb key "__proto__" then None else Some (key, condition)
          | Throw _ => None
          end
      | None => None
      end
  | _ => None
  end.

(** A rule that makes the callback throw: it does not parse, parses to
    null, or has a known operator and a field that cannot be converted to a
    key. *)
Definition rule_rejected (JSON_parse : string -> result json) (rule : string) : bool :=
  match JSON_parse rule with
  | Throw _ | Ok JNull => true
  | Ok parsedRule =>
      match Segments.condition_of (property "operator" parsedRule) (property "value" parsedRule) with
      | Some _ => negb (printable (property "field" parsedRule))
      | None => false
      end
  end.

(** ** Properties of templates *)

(** The three placeholders, and a template as its author sees it: texts and
    placeholders in a row. *)
Inductive Placeholder := NameField | EmailField | FirstNameField.

Inductive Piece :=
| Text (s : string)
| Field (f : Placeholder).

Definition marker (f : Placeholder) : string :=
  match f with
  | NameField => "{name}"
  | EmailField => "{email}"
  | FirstNameField => "{firstName}"
  end.

(** The template text that stands for a row of pieces. *)
Fixpoint written_as (pieces : list Piece) : string :=
  match pieces with
  | [] => ""
  | Text s :: rest => s +:+ written_as rest
  | Field f :: rest => marker f +:+ written_as rest
  end.

(** What a placeholder stands for, for one customer. *)
Definition value_of (customer : CampaignConsumer.Customer) (f : Placeholder) : string :=
  match f with
  | NameField => CampaignMessages.or_else (CampaignConsumer.name customer) "Valued Customer"
  | EmailField => CampaignConsumer.email customer
  | FirstNameField =>
      CampaignMessages.or_else (CampaignMessages.before_space <$> CampaignConsumer.name customer)
        "Valued Customer"
  end.

(** The text with every placeholder filled in at once. *)
Fixpoint filled (customer : CampaignConsumer.Customer) (pieces : list Piece) : string :=
  match pieces with
  | [] => ""
  | Text s :: rest => s +:+ filled customer rest
  | Field f :: rest => value_of customer f +:+ filled customer rest
  end.

(** No character of [s] is [c]. *)
Fixpoint without (c : ascii) (s : string) : bool :=
  match s with
  | EmptyString => true
  | String a s' => negb (Ascii.eqb a c) && without c s'
  end.

(** Every text of the row is free of opening braces: the only ones in the
    template are those of its placeholders. *)
Definition well_formed (pieces : list Piece) : Prop :=
  Forall (fun piece => match piece with Text s => without "{" s = true | Field _ => True end) pieces.

#[global] Instance Placeholder_eq_dec : EqDecision Placeholder.
Proof. solve_decision. Defined.

(** One pass over a well-formed template: every occurrence of the
    placeholder becomes a text piece, everything else stays. *)
Fixpoint substituted (f : Placeholder) (replacement : string) (pieces : list Piece)
  : list Piece :=
  match pieces with
  | [] => []
  | Field g :: rest =>
      (if decide (g = f) then Text replacement else Field g) :: substituted f replacement rest
  | Text s :: rest => Text s :: substituted f replacement rest
  end.

(* ===================================================================== *)
(** * Scenarios *)
(* ===================================================================== *)

(** Concrete worlds and jobs on which the properties below are exercised. *)
Module Scenario.

(** A server that has just started: nothing stored, no fault ahead. *)
Definition fresh : World :=
  {| redis := {| queues := ∅; redis_faults := [] |};
     mongo := {| campaigns := ∅; campaign_writes := []; communicationLogs := [];
                 mongo_faults := [] |};
     vendor := {| deliveryStats := VendorAPIService.zeroStats; bulk_faults := []; timers := [] |};
     ambient := {| clock := []; random := []; console := [] |} |}.

(** A job of a type no consumer knows. *)
Definition archive_job : Job := {[ "type" := JStr "ARCHIVE_CUSTOMER" ]}.

(** Handlers that do nothing, for the five known customer job types. *)
Definition idle (data : option json) : M unit := ret tt.

Definition customer_handler : Job -> M unit :=
  CustomerConsumer.processCustomerJob idle idle idle idle idle.

(** The job above as the broker stored it at 2023-11-14T22:13:20Z. *)
Definition queued_job : Job :=
  RedisService.jobData archive_job "1700000000000-i" 1700000000000.

(** [Math.random()] returning one half, "0.i" in base 36. *)
Definition one_half : Draw := {| value := 0x1p-1%float; radix36 := "0.i" |}.

(** [Math.random()] returning 0.95. *)
Definition high : Draw := {| value := 0x1.e666666666666p-1%float; radix36 := "0.y77777777778" |}.

(** The job waits in the customer queue, a quarter of a second later. *)
Definition queued : World :=
  {| redis := {| queues := {[ "customer.jobs" := [queued_job] ]}; redis_faults := [] |};
     mongo := mongo fresh;
     vendor := vendor fresh;
     ambient := {| clock := [1700000000250; 1700000000251; 1700000000251];
                   random := [high];
                   console := [] |} |}.

(** Redis accepts two commands and then has no memory left for a write. *)
Definition redis_full : World :=
  {| redis := {| queues := ∅;
                 redis_faults :=
                   [None; None; Some "OOM command not allowed when used memory > 'maxmemory'."] |};
     mongo := mongo fresh;
     vendor := vendor fresh;
     ambient := {| clock := [1700000000000; 1700000000000; 1700000000250];
                   random := [one_half];
                   console := [] |} |}.

(** Everything happens within one millisecond, and [Math.random()] returns
    the same number twice. *)
Definition same_instant : World :=
  with_ambient (fun a => {| clock := replicate 5 1700000000000;
                            random := [one_half; one_half];
                            console := console a |}) fresh.

(** The body of a receipt for a message nobody sent, with no [status]. *)
Definition receipt_without_status : Job :=
  fields (JObj [("vendorMessageId", JStr "vendor_1700000000000_k2j4h6g8");
                ("messageId", JStr "msg_1700000000000_unknown00");
                ("deliveredAt", JStr "2023-11-14T22:13:20.000Z");
                ("failureReason", JNull);
                ("recipient", JStr "ann@example.com");
                ("campaignId", JStr "c1");
                ("customerId", JStr "u1")]).

(** The same receipt with its status. *)
Definition receipt_sent : Job :=
  <["status" := JStr "SENT"]> receipt_without_status.

(** The same receipt with status SENT and no [deliveredAt]. *)
Definition receipt_undated : Job :=
  delete "deliveredAt" receipt_sent.

(** The same receipt with a status that is not a string. *)
Definition receipt_numbered : Job :=
  <["status" := JNum 1]> receipt_without_status.

(** A [Date.parse] that reads the instant of these receipts. *)
Definition parse_date (text : string) : JSDate :=
  if String.eqb text (toISOString 1700000000000) then Instant 1700000000000 else Invalid_Date.

(** A log of a message that was sent and awaits its receipt. *)
Definition pending_log : CommunicationLog :=
  {| customer_id := "u1";
     campaign_id := "c1";
     message_id := "msg_1700000000000_unknown00";
     log_type := "email";
     log_subject := "Hello Ann";
     message_content := "Welcome, Ann";
     recipient_email := "ann@example.com";
     log_status := "pending";
     failure_reason := None;
     delivered_at := None;
     metadata := {[ "batch_processed" := JBool true ]} |}.

(** That log is the only one stored. *)
Definition awaiting_receipt : World :=
  with_mongo (fun db => {| campaigns := campaigns db;
                           campaign_writes := campaign_writes db;
                           communicationLogs := [pending_log];
                           mongo_faults := mongo_faults db |}) fresh.

(** MongoDB rejects every query for a while. *)
Definition mongo_down : World :=
  with_mongo (fun db => {| campaigns := campaigns db;
                           campaign_writes := campaign_writes db;
                           communicationLogs := communicationLogs db;
                           mongo_faults := replicate 4 (Some "connection timed out") |}) fresh.

(** A campaign for three recipients. *)
Definition recipient (n : nat) : CampaignConsumer.Customer :=
  {| CampaignConsumer.id := "u" +:+ pretty n;
     CampaignConsumer.name := Some "Ann Lee";
     CampaignConsumer.email := "ann" +:+ pretty n +:+ "@example.com" |}.

Definition three_recipients : CampaignConsumer.DeliverJob :=
  {| CampaignConsumer.campaignId := "c1";
     CampaignConsumer.customers := map recipient [1; 2; 3]%nat;
     CampaignConsumer.messageContent :=
       {| CampaignConsumer.subject := "Hello {firstName}";
          CampaignConsumer.message := "Welcome, {name}";
          CampaignConsumer.from_name := "InsightCRM";
          CampaignConsumer.from_email := "crm@example.com" |};
     CampaignConsumer.userId := "owner";
     CampaignConsumer.userEmail := "owner@example.com" |}.

(** Templates left as they are: rendering plays no part below. *)
Definition verbatim (template : string) (customer : CampaignConsumer.Customer) : string :=
  template.

Definition no_html (content : CampaignConsumer.MessageContent)
    (customer : CampaignConsumer.Customer) : string := "".

(** The campaign as the API creates it, and as a completed delivery leaves it. *)
Definition created : Campaign :=
  {| c_status := Pending; c_started_at := None; c_completed_at := None;
     c_delivery_stats := None; c_failure_reason := None |}.

Definition delivered : Campaign :=
  {| c_status := Completed;
     c_started_at := Some 1699999990000;
     c_completed_at := Some 1699999999000;
     c_delivery_stats := Some (CampaignConsumer.delivery_stats 3 0 3);
     c_failure_reason := None |}.

(** Reading a job of the campaign API back as the fields the engine
    destructures (a string or an array that is not there reads as empty). *)
Definition member (key : string) (v : json) : option json :=
  match v with
  | JObj members => snd <$> List.find (fun kv => String.eqb (fst kv) key) members
  | _ => None
  end.

Definition text (o : option json) : string :=
  match o with
  | Some (JStr s) => s
  | _ => ""
  end.

Definition customer_of (v : json) : CampaignConsumer.Customer :=
  {| CampaignConsumer.id := text (member "id" v);
     CampaignConsumer.name :=
       match member "name" v with
       | Some (JStr s) => Some s
       | _ => None
       end;
     CampaignConsumer.email := text (member "email" v) |}.

Definition fields_of (job : Job) : CampaignConsumer.DeliverJob :=
  {| CampaignConsumer.campaignId := text (job !! "campaignId");
     CampaignConsumer.customers :=
       match job !! "customers" with
       | Some (JArr items) => map customer_of items
       | _ => []
       end;
     CampaignConsumer.messageContent :=
       let content := default JNull (job !! "messageContent") in
       {| CampaignConsumer.subject := text (member "subject" content);
          CampaignConsumer.message := text (member "message" content);
          CampaignConsumer.from_name := text (member "from_name" content);
          CampaignConsumer.from_email := text (member "from_email" content) |};
     CampaignConsumer.userId := text (job !! "userId");
     CampaignConsumer.userEmail := text (job !! "userEmail") |}.

(** The draws of one delivery to three recipients, in the order they are
    taken: three message ids; then per email the network delay, the
    decision, the vendor id, the failure reason if rejected, the callback
    delay and the stagger.  The vendor accepts the first email and rejects
    the other two. *)
Definition one_of_three : list Draw :=
  [one_half; one_half; one_half;
   one_half; one_half; one_half; one_half; one_half;
   one_half; high; one_half; one_half; one_half; one_half;
   one_half; high; one_half; one_half; one_half].

(** Campaign c1 stored with document [doc], the clock running, and MongoDB
    behaving as [faults] says. *)
Definition with_campaign (doc : Campaign) (faults : Faults) : World :=
  {| redis := redis fresh;
     mongo := {| campaigns := {[ "c1" := doc ]}; campaign_writes := [];
                 communicationLogs := []; mongo_faults := faults |};
     vendor := vendor fresh;
     ambient := {| clock := map (fun n => 1700000000000 + 7 * Z.of_nat n) (seq 0 24);
                   random := one_of_three;
                   console := [] |} |}.

(** The delivery job of campaign c1 as the broker stored it. *)
Definition campaign_job : Job :=
  RedisService.jobData (SegmentController.delivery_job "s1" three_recipients)
    "1699999999990-i" 1699999999990.

(** Campaign c1 has just been created and its job waits in the queue;
    MongoDB will accept the first update and reject the insertion of the
    first batch of logs. *)
Definition campaign_queued : World :=
  with_redis (fun r => {| queues := {[ "campaign.jobs" := [campaign_job] ]};
                          redis_faults := redis_faults r |})
    (with_campaign created [None; Some "E11000 duplicate key error"]).

End Scenario.

(** More concrete inputs: templates, rules, imports and a campaign launch. *)
Module Cases.

(** A template with two placeholders, piece by piece. *)
Definition greeting : list Piece :=
  [Text "Hello "; Field FirstNameField; Text ", we wrote to "; Field EmailField; Text "."].

(** A customer whose name holds a replacement pattern. *)
Definition trader : CampaignConsumer.Customer :=
  {| CampaignConsumer.id := "u7";
     CampaignConsumer.name := Some "US$$ Trader";
     CampaignConsumer.email := "trader@example.com" |}.

(** Nobody is found, whoever asks. *)
Definition no_user (id : string) : M (option Job) := ret None.

(** The account that owns the import. *)
Definition owner (id : string) : M (option Job) :=
  ret (Some {[ "email" := JStr "owner@example.com" ]}).

(** An insertion the database answers or rejects as its fault tape says. *)
Definition insert_batch (batch : list Job) : M unit :=
  Mongoose.command (fun db => (tt, db)).

Definition published (channel : string) (message : Job) : M unit := ret tt.

(** 250 customers to import for the owner. *)
Definition import_250 : CustomerImport.ImportData :=
  {| CustomerImport.customers := Some (replicate 250 ∅);
     CustomerImport.userId := "owner";
     CustomerImport.userEmail := "owner@example.com" |}.

(** MongoDB rejects the second insertion. *)
Definition second_rejected : World :=
  with_mongo (fun db => {| campaigns := campaigns db;
                           campaign_writes := campaign_writes db;
                           communicationLogs := communicationLogs db;
                           mongo_faults := [None; Some "E11000 duplicate key error"] |})
    Scenario.fresh.

(** Two rules on the same field, as the segment stores them, and a parser
    that knows them. *)
Definition over_18 : json :=
  JObj [("field", JStr "age"); ("operator", JStr ">"); ("value", JNum 18)].

Definition under_65 : json :=
  JObj [("field", JStr "age"); ("operator", JStr "<"); ("value", JNum 65)].

Definition parse_known (text : string) : result json :=
  match List.find (fun v => String.eqb (VendorWebhook.JSON_stringify v) text) [over_18; under_65] with
  | Some v => Ok v
  | None => Throw "Unexpected token"
  end.

Definition age_rules : list string :=
  [VendorWebhook.JSON_stringify over_18; "not a rule"; VendorWebhook.JSON_stringify under_65].

(** The collaborators of the campaign endpoint: a segment with those rules,
    three customers in it, and a database that stores the campaign as c1. *)
Definition find_segment (segmentId userId : string) : M (option CampaignEndpoint.Segment) :=
  ret (Some {| CampaignEndpoint.segment_name := "Adults"; CampaignEndpoint.rules := age_rules |}).

Definition find_customers (query : Segments.Query) : M (list CampaignConsumer.Customer) :=
  ret (map Scenario.recipient [1; 2; 3]%nat).

Definition create_c1 (doc : CampaignEndpoint.NewCampaign) : M CampaignEndpoint.CampaignDoc :=
  let* now := Date_now in
  ret {| CampaignEndpoint._id := "c1";
         CampaignEndpoint.doc_name := CampaignEndpoint.new_name doc;
         CampaignEndpoint.message_content := CampaignEndpoint.new_message_content doc;
         CampaignEndpoint.audience_size := CampaignEndpoint.new_audience_size doc;
         CampaignEndpoint.status := "pending";
         CampaignEndpoint.createdAt := now |}.

Definition launch : CampaignEndpoint.Body :=
  {| CampaignEndpoint.name := Some "Spring";
     CampaignEndpoint.subject := Some "Hello {firstName}";
     CampaignEndpoint.message := Some "Welcome, {name}";
     CampaignEndpoint.fromName := None;
     CampaignEndpoint.fromEmail := Some "crm@example.com" |}.

Definition marketer : CampaignEndpoint.User :=
  {| CampaignEndpoint.user_id := "owner";
     CampaignEndpoint.user_name := "InsightCRM";
     CampaignEndpoint.user_email := "owner@example.com" |}.

(** An object JSON can carry and JavaScript cannot convert to text: its
    member hides [Object.prototype.toString] and is no function. *)
Definition unconvertible : json := JObj [("toString", JNum 1)].

(** A job and an event with that object as their type. *)
Definition unconvertible_job : Job := {[ "type" := unconvertible ]}.

(** An email to send with that object as its recipient, and one in order. *)
Definition unconvertible_email : json :=
  JObj [("messageId", JStr "m1"); ("to", unconvertible); ("subject", JStr "Hello");
        ("htmlContent", JStr "<p>Hello</p>"); ("campaignId", JStr "c1");
        ("customerId", JStr "u1")].

Definition plain_email : json :=
  JObj [("messageId", JStr "m2"); ("to", JStr "ann@example.com"); ("subject", JStr "Hello");
        ("htmlContent", JStr "<p>Hello</p>"); ("campaignId", JStr "c1");
        ("customerId", JStr "u2")].

(** A rule on that object, and a parser that reads every rule as it. *)
Definition unconvertible_rule : json :=
  JObj [("field", unconvertible); ("operator", JStr ">"); ("value", JNum 18)].

Definition parse_unconvertible (text : string) : result json := Ok unconvertible_rule.

(** An import for the owner that names no customers. *)
Definition import_nothing : CustomerImport.ImportData :=
  {| CustomerImport.customers := None;
     CustomerImport.userId := "owner";
     CustomerImport.userEmail := "owner@example.com" |}.

End Cases.

(* ===================================================================== *)
(** * Properties *)
(* ===================================================================== *)

(** ** The JavaScript primitives on known values *)

Example toISOString_epoch : toISOString 0 = "1970-01-01T00:00:00.000Z".
Proof. vm_compute. reflexivity. Qed.

Example toISOString_leap_day : toISOString 951782400000 = "2000-02-29T00:00:00.000Z".
Proof. vm_compute. reflexivity. Qed.

Example toISOString_before_epoch : toISOString (-1) = "1969-12-31T23:59:59.999Z".
Proof. vm_compute. reflexivity. Qed.

Example toFixed2_rounds_down : CampaignConsumer.success_rate 1 3 = "33.33".
Proof. vm_compute. reflexivity. Qed.

Example toFixed2_tie_goes_up : toFixed2 0x1.4p-1%float = "0.63".
Proof. vm_compute. reflexivity. Qed.

Example toFixed2_whole : CampaignConsumer.success_rate 25 25 = "100.00".
Proof. vm_compute. reflexivity. Qed.

Example String_of_array :
  String_of (JArr [JNum 1; JNull; JStr "a"; JArr [JNum (-2); JBool true]]) = "1,,a,-2,true".
Proof. vm_compute. reflexivity. Qed.

Example createBatches_25 :
  CampaignConsumer.createBatches (seq 0 25) 10 = Some [seq 0 10; seq 10 10; seq 20 5].
Proof. vm_compute. reflexivity. Qed.

(** With batch size 0 the index never moves: the loop does not end. *)
Example createBatches_0 : forall fuel,
  CampaignConsumer.createBatches_from fuel [1%nat] 0 0 [] = None.
Proof.
  assert (H : forall fuel batches,
            CampaignConsumer.createBatches_from fuel [1%nat] 0 0 batches = None).
  { induction fuel as [|fuel IH]; intros batches; simpl; [reflexivity|apply IH]. }
  intros fuel. apply H.
Qed.

(** ** Queue statistics *)

(** A Redis command either throws the fault at the head of the tape or
    answers from the keyspace; it touches nothing but the Redis part. *)
Lemma redis_command_cases {A} (run : gmap string (list Job) -> A * gmap string (list Job)) (w : World) :
  match (next_fault (redis_faults (redis w))).1 with
  | Some message =>
      (RedisService.command run w).1 = Throw message /\
      queues (redis (RedisService.command run w).2) = queues (redis w)
  | None =>
      (RedisService.command run w).1 = Ok (run (queues (redis w))).1 /\
      queues (redis (RedisService.command run w).2) = (run (queues (redis w))).2
  end /\
  redis_faults (redis (RedisService.command run w).2) = (next_fault (redis_faults (redis w))).2 /\
  mongo (RedisService.command run w).2 = mongo w /\
  vendor (RedisService.command run w).2 = vendor w /\
  ambient (RedisService.command run w).2 = ambient w.
Proof.
  unfold RedisService.command.
  destruct (next_fault (redis_faults (redis w))) as [[message|] rest]; simpl.
  - auto.
  - destruct (run (queues (redis w))) as [a qs]; simpl. auto.
Qed.

(** What [getQueueStats] reports: the two lengths when both reads are
    answered, zeros as soon as one is rejected. *)
Lemma getQueueStats_reads (queueName : string) (w : World) :
  let first := (next_fault (redis_faults (redis w))) in
  let second := next_fault first.2 in
  (RedisService.getQueueStats queueName w).1 =
    Ok (match first.1, second.1 with
        | None, None =>
            {| RedisService.pending := length (RedisService.elements w queueName);
               RedisService.failed := length (RedisService.elements w (queueName +:+ ":failed"));
               RedisService.total :=
                 length (RedisService.elements w queueName) +
                 length (RedisService.elements w (queueName +:+ ":failed")) |}
        | _, _ =>
            {| RedisService.pending := 0; RedisService.failed := 0; RedisService.total := 0 |}
        end).
Proof.
  cbv zeta.
  unfold RedisService.getQueueStats, try_catch, bind, RedisService.lLen, RedisService.command,
    RedisService.elements.
  destruct (next_fault (redis_faults (redis w))) as [[e|] rest]; [reflexivity|].
  cbn [fst snd redis with_redis redis_faults queues].
  destruct (next_fault rest) as [[e|] rest']; reflexivity.
Qed.

(** C5. For every queue name and every state of the substrate, also when a
    read of the substrate fails, [getQueueStats] returns statistics whose
    [total] is [pending + failed]. *)
Theorem getQueueStats_total (queueName : string) (w : World) :
  exists stats : RedisService.QueueStats,
    (RedisService.getQueueStats queueName w).1 = Ok stats /\
    RedisService.total stats = (RedisService.pending stats + RedisService.failed stats)%nat.
Proof.
  unfold RedisService.getQueueStats, try_catch, bind, RedisService.lLen.
  destruct (RedisService.command _ w) as [[n|e] w1] eqn:E1; simpl.
  - destruct (RedisService.command _ w1) as [[m|e] w2] eqn:E2; simpl.
    + eexists; split; [reflexivity|]. reflexivity.
    + eexists; split; [reflexivity|]. reflexivity.
  - eexists; split; [reflexivity|]. reflexivity.
Qed.

(** ** Batch partitioning *)

Section Batches.

Context {A : Type}.
Implicit Types (array : list A) (batches : list (list A)).

Lemma slice_step array i n : CampaignConsumer.slice i (i + n) array = take n (drop i array).
Proof. unfold CampaignConsumer.slice. f_equal. lia. Qed.

(** Number of turns left when the index stands at distance [d] from the end. *)
Lemma turns_left (d n : nat) :
  (0 < n)%nat -> (0 < d)%nat ->
  ((d + (n - 1)) / n = S ((d - n + (n - 1)) / n))%nat.
Proof.
  intros Hn Hd.
  destruct (le_lt_dec n d) as [Hle|Hlt].
  - replace (d + (n - 1))%nat with ((d - n + (n - 1)) + 1 * n)%nat by lia.
    rewrite Nat.div_add by lia. lia.
  - replace (d - n)%nat with 0%nat by lia. simpl.
    rewrite (Nat.div_small (n - 1) n) by lia.
    symmetry. apply (Nat.div_unique _ _ 1%nat (d - 1)%nat); lia.
Qed.

(** The loop invariant: from index [i] the loop appends the batches that
    cut up [drop i array]. *)
Lemma createBatches_from_spec array (n : nat) :
  (0 < n)%nat ->
  forall fuel i batches,
    (length array - i <= fuel)%nat ->
    exists more,
      CampaignConsumer.createBatches_from fuel array n i batches = Some (batches ++ more) /\
      concat more = drop i array /\
      length more = ((length array - i + (n - 1)) / n)%nat /\
      Forall (fun b => (1 <= length b <= n)%nat) more /\
      (forall j b, more !! j = Some b -> (S j < length more)%nat -> length b = n).
Proof.
  intros Hn fuel. induction fuel as [|fuel IH]; intros i batches Hfuel.
  - exists []. simpl.
    destruct (Nat.ltb_spec i (length array)); [lia|].
    rewrite app_nil_r, drop_ge by lia.
    replace (length array - i)%nat with 0%nat by lia. simpl.
    rewrite Nat.div_small by lia.
    repeat split; auto. intros j b Hj. rewrite lookup_nil in Hj. discriminate.
  - simpl. destruct (Nat.ltb_spec i (length array)) as [Hlt|Hge].
    + destruct (IH (i + n)%nat (batches ++ [CampaignConsumer.slice i (i + n) array]))
        as (more & Hrun & Hcat & Hlen & Hall & Hfull); [lia|].
      exists (CampaignConsumer.slice i (i + n) array :: more).
      rewrite Hrun, <- app_assoc. simpl.
      rewrite slice_step in *.
      assert (Hsize : length (take n (drop i array)) = Nat.min n (length array - i))
        by (rewrite length_take, length_drop; reflexivity).
      repeat split.
      * rewrite Hcat, <- drop_drop. apply take_drop.
      * rewrite Hlen.
        replace (length array - (i + n))%nat with (length array - i - n)%nat by lia.
        symmetry. apply turns_left; lia.
      * constructor; [lia | exact Hall].
      * intros [|j] b Hj Hlast; simpl in *.
        -- injection Hj as <-. rewrite Hsize.
           destruct (le_lt_dec (length array - i) n) as [Hshort|]; [|lia].
           exfalso. rewrite Hlen in Hlast.
           replace (length array - (i + n))%nat with 0%nat in Hlast by lia.
           simpl in Hlast. rewrite Nat.div_small in Hlast by lia. lia.
        -- apply (Hfull j b Hj). lia.
    + exists []. rewrite app_nil_r, drop_ge by lia.
      replace (length array - i)%nat with 0%nat by lia. simpl.
      rewrite Nat.div_small by lia.
      repeat split; auto. intros j b Hj. rewrite lookup_nil in Hj. discriminate.
Qed.

(** For a positive batch size the loop of [createBatches] ends. *)
Lemma createBatches_returns array (n : nat) :
  (0 < n)%nat ->
  exists batches,
    CampaignConsumer.createBatches array n = Some batches /\
    concat batches = array /\
    length batches = ((length array + (n - 1)) / n)%nat /\
    Forall (fun b => (1 <= length b <= n)%nat) batches /\
    (forall j b, batches !! j = Some b -> (S j < length batches)%nat -> length b = n).
Proof.
  intros Hn. unfold CampaignConsumer.createBatches.
  destruct (createBatches_from_spec array n Hn (length array) 0%nat []) as (more & H); [lia|].
  exists more. simpl in H. rewrite drop_0, Nat.sub_0_r in H. exact H.
Qed.

(** C6. For a list of N recipients [createBatches] with batch size 10 returns
    exactly ceil(N/10) batches, each of 10 recipients except possibly the
    last (which has between 1 and 10), and the batches concatenated in order
    are the original list. *)
Theorem createBatches_partition array :
  exists batches,
    CampaignConsumer.createBatches array 10 = Some batches /\
    length batches = ((length array + 9) / 10)%nat /\
    (length array <= 10 * length batches < length array + 10)%nat /\
    (forall j b, batches !! j = Some b ->
       if decide (S j < length batches)%nat then length b = 10%nat
       else (1 <= length b <= 10)%nat) /\
    concat batches = array.
Proof.
  destruct (createBatches_returns array 10) as (batches & Hrun & Hcat & Hlen & Hall & Hfull); [lia|].
  exists batches. change (10 - 1)%nat with 9%nat in Hlen. repeat split; auto.
  - rewrite Hlen.
    pose proof (Nat.div_mod_eq (length array + 9) 10).
    pose proof (Nat.mod_upper_bound (length array + 9) 10 ltac:(lia)). lia.
  - rewrite Hlen.
    pose proof (Nat.div_mod_eq (length array + 9) 10).
    pose proof (Nat.mod_upper_bound (length array + 9) 10 ltac:(lia)). lia.
  - intros j b Hj. case_decide.
    + eauto.
    + rewrite Forall_forall in Hall. apply Hall.
      apply list_elem_of_lookup. eauto.
Qed.

End Batches.

(** Closed facts about concrete scenarios, conjunct by conjunct. *)
Ltac by_evaluation :=
  cbv zeta; repeat match goal with |- _ /\ _ => split end; vm_compute; reflexivity.

(** ** Rules for [wp] *)

Lemma wp_ret {A} (a : A) Q w : Q (Ok a) w -> wp (ret a) Q w.
Proof. exact (fun H => H). Qed.

Lemma wp_throw {A} (e : string) (Q : result A -> World -> Prop) w :
  Q (Throw e) w -> wp (throw e) Q w.
Proof. exact (fun H => H). Qed.

Lemma wp_bind {A B} (m : M A) (k : A -> M B) Q w :
  wp m (fun r w1 =>
          match r with
          | Ok a => wp (k a) Q w1
          | Throw e => Q (Throw e) w1
          end) w ->
  wp (bind m k) Q w.
Proof. unfold wp, bind. destruct (m w) as [[a|e] w1]; auto. Qed.

Lemma wp_try_catch {A} (body : M A) (handler : string -> M A) Q w :
  wp body (fun r w1 =>
             match r with
             | Ok a => Q (Ok a) w1
             | Throw e => wp (handler e) Q w1
             end) w ->
  wp (try_catch body handler) Q w.
Proof. unfold wp, try_catch. destruct (body w) as [[a|e] w1]; auto. Qed.

Lemma wp_mono {A} (m : M A) (Q Q' : result A -> World -> Prop) w :
  wp m Q w -> (forall r w1, Q r w1 -> Q' r w1) -> wp m Q' w.
Proof. unfold wp. auto. Qed.

Lemma ambient_only_refl w : ambient_only w w.
Proof. repeat split. Qed.

Lemma ambient_only_trans w1 w2 w3 :
  ambient_only w1 w2 -> ambient_only w2 w3 -> ambient_only w1 w3.
Proof. unfold ambient_only. intros (-> & -> & ->) (-> & -> & ->). auto. Qed.

(** ** The ambient effects *)

Lemma wp_Date_now w : wp Date_now (fun r w1 => (exists t, r = Ok t) /\ ambient_only w w1) w.
Proof.
  unfold wp, Date_now. destruct (clock (ambient w)); simpl;
    (split; [eauto | apply ambient_only_refl || (repeat split)]).
Qed.

Lemma wp_Math_random w : wp Math_random (fun r w1 => (exists d, r = Ok d) /\ ambient_only w w1) w.
Proof.
  unfold wp, Math_random. destruct (random (ambient w)); simpl;
    (split; [eauto | apply ambient_only_refl || (repeat split)]).
Qed.

Lemma wp_console_log line w : wp (console_log line) (fun r w1 => r = Ok tt /\ ambient_only w w1) w.
Proof. unfold wp, console_log. simpl. repeat split. Qed.

Lemma wp_random_suffix n w :
  wp (random_suffix n) (fun r w1 => (exists s, r = Ok s) /\ ambient_only w w1) w.
Proof.
  unfold random_suffix. apply wp_bind.
  eapply wp_mono; [apply wp_Math_random|].
  intros r w1 [[d ->] Hw]. apply wp_ret. eauto.
Qed.

Lemma quiet_ret {A} (a : A) : quiet (ret a).
Proof. intros w. apply wp_ret. split; [eauto | apply ambient_only_refl]. Qed.

Lemma quiet_bind {A B} (m : M A) (k : A -> M B) :
  quiet m -> (forall a, quiet (k a)) -> quiet (bind m k).
Proof.
  intros Hm Hk w. apply wp_bind. eapply wp_mono; [apply Hm|].
  intros r w1 [[a ->] Hw]. eapply wp_mono; [apply Hk|].
  intros r w2 [Hr Hw']. split; [exact Hr | eapply ambient_only_trans; eauto].
Qed.

Lemma quiet_Date_now : quiet Date_now.
Proof. intros w. apply wp_Date_now. Qed.

Lemma quiet_Math_random : quiet Math_random.
Proof. intros w. apply wp_Math_random. Qed.

Lemma quiet_console_log line : quiet (console_log line).
Proof. intros w. eapply wp_mono; [apply wp_console_log|]. intros r w1 [-> H]; eauto. Qed.

Lemma quiet_sleep ms : quiet (sleep ms).
Proof. apply quiet_ret. Qed.

Lemma quiet_random_suffix n : quiet (random_suffix n).
Proof. intros w. apply wp_random_suffix. Qed.

Create HintDb quiet.
#[local] Hint Resolve quiet_ret quiet_Date_now quiet_Math_random quiet_console_log
  quiet_sleep quiet_random_suffix : quiet.

Ltac quiet_auto :=
  repeat first
    [ apply quiet_bind; [| intros ? ]
    | solve [auto with quiet] ].

Lemma quiet_getRandomDelay lo hi : quiet (VendorAPIService.getRandomDelay lo hi).
Proof. unfold VendorAPIService.getRandomDelay. quiet_auto. Qed.

Lemma quiet_simulateDelay lo hi : quiet (VendorAPIService.simulateDelay lo hi).
Proof.
  unfold VendorAPIService.simulateDelay.
  apply quiet_bind; [apply quiet_getRandomDelay | intros; apply quiet_sleep].
Qed.

Lemma quiet_generateVendorMessageId : quiet VendorAPIService.generateVendorMessageId.
Proof. unfold VendorAPIService.generateVendorMessageId. quiet_auto. Qed.

Lemma quiet_getRandomFailureReason : quiet VendorAPIService.getRandomFailureReason.
Proof. unfold VendorAPIService.getRandomFailureReason. quiet_auto. Qed.

Lemma quiet_fresh_id : quiet RedisService.fresh_id.
Proof. unfold RedisService.fresh_id. quiet_auto. Qed.

Lemma quiet_generateMessageId : quiet CampaignConsumer.generateMessageId.
Proof. unfold CampaignConsumer.generateMessageId. quiet_auto. Qed.

#[local] Hint Resolve quiet_getRandomDelay quiet_simulateDelay quiet_generateVendorMessageId
  quiet_getRandomFailureReason quiet_fresh_id quiet_generateMessageId : quiet.

(** A quiet step in front of a computation. *)
Lemma wp_quiet_bind {A B} (m : M A) (k : A -> M B) Q w :
  quiet m ->
  (forall a w1, ambient_only w w1 -> wp (k a) Q w1) ->
  wp (bind m k) Q w.
Proof.
  intros Hm Hk. apply wp_bind. eapply wp_mono; [apply Hm|].
  intros r w1 [[a ->] Hw]. auto.
Qed.

(** ** The vendor's statistics *)

Lemma wp_on_stats f w :
  wp (VendorAPIService.on_stats f)
     (fun r w1 => r = Ok tt /\ redis w1 = redis w /\ mongo w1 = mongo w /\
                  deliveryStats (vendor w1) = f (deliveryStats (vendor w)) /\
                  bulk_faults (vendor w1) = bulk_faults (vendor w) /\
                  timers (vendor w1) = timers (vendor w)) w.
Proof. unfold wp, VendorAPIService.on_stats. simpl. repeat split. Qed.

Lemma wp_setTimeout callback delay w :
  wp (VendorAPIService.setTimeout callback delay)
     (fun r w1 => r = Ok tt /\ redis w1 = redis w /\ mongo w1 = mongo w /\
                  deliveryStats (vendor w1) = deliveryStats (vendor w) /\
                  bulk_faults (vendor w1) = bulk_faults (vendor w) /\
                  timers (vendor w1) = timers (vendor w) ++ [(delay, callback)]) w.
Proof. unfold wp, VendorAPIService.setTimeout. simpl. repeat split. Qed.

(** A conversion changes nothing: it returns the text or throws. *)
Lemma interpolate_run o w :
  interpolate o w = (if printable o then Ok (template o) else Throw not_primitive, w).
Proof. unfold interpolate, lift, converted. destruct (printable o); reflexivity. Qed.

Lemma sent_one_ambient w w1 w2 isSuccess callbacks :
  sent_one w w1 isSuccess callbacks -> ambient_only w1 w2 -> sent_one w w2 isSuccess callbacks.
Proof.
  unfold sent_one, ambient_only. intros (R & M & S & B & T) (R' & M' & V').
  rewrite R', M', V'. auto.
Qed.

(** One call of [sendEmail] takes one decision, records it once in the
    statistics and returns.  It reports the decision and schedules one
    callback when the recipient can be printed; when printing it throws,
    the call reports a failure and has scheduled two. *)
Lemma wp_sendEmail emailData w :
  wp (VendorAPIService.sendEmail emailData)
     (fun r w' =>
        exists (isSuccess : bool) result,
          r = Ok result /\
          VendorAPIService.status result =
            (if printable (emailData !! "to") && isSuccess then "SENT" else "FAILED") /\
          VendorAPIService.success result = printable (emailData !! "to") /\
          sent_one w w' isSuccess (if printable (emailData !! "to") then 1 else 2)) w.
Proof.
  unfold VendorAPIService.sendEmail.
  apply wp_try_catch.
  apply wp_quiet_bind; [auto with quiet|]. intros _ w1 (R1 & M1 & V1).
  apply wp_quiet_bind; [auto with quiet|]. intros d w2 (R2 & M2 & V2).
  apply wp_quiet_bind; [auto with quiet|]. intros vid w3 (R3 & M3 & V3).
  apply wp_quiet_bind; [auto with quiet|]. intros ts w4 (R4 & M4 & V4).
  apply wp_quiet_bind; [destruct (PrimFloat.ltb _ _); auto with quiet|].
  intros reason w5 (R5 & M5 & V5).
  apply wp_bind. eapply wp_mono; [apply wp_on_stats|].
  intros r w6 (-> & R6 & M6 & S6 & B6 & T6).
  apply wp_quiet_bind; [auto with quiet|]. intros delay w7 (R7 & M7 & V7).
  apply wp_bind. eapply wp_mono; [apply wp_setTimeout|].
  intros r w8 (-> & R8 & M8 & S8 & B8 & T8).
  assert (Hone : sent_one w w8 (PrimFloat.ltb (value d) VendorAPIService.nine_tenths) 1).
  { unfold sent_one. rewrite R8, M8, S8, B8, T8, V7, R7, M7, R6, M6, S6, B6, T6.
    rewrite V5, R5, M5, V4, R4, M4, V3, R3, M3, V2, R2, M2, V1, R1, M1.
    rewrite length_app. simpl. repeat split; auto. }
  apply wp_bind. unfold wp at 1. rewrite interpolate_run. cbn [fst snd].
  destruct (printable (emailData !! "to")).
  - apply wp_quiet_bind; [auto with quiet|]. intros _ w9 Hw9. apply wp_ret.
    exists (PrimFloat.ltb (value d) VendorAPIService.nine_tenths). eexists.
    split; [reflexivity|]. split; [reflexivity|]. split; [reflexivity|].
    eapply sent_one_ambient; eauto.
  - apply wp_quiet_bind; [auto with quiet|]. intros _ w9 Hw9.
    apply wp_bind. eapply wp_mono; [apply wp_setTimeout|].
    intros r w10 (-> & R10 & M10 & S10 & B10 & T10). apply wp_ret.
    exists (PrimFloat.ltb (value d) VendorAPIService.nine_tenths). eexists.
    split; [reflexivity|]. split; [reflexivity|]. split; [reflexivity|].
    pose proof (sent_one_ambient _ _ _ _ _ Hone Hw9) as (R & M & S & B & T).
    unfold sent_one. rewrite R10, M10, S10, B10, T10, length_app, T. simpl.
    repeat split; auto. lia.
Qed.

Lemma updateStats_sum isSuccess s :
  (successful s + stat_failed s)%nat = totalSent s ->
  (successful (VendorAPIService.updateStats isSuccess s) +
   stat_failed (VendorAPIService.updateStats isSuccess s))%nat =
  totalSent (VendorAPIService.updateStats isSuccess s).
Proof. destruct isSuccess; simpl; lia. Qed.

(** C10. The vendor's statistics satisfy [successful + failed = totalSent]
    in every state the singleton reaches; one call of [updateStats] adds
    exactly 1 to [totalSent] and lowers none of the three counters (only
    [resetStats] does); and every call of [sendEmail] takes one decision and
    applies [updateStats] exactly once, with that decision. *)
Theorem deliveryStats_invariant :
  (forall s, reachable s -> (successful s + stat_failed s)%nat = totalSent s) /\
  (forall isSuccess s,
     totalSent (VendorAPIService.updateStats isSuccess s) = S (totalSent s) /\
     (successful s <= successful (VendorAPIService.updateStats isSuccess s))%nat /\
     (stat_failed s <= stat_failed (VendorAPIService.updateStats isSuccess s))%nat) /\
  (forall emailData w,
     exists isSuccess : bool,
       deliveryStats (vendor (VendorAPIService.sendEmail emailData w).2) =
       VendorAPIService.updateStats isSuccess (deliveryStats (vendor w)) /\
       (reachable (deliveryStats (vendor w)) ->
        reachable (deliveryStats (vendor (VendorAPIService.sendEmail emailData w).2)))).
Proof.
  split; [|split].
  - intros s Hs. induction Hs as [|isSuccess s _ IH|s _ _].
    + reflexivity.
    + apply updateStats_sum, IH.
    + reflexivity.
  - intros [] s; simpl; lia.
  - intros emailData w.
    destruct (wp_sendEmail emailData w) as (isSuccess & result & _ & _ & _ & Hone).
    destruct Hone as (_ & _ & Hstats & _).
    exists isSuccess. split; [exact Hstats|].
    intros Hreach. rewrite Hstats. constructor. exact Hreach.
Qed.

(** The invariant at work: one accepted and one rejected send after start. *)
Lemma deliveryStats_invariant_witness :
  let s := VendorAPIService.updateStats false
             (VendorAPIService.updateStats true VendorAPIService.zeroStats) in
  (successful s + stat_failed s)%nat = totalSent s.
Proof.
  apply (proj1 deliveryStats_invariant). repeat constructor.
Defined.

(** ** Unknown job types *)

(** C2 (amended). A job whose [type] is not DELIVER_CAMPAIGN and whose
    [type] and [campaignId] can be converted to strings makes the campaign
    dispatcher log the unknown type and return normally, with nothing stored
    changed.  A job whose [type] is none of the five customer job types and
    can be converted to a string makes the customer dispatcher raise
    "Unknown job type: <type>" (after logging it), so that the consumer loop
    dead-letters the job.  A job for which a conversion throws (an object
    with a member [toString] as [type], or as [campaignId] for the campaign
    dispatcher) makes either dispatcher raise the TypeError of the
    conversion at its first console line, before anything is logged. *)
Theorem unknown_type_dispatch
    (personalizeMessage : string -> CampaignConsumer.Customer -> string)
    (generateEmailHTML : CampaignConsumer.MessageContent -> CampaignConsumer.Customer -> string)
    (fields_of : Job -> CampaignConsumer.DeliverJob)
    (createCustomer updateCustomer deleteCustomer bulkImportCustomers updateCustomerStats :
       option json -> M unit)
    (job : Job) (w : World) :
  let type := job !! "type" in
  let campaign_run :=
    CampaignConsumer.processCampaignJob personalizeMessage generateEmailHTML fields_of job w in
  let customer_run :=
    CustomerConsumer.processCustomerJob createCustomer updateCustomer deleteCustomer
      bulkImportCustomers updateCustomerStats job w in
  (is_type type "DELIVER_CAMPAIGN" = false ->
   if printable type && printable (job !! "campaignId")
   then
     campaign_run.1 = Ok tt /\
     ambient_only w campaign_run.2 /\
     console (ambient campaign_run.2) =
       console (ambient w) ++
       ["Processing campaign job: " +:+ template type +:+ " for campaign " +:+
          template (job !! "campaignId");
        "Unknown campaign job type: " +:+ template type]
   else campaign_run = (Throw not_primitive, w)) /\
  (Forall (fun known => is_type type known = false)
     ["CREATE_CUSTOMER"; "UPDATE_CUSTOMER"; "DELETE_CUSTOMER";
      "BULK_IMPORT_CUSTOMERS"; "UPDATE_CUSTOMER_STATS"] ->
   if printable type
   then
     customer_run.1 = Throw ("Unknown job type: " +:+ template type) /\
     ambient_only w customer_run.2 /\
     console (ambient customer_run.2) =
       console (ambient w) ++
       ["Processing customer job: " +:+ template type;
        "Customer job " +:+ template type +:+ " failed: " +:+
          "Unknown job type: " +:+ template type]
   else customer_run = (Throw not_primitive, w)).
Proof.
  cbv zeta. split.
  - intros Hcampaign.
    unfold CampaignConsumer.processCampaignJob, CampaignConsumer.announce, try_catch, bind,
      interpolate, lift, converted, console_log.
    rewrite Hcampaign.
    destruct (printable (job !! "type")); [|reflexivity].
    destruct (printable (job !! "campaignId")); [|reflexivity].
    cbn -[append template].
    rewrite <- app_assoc. repeat split.
  - intros Hcustomer.
    repeat match goal with H : Forall _ (_ :: _) |- _ => apply Forall_cons in H; destruct H as [? H] end.
    unfold CustomerConsumer.processCustomerJob, try_catch, bind, throw,
      interpolate, lift, converted, console_log.
    repeat match goal with H : is_type _ _ = false |- _ => rewrite H; clear H end.
    destruct (printable (job !! "type")); [|reflexivity].
    cbn -[append template].
    rewrite <- app_assoc. repeat split.
Qed.

Lemma unknown_type_dispatch_witness :
  (CampaignConsumer.processCampaignJob (fun t _ => t) (fun _ _ => "")
     (fun _ => {| CampaignConsumer.campaignId := ""; CampaignConsumer.customers := [];
                  CampaignConsumer.messageContent :=
                    {| CampaignConsumer.subject := ""; CampaignConsumer.message := "";
                       CampaignConsumer.from_name := ""; CampaignConsumer.from_email := "" |};
                  CampaignConsumer.userId := ""; CampaignConsumer.userEmail := "" |})
     Scenario.archive_job Scenario.fresh).1 = Ok tt /\
  (Scenario.customer_handler Scenario.archive_job Scenario.fresh).1 =
    Throw "Unknown job type: ARCHIVE_CUSTOMER".
Proof.
  refine (let H := unknown_type_dispatch (fun t _ => t) (fun _ _ => "") _
                     Scenario.idle Scenario.idle Scenario.idle Scenario.idle Scenario.idle
                     Scenario.archive_job Scenario.fresh in
          conj (proj1 (proj1 H _)) (proj1 (proj2 H _))).
  - reflexivity.
  - repeat constructor.
Defined.

(** C2, as stated, fails for the customer dispatcher: a job of unknown type
    makes it raise, and one turn of the consumer loop then puts the job on
    the dead-letter list. *)
Lemma unknown_customer_job_raises :
  (Scenario.customer_handler Scenario.archive_job Scenario.fresh).1 =
    Throw "Unknown job type: ARCHIVE_CUSTOMER" /\
  let queued := (RedisService.addToQueue "customer.jobs" Scenario.archive_job Scenario.fresh).2 in
  let after := (RedisService.iteration "customer.jobs" Scenario.customer_handler queued).2 in
  RedisService.elements queued "customer.jobs:failed" = [] /\
  map (fun entry : Job => entry !! "error") (RedisService.elements after "customer.jobs:failed") =
    [Some (JStr "Unknown job type: ARCHIVE_CUSTOMER")].
Proof. by_evaluation. Qed.

(** ** The broker *)

Lemma wp_lPush key element w :
  wp (RedisService.lPush key element)
     (fun r w1 =>
        mongo w1 = mongo w /\ vendor w1 = vendor w /\ ambient w1 = ambient w /\
        redis_faults (redis w1) = (next_fault (redis_faults (redis w))).2 /\
        match (next_fault (redis_faults (redis w))).1 with
        | Some e => r = Throw e /\ queues (redis w1) = queues (redis w)
        | None =>
            r = Ok (S (length (RedisService.elements w key))) /\
            queues (redis w1) = <[key := element :: RedisService.elements w key]> (queues (redis w))
        end) w.
Proof.
  unfold wp, RedisService.lPush.
  destruct (redis_command_cases
              (fun qs => let l := element :: default [] (qs !! key) in (length l, <[key:=l]> qs)) w)
    as (Hcase & Hfaults & Hm & Hv & Ha).
  repeat split; auto.
Qed.

(** A type that cannot be converted: both dispatchers fail at their first
    console line, with nothing printed. *)
Lemma unconvertible_type_raises :
  CampaignConsumer.processCampaignJob Scenario.verbatim Scenario.no_html
    (fun _ => Scenario.three_recipients) Cases.unconvertible_job Scenario.fresh =
    (Throw "Cannot convert object to primitive value", Scenario.fresh) /\
  Scenario.customer_handler Cases.unconvertible_job Scenario.fresh =
    (Throw "Cannot convert object to primitive value", Scenario.fresh).
Proof. split; reflexivity. Qed.

(** Dequeuing from a queue that holds [before ++ [job]] yields [job] and
    leaves [before], unless the command is rejected. *)
Lemma brPop_tail key timeout w before job :
  queues (redis w) !! key = Some (before ++ [job]) ->
  (next_fault (redis_faults (redis w))).1 = None ->
  (RedisService.brPop key timeout w).1 = Ok (Some job) /\
  RedisService.elements (RedisService.brPop key timeout w).2 key = before /\
  (forall other, other <> key ->
     RedisService.elements (RedisService.brPop key timeout w).2 other = RedisService.elements w other) /\
  redis_faults (redis (RedisService.brPop key timeout w).2) = (next_fault (redis_faults (redis w))).2 /\
  mongo (RedisService.brPop key timeout w).2 = mongo w /\
  vendor (RedisService.brPop key timeout w).2 = vendor w /\
  ambient (RedisService.brPop key timeout w).2 = ambient w.
Proof.
  intros Hq Hfault. unfold RedisService.brPop.
  match goal with |- context [RedisService.command ?run w] =>
    destruct (redis_command_cases run w) as (Hcase & Hfaults & Hm & Hv & Ha)
  end.
  rewrite Hfault in Hcase. cbv beta in Hcase. rewrite Hq in Hcase.
  rewrite last_snoc, removelast_last in Hcase. simpl in Hcase.
  destruct Hcase as [Hr Hqs].
  repeat split; auto; unfold RedisService.elements.
  - rewrite Hqs. destruct before.
    + rewrite lookup_delete_eq. reflexivity.
    + rewrite lookup_insert_eq. reflexivity.
  - intros other Hne. rewrite Hqs. destruct before.
    + rewrite lookup_delete_ne by auto. reflexivity.
    + rewrite lookup_insert_ne by auto. reflexivity.
Qed.

(** The id the broker generates: the clock reading, a dash, and up to nine
    base-36 digits of the random draw. *)
Lemma fresh_id_reads w :
  (RedisService.fresh_id w).1 =
    Ok (pretty (default 0 (head (clock (ambient w)))) +:+ "-" +:+
        String.substring 2 9
          (radix36 (default {| value := 0%float; radix36 := "0" |} (head (random (ambient w)))))).
Proof.
  unfold RedisService.fresh_id, random_suffix, bind, Date_now, Math_random, ret.
  destruct w as [r m v [[|t clock] [|d random] console]]; reflexivity.
Qed.

(** What [addToQueue] does: the job is stored at the head of the queue with
    the id and timestamp the broker generates then and with status
    [pending]; or, when Redis rejects the LPUSH, nothing is stored and the
    error is thrown on. *)
Lemma addToQueue_cases queueName job w :
  let generated := RedisService.fresh_id w in
  let stamped := Date_now generated.2 in
  let run := RedisService.addToQueue queueName job w in
  mongo run.2 = mongo w /\ vendor run.2 = vendor w /\
  redis_faults (redis run.2) = (next_fault (redis_faults (redis w))).2 /\
  exists id timestamp,
    generated.1 = Ok id /\ stamped.1 = Ok timestamp /\
    match (next_fault (redis_faults (redis w))).1 with
    | Some e => run.1 = Throw e /\ queues (redis run.2) = queues (redis w)
    | None =>
        run.1 = Ok tt /\
        queues (redis run.2) =
          <[queueName := RedisService.jobData job id timestamp :: RedisService.elements w queueName]>
            (queues (redis w))
    end.
Proof.
  cbv zeta. unfold RedisService.addToQueue, try_catch, bind.
  destruct (quiet_fresh_id w) as [[id Hid] (R1 & M1 & V1)].
  destruct (RedisService.fresh_id w) as [r1 w1]. simpl in *. subst r1.
  destruct (quiet_Date_now w1) as [[timestamp Hts] (R2 & M2 & V2)].
  destruct (Date_now w1) as [r2 w2]. simpl in *. subst r2.
  pose proof (wp_lPush queueName (RedisService.jobData job id timestamp) w2) as Hpush.
  unfold wp in Hpush.
  destruct (RedisService.lPush queueName (RedisService.jobData job id timestamp) w2) as [r3 w3].
  simpl in Hpush. destruct Hpush as (M3 & V3 & A3 & F3 & Hcase).
  unfold RedisService.elements in *. rewrite R2, R1 in *.
  destruct (next_fault (redis_faults (redis w))).1 as [e|]; destruct Hcase as [-> Hqs].
  - unfold console_log, throw. simpl.
    rewrite M3, M2, M1, V3, V2, V1, F3, Hqs. repeat split. exists id, timestamp. auto.
  - unfold console_log. simpl.
    rewrite M3, M2, M1, V3, V2, V1, F3, Hqs. repeat split. exists id, timestamp. auto.
Qed.

(** One turn of the consumer loop on a queue whose tail is [job], unfolded
    up to the handler's outcome and the dead-letter enqueue. *)
Lemma iteration_run queueName callback w before job :
  queues (redis w) !! queueName = Some (before ++ [job]) ->
  (next_fault (redis_faults (redis w))).1 = None ->
  let started :=
    (console_log ("Processing job " +:+ template (job !! "id") +:+ " from " +:+ queueName)
                 (RedisService.brPop queueName 10 w).2).2 in
  let handled := callback job started in
  let run := RedisService.iteration queueName callback w in
  run.1 = Ok tt /\
  match handled.1 with
  | Ok _ =>
      run.2 = (console_log ("Job " +:+ template (job !! "id") +:+ " completed successfully")
                           handled.2).2
  | Throw e =>
      let dated :=
        Date_now (console_log ("Job " +:+ template (job !! "id") +:+ " failed: " +:+ e)
                              handled.2).2 in
      exists failedAt,
        dated.1 = Ok failedAt /\
        let enqueue :=
          RedisService.addToQueue (queueName +:+ ":failed")
            (RedisService.failedJob job e failedAt) dated.2 in
        match enqueue.1 with
        | Ok _ => run.2 = enqueue.2
        | Throw error =>
            run.2 = (console_log ("Error processing queue " +:+ queueName +:+ ": " +:+ error)
                                 enqueue.2).2
        end
  end.
Proof.
  intros Hq Hfault. cbv zeta.
  destruct (brPop_tail queueName 10 w before job Hq Hfault) as (Hpop & _).
  unfold RedisService.iteration, try_catch, bind.
  destruct (RedisService.brPop queueName 10 w) as [r0 w0]. simpl in Hpop. subst r0.
  unfold console_log, sleep, ret. cbn [fst snd].
  match goal with |- context [callback job ?w1] => destruct (callback job w1) as [[[]|e] w2] end;
    cbn [fst snd].
  - auto.
  - match goal with |- context [Date_now ?w3] =>
      destruct (quiet_Date_now w3) as [[failedAt Hdate] _]; destruct (Date_now w3) as [r4 w4]
    end.
    simpl in Hdate. subst r4. cbn [fst snd].
    split.
    + destruct (RedisService.addToQueue _ _ w4) as [[[]|error] w5]; reflexivity.
    + exists failedAt. split; [reflexivity|].
      destruct (RedisService.addToQueue _ _ w4) as [[[]|error] w5]; reflexivity.
Qed.

(** A turn of the loop never throws, whatever the handler does: a failing
    job does not stop the loop. *)
Lemma iteration_returns queueName callback w :
  (RedisService.iteration queueName callback w).1 = Ok tt.
Proof.
  unfold RedisService.iteration, try_catch, bind.
  destruct (RedisService.brPop queueName 10 w) as [[[job|]|e] w0]; try reflexivity.
  unfold console_log at 1. cbn [fst snd].
  destruct (callback job _) as [[[]|e] w1]; [reflexivity|].
  unfold console_log at 1. cbn [fst snd].
  destruct (Date_now _) as [[failedAt|e'] w2]; [|reflexivity].
  destruct (RedisService.addToQueue _ _ w2) as [[[]|e'] w3]; reflexivity.
Qed.

Lemma processQueue_returns queueName callback n w :
  (RedisService.processQueue queueName callback n w).1 = Ok tt.
Proof.
  unfold RedisService.processQueue, bind, console_log. cbn [fst snd].
  generalize (with_ambient
                (fun a => {| clock := clock a; random := random a;
                             console := console a ++ ["Started processing queue: " +:+ queueName] |})
                w).
  induction n as [|n IH]; intros w0; simpl; [reflexivity|].
  unfold bind.
  pose proof (iteration_returns queueName callback w0) as H.
  destruct (RedisService.iteration queueName callback w0) as [r w1]. simpl in H. subst r.
  apply IH.
Qed.

(** The properties of a dead-letter entry that follow from how it is built. *)
Lemma jobData_fields job id timestamp :
  RedisService.jobData job id timestamp !! "id" = Some (JStr id) /\
  RedisService.jobData job id timestamp !! "timestamp" = Some (JStr (toISOString timestamp)) /\
  RedisService.jobData job id timestamp !! "status" = Some (JStr "pending") /\
  (forall key, key ∉ ["id"; "timestamp"; "status"] ->
     RedisService.jobData job id timestamp !! key = job !! key).
Proof.
  unfold RedisService.jobData. repeat split.
  - rewrite !lookup_insert_ne by discriminate. apply lookup_insert_eq.
  - rewrite lookup_insert_ne by discriminate. apply lookup_insert_eq.
  - apply lookup_insert_eq.
  - intros key Hkey.
    rewrite !lookup_insert_ne; [reflexivity| | |]; intros <-; apply Hkey; set_solver.
Qed.

Lemma failedJob_fields job error failedAt :
  RedisService.failedJob job error failedAt !! "error" = Some (JStr error) /\
  RedisService.failedJob job error failedAt !! "failedAt" = Some (JStr (toISOString failedAt)) /\
  (forall key, key ∉ ["error"; "failedAt"] ->
     RedisService.failedJob job error failedAt !! key = job !! key).
Proof.
  unfold RedisService.failedJob. repeat split.
  - rewrite lookup_insert_ne by discriminate. apply lookup_insert_eq.
  - apply lookup_insert_eq.
  - intros key Hkey.
    rewrite !lookup_insert_ne; [reflexivity| |]; intros <-; apply Hkey; set_solver.
Qed.

(** The keyspace after an enqueue, read key by key. *)
Lemma elements_after_push w w' key entry :
  queues (redis w') = <[key := entry :: RedisService.elements w key]> (queues (redis w)) ->
  RedisService.elements w' key = entry :: RedisService.elements w key /\
  (forall other, other <> key -> RedisService.elements w' other = RedisService.elements w other).
Proof.
  intros H. unfold RedisService.elements in *. rewrite H. split.
  - rewrite lookup_insert_eq. reflexivity.
  - intros other Hne. rewrite lookup_insert_ne by auto. reflexivity.
Qed.

(** The dead-letter path of one turn, from the handler's error on. *)
Lemma iteration_dead_letter queueName callback w before job e :
  queues (redis w) !! queueName = Some (before ++ [job]) ->
  (next_fault (redis_faults (redis w))).1 = None ->
  let started :=
    (console_log ("Processing job " +:+ template (job !! "id") +:+ " from " +:+ queueName)
                 (RedisService.brPop queueName 10 w).2).2 in
  let handled := callback job started in
  let final := (RedisService.iteration queueName callback w).2 in
  handled.1 = Throw e ->
  let dated :=
    Date_now (console_log ("Job " +:+ template (job !! "id") +:+ " failed: " +:+ e) handled.2).2 in
  mongo final = mongo handled.2 /\ vendor final = vendor handled.2 /\
  exists failedAt id timestamp,
    dated.1 = Ok failedAt /\
    (RedisService.fresh_id dated.2).1 = Ok id /\
    (Date_now (RedisService.fresh_id dated.2).2).1 = Ok timestamp /\
    match (next_fault (redis_faults (redis handled.2))).1 with
    | None =>
        queues (redis final) =
          <[queueName +:+ ":failed" :=
              RedisService.jobData (RedisService.failedJob job e failedAt) id timestamp ::
              RedisService.elements handled.2 (queueName +:+ ":failed")]>
            (queues (redis handled.2))
    | Some _ => queues (redis final) = queues (redis handled.2)
    end.
Proof.
  intros Hq Hfault. cbv zeta. intros Hthrow.
  destruct (iteration_run queueName callback w before job Hq Hfault) as [_ Hrun].
  cbv zeta in Hrun. rewrite Hthrow in Hrun.
  destruct Hrun as (failedAt & Hdate & Hrun).
  set (handled := callback job _) in *.
  set (logged := (console_log _ handled.2).2) in *.
  assert (Hlogged : ambient_only handled.2 logged)
    by (subst logged; unfold console_log; simpl; repeat split).
  destruct (quiet_Date_now logged) as [_ Hdated].
  pose proof (ambient_only_trans _ _ _ Hlogged Hdated) as (R & Mo & V).
  destruct (addToQueue_cases (queueName +:+ ":failed")
              (RedisService.failedJob job e failedAt) (Date_now logged).2)
    as (Mo' & V' & _ & id & timestamp & Hid & Hts & Hcase).
  cbv zeta in Hcase. unfold RedisService.elements in *. rewrite R in Hcase.
  destruct (next_fault (redis_faults (redis handled.2))).1 as [err|];
    destruct Hcase as [Hres Hqs]; rewrite Hres in Hrun; rewrite Hrun.
  - unfold console_log. simpl. rewrite Mo', V', Mo, V, Hqs.
    repeat split. exists failedAt, id, timestamp. auto.
  - rewrite Mo', V', Mo, V, Hqs.
    repeat split. exists failedAt, id, timestamp. auto.
Qed.

(** ** Dead-lettering *)




(** ** What the broker writes into a stored job *)




(** ** Delivery receipts *)

(** A query either throws the fault at the head of the tape or answers from
    the database; it touches nothing but the MongoDB part. *)
Lemma mongo_command_cases {A} (run : Mongo -> A * Mongo) (w : World) :
  let db := {| campaigns := campaigns (mongo w);
               campaign_writes := campaign_writes (mongo w);
               communicationLogs := communicationLogs (mongo w);
               mongo_faults := (next_fault (mongo_faults (mongo w))).2 |} in
  match (next_fault (mongo_faults (mongo w))).1 with
  | Some message =>
      (Mongoose.command run w).1 = Throw message /\ mongo (Mongoose.command run w).2 = db
  | None =>
      (Mongoose.command run w).1 = Ok (run db).1 /\ mongo (Mongoose.command run w).2 = (run db).2
  end /\
  redis (Mongoose.command run w).2 = redis w /\
  vendor (Mongoose.command run w).2 = vendor w /\
  ambient (Mongoose.command run w).2 = ambient w.
Proof.
  unfold Mongoose.command.
  destruct (next_fault (mongo_faults (mongo w))) as [[message|] rest]; simpl.
  - auto.
  - destruct (run _) as [a db']; simpl. auto.
Qed.

Lemma update_first_none filter update logs :
  (forall log, log ∈ logs -> filter log = false) ->
  Mongoose.update_first filter update logs = (None, logs).
Proof.
  induction logs as [|log rest IH]; intros Hnone; simpl; [reflexivity|].
  rewrite (Hnone log) by set_solver.
  rewrite IH; [reflexivity|]. intros l Hl. apply Hnone. set_solver.
Qed.

Lemma update_first_some filter update before log after :
  (forall l, l ∈ before -> filter l = false) ->
  filter log = true ->
  Mongoose.update_first filter update (before ++ log :: after) =
    (Some (update log), before ++ update log :: after).
Proof.
  induction before as [|l before IH]; intros Hbefore Hlog; simpl.
  - rewrite Hlog. reflexivity.
  - rewrite (Hbefore l) by set_solver.
    rewrite IH; [reflexivity| |exact Hlog]. intros l' Hl'. apply Hbefore. set_solver.
Qed.

Lemma update_first_missed filter update logs :
  (Mongoose.update_first filter update logs).1 = None ->
  (Mongoose.update_first filter update logs).2 = logs.
Proof.
  induction logs as [|log rest IH]; simpl; [reflexivity|].
  destruct (filter log); simpl; [discriminate|].
  destruct (Mongoose.update_first filter update rest) as [found rest']. simpl in *.
  intros Hnone. rewrite IH by exact Hnone. reflexivity.
Qed.

Section Receipts.

(** [Date.parse], whatever it makes of a text. *)
Variable Date_parse : string -> JSDate.

Abbreviation handleDeliveryReceipt := (VendorController.handleDeliveryReceipt Date_parse).

(** A filter that selects something was given a string. *)
Lemma has_message_id_found messageId update logs :
  (Mongoose.update_first (VendorController.has_message_id messageId) update logs).1 <> None ->
  exists id, messageId = Some (JStr id).
Proof.
  destruct messageId as [[]|]; eauto;
    intros H; exfalso; apply H; rewrite update_first_none; auto.
Qed.

(** A receipt without a truthy [messageId] or [status] is turned away at
    once. *)
Lemma handleDeliveryReceipt_refuses receiptData w :
  truthy (receiptData !! "messageId") && truthy (receiptData !! "status") = false ->
  handleDeliveryReceipt receiptData w =
    (Ok (VendorController.answer 400 false
           (if truthy (receiptData !! "messageId")
            then "status is required" else "messageId is required") None), w).
Proof.
  intros H. unfold VendorController.handleDeliveryReceipt, try_catch, ret.
  destruct (truthy (receiptData !! "messageId")); simpl in *; [rewrite H|]; reflexivity.
Qed.

(** A receipt whose update document cannot be built is answered 500 before
    any query is sent. *)
Lemma handleDeliveryReceipt_fails_early receiptData w e :
  truthy (receiptData !! "messageId") = true ->
  truthy (receiptData !! "status") = true ->
  match VendorController.lower_cased (receiptData !! "status") with
  | Ok _ =>
      VendorController.delivery_date Date_parse (receiptData !! "status")
        (receiptData !! "deliveredAt") = Throw e
  | Throw e' => e' = e
  end ->
  (handleDeliveryReceipt receiptData w).1 =
    Ok (VendorController.answer 500 false "Failed to process delivery receipt" (Some e)) /\
  ambient_only w (handleDeliveryReceipt receiptData w).2.
Proof.
  intros Hid Hst He.
  unfold VendorController.handleDeliveryReceipt, try_catch, bind, lift. rewrite Hid, Hst.
  cbn [negb].
  destruct (VendorController.lower_cased (receiptData !! "status")) as [lowered|e'].
  - rewrite He. unfold console_log, ret. cbn. repeat split.
  - subst e'. unfold console_log, ret. cbn. repeat split.
Qed.

(** How the handler answers a receipt whose update document is built, by
    the outcome of the lookup. *)
Lemma handleDeliveryReceipt_run receiptData w lowered delivered :
  truthy (receiptData !! "messageId") = true ->
  truthy (receiptData !! "status") = true ->
  VendorController.lower_cased (receiptData !! "status") = Ok lowered ->
  VendorController.delivery_date Date_parse (receiptData !! "status")
    (receiptData !! "deliveredAt") = Ok delivered ->
  let run := handleDeliveryReceipt receiptData w in
  let update :=
    VendorController.updateData lowered delivered (receiptData !! "failureReason")
      (receiptData !! "vendorMessageId") in
  let matches := VendorController.has_message_id (receiptData !! "messageId") in
  campaigns (mongo run.2) = campaigns (mongo w) /\
  exists receivedAt response,
    (Date_now w).1 = Ok receivedAt /\
    run.1 = Ok response /\
    match (next_fault (mongo_faults (mongo w))).1 with
    | Some e =>
        response =
          VendorController.answer 500 false "Failed to process delivery receipt" (Some e) /\
        communicationLogs (mongo run.2) = communicationLogs (mongo w)
    | None =>
        communicationLogs (mongo run.2) =
          (Mongoose.update_first matches (update receivedAt) (communicationLogs (mongo w))).2 /\
        response =
          match (Mongoose.update_first matches (update receivedAt) (communicationLogs (mongo w))).1 with
          | Some _ =>
              VendorController.answer 200 true "Delivery receipt processed successfully" None
          | None =>
              if printable (receiptData !! "messageId")
              then VendorController.answer 404 false "Communication log not found" None
              else VendorController.answer 500 false "Failed to process delivery receipt"
                     (Some not_primitive)
          end
    end.
Proof.
  intros Hid Hst Hlow Hdate. cbv zeta.
  unfold VendorController.handleDeliveryReceipt, try_catch, bind, lift.
  rewrite Hid, Hst, Hlow, Hdate. cbn [negb].
  destruct (quiet_Date_now w) as [[receivedAt Hnow] (R1 & M1 & V1)].
  destruct (Date_now w) as [r1 w1]. simpl in Hnow, R1, M1, V1. subst r1. cbn [fst snd].
  unfold Mongoose.CommunicationLog_findOneAndUpdate.
  match goal with |- context [Mongoose.command ?run w1] =>
    destruct (mongo_command_cases run w1) as (Hcase & _);
    destruct (Mongoose.command run w1) as [r2 w2]
  end.
  cbv zeta in Hcase. rewrite M1 in Hcase. cbn [fst snd] in Hcase.
  destruct (next_fault (mongo_faults (mongo w))).1 as [e|].
  - destruct Hcase as [-> Hdb]. unfold console_log, ret. cbn [fst snd]. simpl.
    rewrite Hdb. simpl. split; [reflexivity|].
    exists receivedAt. eexists. repeat split.
  - destruct Hcase as [-> Hdb]. cbn [communicationLogs] in *.
    match goal with
    | |- ?C /\ (exists t r, @?P t r) =>
        cut (C /\ exists r, P receivedAt r); [intros [? [r ?]]; split; eauto|]
    end.
    cbv beta.
    pose proof (has_message_id_found (receiptData !! "messageId")
                  (VendorController.updateData lowered delivered (receiptData !! "failureReason")
                     (receiptData !! "vendorMessageId") receivedAt)
                  (communicationLogs (mongo w))) as Hfound.
    destruct (Mongoose.update_first _ _ (communicationLogs (mongo w))) as [[found|] logs].
    + destruct Hfound as [id Hmid]; [discriminate|].
      assert (Hstatus : exists s, receiptData !! "status" = Some (JStr s)).
      { destruct (receiptData !! "status") as [[]|]; try discriminate. eauto. }
      destruct Hstatus as [s Hs].
      cbn [fst snd]. rewrite !interpolate_run, Hmid, Hs.
      unfold console_log, ret; cbn [fst snd printable convertible]; simpl; rewrite Hdb; simpl.
      split; [reflexivity|]. eexists. repeat split.
    + cbn [fst snd]. rewrite !interpolate_run.
      destruct (printable (receiptData !! "messageId"));
        unfold console_log, ret; cbn [fst snd]; simpl; rewrite Hdb; simpl;
        (split; [reflexivity|]); eexists; repeat split.
Qed.


End Receipts.



(** ** The delivery engine *)

Lemma campaigns_kept_refl w : campaigns_kept w w.
Proof. repeat split. Qed.

Lemma campaigns_kept_trans w1 w2 w3 :
  campaigns_kept w1 w2 -> campaigns_kept w2 w3 -> campaigns_kept w1 w3.
Proof. unfold campaigns_kept. intros (-> & -> & ->) (-> & -> & ->). auto. Qed.

Lemma ambient_only_kept w w' : ambient_only w w' -> campaigns_kept w w'.
Proof. intros (R & M & V). unfold campaigns_kept. rewrite M, R. auto. Qed.

Lemma sent_one_kept w w' b n : sent_one w w' b n -> campaigns_kept w w'.
Proof. intros (R & M & _). unfold campaigns_kept. rewrite M, R. auto. Qed.

(** A quiet step in front of a computation, for campaign-level facts. *)
Lemma wp_quiet_kept {A B} (m : M A) (k : A -> M B) (Q : result B -> World -> Prop) w :
  quiet m ->
  (forall a w1, campaigns_kept w w1 -> wp (k a) Q w1) ->
  wp (bind m k) Q w.
Proof.
  intros Hm Hk. apply wp_quiet_bind; [exact Hm|].
  intros a w1 Hw. apply Hk, ambient_only_kept, Hw.
Qed.

Lemma alter_found {V} (f : V -> V) (id : string) (m : gmap string V) (x : V) :
  m !! id = Some x -> <[id := f x]> m = alter f id m.
Proof.
  intros H. apply map_eq. intros j. destruct (decide (id = j)) as [<-|Hne].
  - rewrite lookup_insert_eq, lookup_alter_eq, H. reflexivity.
  - rewrite lookup_insert_ne, lookup_alter_ne by auto. reflexivity.
Qed.

Lemma alter_missing {V} (f : V -> V) (id : string) (m : gmap string V) :
  m !! id = None -> alter f id m = m.
Proof.
  intros H. apply map_eq. intros j. destruct (decide (id = j)) as [<-|Hne].
  - rewrite lookup_alter_eq, H. reflexivity.
  - rewrite lookup_alter_ne by auto. reflexivity.
Qed.

(** [Campaign.findByIdAndUpdate]: rejected, or the update applied to the
    campaign if it is there and recorded in the history. *)
Lemma wp_findByIdAndUpdate id update w :
  wp (Mongoose.Campaign_findByIdAndUpdate id update)
     (fun r w1 =>
        redis w1 = redis w /\ vendor w1 = vendor w /\ ambient w1 = ambient w /\
        mongo_faults (mongo w1) = (next_fault (mongo_faults (mongo w))).2 /\
        match (next_fault (mongo_faults (mongo w))).1 with
        | Some e => r = Throw e /\ campaigns_kept w w1
        | None =>
            r = Ok (campaigns (mongo w) !! id) /\
            campaigns (mongo w1) = alter update id (campaigns (mongo w)) /\
            campaign_writes (mongo w1) =
              campaign_writes (mongo w) ++ written id update (campaigns (mongo w))
        end) w.
Proof.
  unfold wp, Mongoose.Campaign_findByIdAndUpdate.
  match goal with |- context [Mongoose.command ?run w] =>
    destruct (mongo_command_cases run w) as (Hcase & R & V & A)
  end.
  cbv zeta in Hcase. unfold campaigns_kept, written.
  destruct (next_fault (mongo_faults (mongo w))).1 as [e|]; destruct Hcase as [Hr Hdb];
    rewrite Hr, Hdb, R; cbn [campaigns campaign_writes mongo_faults].
  - repeat split; auto.
  - destruct (campaigns (mongo w) !! id) as [doc|] eqn:Hdoc; cbn.
    + rewrite (alter_found _ _ _ _ Hdoc). repeat split; auto.
    + rewrite (alter_missing _ _ _ Hdoc), app_nil_r. repeat split; auto.
Qed.

Lemma wp_insertMany logs w :
  wp (Mongoose.CommunicationLog_insertMany logs)
     (fun r w1 => campaigns_kept w w1 /\ (forall stored, r = Ok stored -> stored = logs)) w.
Proof.
  unfold wp, Mongoose.CommunicationLog_insertMany.
  match goal with |- context [Mongoose.command ?run w] =>
    destruct (mongo_command_cases run w) as (Hcase & R & V & A)
  end.
  cbv zeta in Hcase. unfold campaigns_kept.
  destruct (next_fault (mongo_faults (mongo w))).1 as [e|]; destruct Hcase as [Hr Hdb];
    rewrite Hr, Hdb, R; cbn; repeat split; auto; congruence.
Qed.

Lemma wp_updateMany filter update w :
  wp (Mongoose.CommunicationLog_updateMany filter update)
     (fun r w1 => campaigns_kept w w1) w.
Proof.
  unfold wp, Mongoose.CommunicationLog_updateMany.
  match goal with |- context [Mongoose.command ?run w] =>
    destruct (mongo_command_cases run w) as (Hcase & R & V & A)
  end.
  cbv zeta in Hcase. unfold campaigns_kept.
  destruct (next_fault (mongo_faults (mongo w))).1 as [e|]; destruct Hcase as [Hr Hdb];
    rewrite Hdb, R; cbn; repeat split; auto.
Qed.

(** What [sendEmail] is called with: null, which cannot be destructured, or
    a value with properties. *)
Lemma sendEmail_any_cases email :
  (email = JNull /\
   VendorAPIService.sendEmail_any email =
     throw "Cannot destructure property 'messageId' of 'emailData' as it is null.") \/
  (email <> JNull /\
   VendorAPIService.sendEmail_any email = VendorAPIService.sendEmail (fields email)).
Proof. destruct email; (left; split; [reflexivity|reflexivity]) || (right; split; [discriminate|reflexivity]). Qed.

(** The loop of [sendBulkEmails] counts every email once, as sent or as
    failed, when it comes to its end, and leaves the campaigns alone. *)
Lemma wp_sendEach emails : forall results w,
  wp (VendorAPIService.sendEach emails results)
     (fun r w' =>
        campaigns_kept w w' /\
        forall counted,
          r = Ok counted ->
          (VendorAPIService.sent counted + VendorAPIService.failed counted =
           VendorAPIService.sent results + VendorAPIService.failed results + length emails)%nat) w.
Proof.
  induction emails as [|email later IH]; intros results w; simpl.
  - apply wp_ret. split; [apply campaigns_kept_refl|]. intros ? [= <-]. simpl. lia.
  - apply wp_bind. apply wp_try_catch.
    destruct (sendEmail_any_cases email) as [[-> Hsend]|[Hemail Hsend]]; rewrite Hsend.
    + apply wp_bind. apply wp_throw. apply wp_throw.
      split; [apply campaigns_kept_refl|]. discriminate.
    + apply wp_bind. eapply wp_mono; [apply wp_sendEmail|].
      intros r w1 (isSuccess & result & -> & Hstatus & Hsuccess & Hone).
      apply sent_one_kept in Hone.
      apply wp_quiet_kept; [destruct later; auto with quiet|].
      intros _ w2 Hw2. apply wp_ret.
      eapply wp_mono; [apply IH|]. cbv beta.
      intros r w3 (Hw3 & Hcount).
      split; [eauto using campaigns_kept_trans|].
      intros counted ->. rewrite (Hcount counted eq_refl).
      cbn [VendorAPIService.sent VendorAPIService.failed].
      destruct (VendorAPIService.success result && _); simpl; lia.
Qed.

Lemma wp_sendBulkEmails emailBatch w :
  wp (VendorAPIService.sendBulkEmails emailBatch)
     (fun r w' =>
        campaigns_kept w w' /\
        forall results,
          r = Ok results ->
          (VendorAPIService.sent results + VendorAPIService.failed results = length emailBatch)%nat) w.
Proof.
  unfold VendorAPIService.sendBulkEmails.
  apply wp_quiet_kept; [auto with quiet|]. intros _ w1 Hw1.
  apply wp_bind. eapply wp_mono; [apply wp_sendEach|]. cbv beta.
  intros [counted|e] w2 (Hw2 & Hcount).
  - specialize (Hcount counted eq_refl). simpl in Hcount.
    apply wp_quiet_kept; [auto with quiet|]. intros _ w3 Hw3.
    apply wp_ret. split; [eauto using campaigns_kept_trans|]. intros ? [= <-]. exact Hcount.
  - split; [eauto using campaigns_kept_trans|]. discriminate.
Qed.

(** The singleton as the engine calls it: it either rejects or accounts for
    every email of the batch. *)
Lemma wp_vendorAPI_sendBulkEmails emailBatch w :
  wp (VendorAPIService.vendorAPI_sendBulkEmails emailBatch)
     (fun r w' =>
        campaigns_kept w w' /\
        forall results, r = Ok results ->
          (VendorAPIService.sent results + VendorAPIService.failed results = length emailBatch)%nat) w.
Proof.
  unfold wp, VendorAPIService.vendorAPI_sendBulkEmails.
  destruct (next_fault (bulk_faults (vendor w))) as [[e|] rest].
  - simpl. split; [repeat split|]. discriminate.
  - match goal with |- context [VendorAPIService.sendBulkEmails ?batch ?w1] =>
      pose proof (wp_sendBulkEmails batch w1) as H; unfold wp in H;
      destruct (VendorAPIService.sendBulkEmails batch w1) as [r w2]
    end.
    simpl in *. destruct H as (Hkept & Hcount).
    split; [exact Hkept|]. intros results ->. rewrite (Hcount results eq_refl), length_map. reflexivity.
Qed.

Section Engine.

Variable personalizeMessage : string -> CampaignConsumer.Customer -> string.
Variable generateEmailHTML :
  CampaignConsumer.MessageContent -> CampaignConsumer.Customer -> string.

Lemma quiet_buildLogs customers campaignId messageContent :
  quiet (CampaignConsumer.buildLogs personalizeMessage customers campaignId messageContent).
Proof.
  induction customers as [|customer rest IH]; simpl.
  - apply quiet_ret.
  - apply quiet_bind; [auto with quiet|]. intros message_id.
    apply quiet_bind; [exact IH|]. intros logs. apply quiet_ret.
Qed.

Lemma wp_createCommunicationLogs customers campaignId messageContent w :
  wp (CampaignConsumer.createCommunicationLogs personalizeMessage customers campaignId messageContent)
     (fun r w' => campaigns_kept w w') w.
Proof.
  unfold CampaignConsumer.createCommunicationLogs.
  apply wp_quiet_kept; [apply quiet_buildLogs|]. intros logs w1 Hw1.
  eapply wp_mono; [apply wp_insertMany|]. cbv beta.
  intros r w2 [Hw2 _]. eauto using campaigns_kept_trans.
Qed.

(** Building the emails of a batch is a pure computation: it returns one
    email per customer or throws. *)
Lemma wp_emailBatch_from batch : forall index communicationLogs campaignId messageContent w,
  wp (CampaignConsumer.emailBatch_from personalizeMessage generateEmailHTML index batch
        communicationLogs campaignId messageContent)
     (fun r w' => w' = w /\ forall mails, r = Ok mails -> length mails = length batch) w.
Proof.
  induction batch as [|customer rest IH]; intros index communicationLogs campaignId messageContent w;
    simpl.
  - apply wp_ret. split; [reflexivity|]. intros ? [= <-]. reflexivity.
  - destruct (communicationLogs !! index) as [log|].
    + apply wp_bind. eapply wp_mono; [apply IH|]. cbv beta.
      intros [mails|e] w1 [-> Hlen].
      * apply wp_ret. split; [reflexivity|]. intros ? [= <-]. simpl. rewrite (Hlen mails); auto.
      * split; [reflexivity|]. discriminate.
    + apply wp_throw. split; [reflexivity|]. discriminate.
Qed.

(** The batch loop counts every recipient of every batch once, as sent or
    as failed, whatever the vendor's decisions and whichever batches the
    vendor rejects, and it writes no campaign. *)
Lemma wp_deliverBatches job batchCount batches : forall batchIndex sentCount failedCount w,
  wp (CampaignConsumer.deliverBatches personalizeMessage generateEmailHTML job batchCount
        batchIndex batches sentCount failedCount)
     (fun r w' =>
        campaigns_kept w w' /\
        forall counts, r = Ok counts ->
          (counts.1 + counts.2 = sentCount + failedCount + length (concat batches))%nat) w.
Proof.
  induction batches as [|batch later IH]; intros batchIndex sentCount failedCount w; simpl.
  - apply wp_ret. split; [apply campaigns_kept_refl|]. intros ? [= <-]. simpl. lia.
  - apply wp_quiet_kept; [auto with quiet|]. intros _ w1 Hw1.
    apply wp_bind. eapply wp_mono; [apply wp_createCommunicationLogs|]. cbv beta.
    intros [communicationLogs|e] w2 Hw2;
      [|split; [eauto using campaigns_kept_trans|discriminate]].
    apply wp_bind. eapply wp_mono; [apply wp_emailBatch_from|]. cbv beta.
    intros [emailBatch|e] w3 [-> Hmails];
      [|split; [eauto using campaigns_kept_trans|discriminate]].
    specialize (Hmails emailBatch eq_refl).
    apply wp_bind. apply wp_try_catch. apply wp_bind.
    eapply wp_mono; [apply wp_vendorAPI_sendBulkEmails|]. cbv beta.
    intros [batchResult|batchError] w4 [Hw4 Hcount].
    + specialize (Hcount batchResult eq_refl).
      apply wp_quiet_kept; [auto with quiet|]. intros _ w5 Hw5.
      apply wp_quiet_kept; [destruct (_ <? _)%nat; auto with quiet|]. intros _ w6 Hw6.
      apply wp_ret. eapply wp_mono; [apply IH|]. cbv beta.
      intros r w7 [Hw7 Hsum]. split; [eauto 10 using campaigns_kept_trans|].
      intros counts ->. rewrite (Hsum counts eq_refl). simpl. rewrite length_app. lia.
    + apply wp_quiet_kept; [auto with quiet|]. intros _ w5 Hw5.
      apply wp_quiet_kept; [auto with quiet|]. intros now w6 Hw6.
      apply wp_bind. eapply wp_mono; [apply wp_updateMany|]. cbv beta.
      intros [[]|e] w7 Hw7; [|split; [eauto 10 using campaigns_kept_trans|discriminate]].
      apply wp_ret. eapply wp_mono; [apply IH|]. cbv beta.
      intros r w8 [Hw8 Hsum]. split; [eauto 10 using campaigns_kept_trans|].
      intros counts ->. rewrite (Hsum counts eq_refl). simpl. rewrite length_app. lia.
Qed.

End Engine.

Section Lifecycle.

Variable personalizeMessage : string -> CampaignConsumer.Customer -> string.
Variable generateEmailHTML :
  CampaignConsumer.MessageContent -> CampaignConsumer.Customer -> string.

Abbreviation delivery := (CampaignConsumer.delivery personalizeMessage generateEmailHTML).

(** The [try] block of [deliverCampaign], by cases: the first update is
    rejected; or it is applied and something later throws; or everything
    returns and the final update is applied. *)
Lemma delivery_cases job w :
  exists started_at,
    (Date_now w).1 = Ok started_at /\
    wp (delivery job)
       (fun r w1 =>
          redis w1 = redis w /\
          match (next_fault (mongo_faults (mongo w))).1 with
          | Some e => r = Throw e /\ campaigns_kept w w1
          | None =>
              let id := CampaignConsumer.campaignId job in
              let audience := length (CampaignConsumer.customers job) in
              let stored := alter (CampaignConsumer.set_processing started_at) id (campaigns (mongo w)) in
              let history :=
                campaign_writes (mongo w) ++
                written id (CampaignConsumer.set_processing started_at) (campaigns (mongo w)) in
              ((exists e, r = Throw e) /\
               campaigns (mongo w1) = stored /\ campaign_writes (mongo w1) = history) \/
              (exists completed_at sentCount failedCount,
                 r = Ok tt /\
                 (sentCount + failedCount = audience)%nat /\
                 let update :=
                   CampaignConsumer.set_completed completed_at
                     (CampaignConsumer.delivery_stats sentCount failedCount audience) in
                 campaigns (mongo w1) = alter update id stored /\
                 campaign_writes (mongo w1) = history ++ written id update stored)
          end) w.
Proof.
  destruct (quiet_Date_now w) as [[started_at Hstart] Hw1].
  exists started_at. split; [exact Hstart|].
  unfold CampaignConsumer.delivery. apply wp_bind. unfold wp at 1. rewrite Hstart.
  set (w1 := (Date_now w).2) in *. destruct Hw1 as (R1 & M1 & V1).
  apply wp_bind. eapply wp_mono; [apply wp_findByIdAndUpdate|]. cbv beta.
  intros r w2 (R2 & V2 & A2 & F2 & Hcase). rewrite M1 in Hcase.
  destruct (next_fault (mongo_faults (mongo w))).1 as [e|].
  { destruct Hcase as [-> (C & H & R)]. unfold campaigns_kept.
    rewrite R2, R1, C, H, M1. auto. }
  destruct Hcase as (-> & Hstored & Hhistory). cbv zeta.
  assert (Hthrown : forall e w', campaigns_kept w2 w' ->
            redis w' = redis w /\
            (((exists e0, Throw (A:=unit) e = Throw e0) /\
              campaigns (mongo w') =
                alter (CampaignConsumer.set_processing started_at)
                      (CampaignConsumer.campaignId job) (campaigns (mongo w)) /\
              campaign_writes (mongo w') =
                campaign_writes (mongo w) ++
                written (CampaignConsumer.campaignId job)
                        (CampaignConsumer.set_processing started_at) (campaigns (mongo w))) \/
             (exists completed_at sentCount failedCount,
                Throw e = Ok tt /\
                (sentCount + failedCount = length (CampaignConsumer.customers job))%nat /\
                campaigns (mongo w') =
                  alter (CampaignConsumer.set_completed completed_at
                           (CampaignConsumer.delivery_stats sentCount failedCount (length (CampaignConsumer.customers job))))
                        (CampaignConsumer.campaignId job)
                        (alter (CampaignConsumer.set_processing started_at)
                               (CampaignConsumer.campaignId job) (campaigns (mongo w))) /\
                campaign_writes (mongo w') =
                  (campaign_writes (mongo w) ++
                   written (CampaignConsumer.campaignId job)
                           (CampaignConsumer.set_processing started_at) (campaigns (mongo w))) ++
                  written (CampaignConsumer.campaignId job)
                    (CampaignConsumer.set_completed completed_at
                       (CampaignConsumer.delivery_stats sentCount failedCount (length (CampaignConsumer.customers job))))
                    (alter (CampaignConsumer.set_processing started_at)
                           (CampaignConsumer.campaignId job) (campaigns (mongo w)))))).
  { intros e w' (C & H & R). rewrite R, R2, R1. split; [reflexivity|]. left.
    rewrite C, H, Hstored, Hhistory. eauto. }
  apply wp_quiet_kept; [auto with quiet|]. intros _ w3 Hw3.
  destruct (createBatches_returns (CampaignConsumer.customers job) CampaignConsumer.batchSize)
    as (batches & Hbatches & Hconcat & _); [unfold CampaignConsumer.batchSize; lia|].
  rewrite Hbatches. cbn [default from_option]. unfold id.
  apply wp_bind. eapply wp_mono; [apply wp_deliverBatches|]. cbv beta.
  intros [counts|e] w4 [Hw4 Hsum]; [|apply Hthrown; eauto using campaigns_kept_trans].
  specialize (Hsum counts eq_refl). rewrite Hconcat in Hsum. simpl in Hsum.
  apply wp_quiet_kept; [auto with quiet|]. intros completed_at w5 Hw5.
  apply wp_bind. eapply wp_mono; [apply wp_findByIdAndUpdate|]. cbv beta.
  intros r w6 (R6 & V6 & A6 & F6 & Hcase).
  pose proof (campaigns_kept_trans _ _ _ Hw3 (campaigns_kept_trans _ _ _ Hw4 Hw5)) as (C5 & H5 & R5).
  destruct (next_fault (mongo_faults (mongo w5))).1 as [e|].
  { destruct Hcase as [-> Hw6]. apply Hthrown.
    eauto 10 using campaigns_kept_trans. }
  destruct Hcase as (-> & Hstored' & Hhistory').
  eapply wp_mono; [apply wp_console_log|]. cbv beta. intros r w7 [-> (R7 & M7 & V7)].
  rewrite R7, R6, R5, R2, R1. split; [reflexivity|]. right.
  exists completed_at, counts.1, counts.2.
  rewrite M7, Hstored', Hhistory', C5, H5, Hstored, Hhistory.
  repeat split; auto.
Qed.

(** The [catch] block of [deliverCampaign]: it marks the campaign failed and
    throws the error on, unless the update itself is rejected. *)
Lemma delivery_failed_cases job e w :
  exists completed_at,
    wp (CampaignConsumer.delivery_failed job e)
       (fun r w1 =>
          redis w1 = redis w /\
          match (next_fault (mongo_faults (mongo w))).1 with
          | Some e' => r = Throw e' /\ campaigns_kept w w1
          | None =>
              let update := CampaignConsumer.set_failed completed_at e in
              r = Throw e /\
              campaigns (mongo w1) = alter update (CampaignConsumer.campaignId job) (campaigns (mongo w)) /\
              campaign_writes (mongo w1) =
                campaign_writes (mongo w) ++
                written (CampaignConsumer.campaignId job) update (campaigns (mongo w))
          end) w.
Proof.
  unfold CampaignConsumer.delivery_failed.
  set (w1 := (console_log ("Campaign delivery failed for " +:+ CampaignConsumer.campaignId job +:+
                           ": " +:+ e) w).2).
  assert (Hw1 : ambient_only w w1) by (subst w1; unfold console_log; simpl; repeat split).
  destruct (quiet_Date_now w1) as [[completed_at Hdate] (R2 & M2 & V2)].
  exists completed_at.
  apply wp_bind. unfold wp at 1. unfold console_log at 1. cbn [fst snd]. fold w1.
  apply wp_bind. unfold wp at 1. rewrite Hdate.
  destruct Hw1 as (R1 & M1 & V1).
  apply wp_bind. eapply wp_mono; [apply wp_findByIdAndUpdate|]. cbv beta.
  intros r w3 (R3 & V3 & A3 & F3 & Hcase). rewrite M2, M1 in Hcase.
  rewrite R2, R1 in R3.
  destruct (next_fault (mongo_faults (mongo w))).1 as [e'|].
  - destruct Hcase as [-> (C & H & R)]. split; [exact R3|]. split; [reflexivity|].
    unfold campaigns_kept. rewrite C, H, M2, M1, R3. auto.
  - destruct Hcase as (-> & C & H). apply wp_throw. auto.
Qed.

End Lifecycle.

Section Campaigns.

Variable personalizeMessage : string -> CampaignConsumer.Customer -> string.
Variable generateEmailHTML :
  CampaignConsumer.MessageContent -> CampaignConsumer.Customer -> string.

Abbreviation delivery := (CampaignConsumer.delivery personalizeMessage generateEmailHTML).
Abbreviation deliverCampaign :=
  (CampaignConsumer.deliverCampaign personalizeMessage generateEmailHTML).

(** [deliverCampaign] is its [try] block, followed by its [catch] block when
    the [try] block throws. *)
Lemma deliverCampaign_unfold job w :
  deliverCampaign job w =
    match (delivery job w).1 with
    | Ok a => (Ok a, (delivery job w).2)
    | Throw e => CampaignConsumer.delivery_failed job e (delivery job w).2
    end.
Proof.
  unfold CampaignConsumer.deliverCampaign, try_catch.
  destruct (delivery job w) as [[a|e] w1]; reflexivity.
Qed.

(** The [catch] block always throws. *)
Lemma delivery_failed_throws job e w :
  exists e', (CampaignConsumer.delivery_failed job e w).1 = Throw e'.
Proof.
  destruct (delivery_failed_cases job e w) as (completed_at & H). unfold wp in H.
  destruct H as [_ H].
  destruct (next_fault (mongo_faults (mongo w))).1; destruct H as [-> _]; eauto.
Qed.

(** C3 (amended). When [deliverCampaign] over N recipients returns without
    throwing, whatever the vendor decided for each email and whichever
    batches it rejected as a whole, the campaign has been updated to status
    completed with a completion time and with delivery statistics in which
    total is N, sent + failed is N, and the success rate is the string
    [(sent / N * 100).toFixed(2)]: the percentage rounded to two decimals
    ("NaN" when N is 0). *)
Theorem delivery_completes job w :
  (deliverCampaign job w).1 = Ok tt ->
  let id := CampaignConsumer.campaignId job in
  let audience := length (CampaignConsumer.customers job) in
  let final := (deliverCampaign job w).2 in
  exists started_at completed_at stats,
    ds_total stats = audience /\
    (ds_sent stats + ds_failed stats = audience)%nat /\
    ds_success_rate stats =
      toFixed2 (PrimFloat.mul (PrimFloat.div (Number_of (ds_sent stats)) (Number_of audience))
                              (Number_of 100)) /\
    campaigns (mongo final) =
      alter (CampaignConsumer.set_completed completed_at stats) id
        (alter (CampaignConsumer.set_processing started_at) id (campaigns (mongo w))) /\
    forall doc, campaigns (mongo w) !! id = Some doc ->
      exists doc',
        campaigns (mongo final) !! id = Some doc' /\
        last (campaign_writes (mongo final)) = Some (id, doc') /\
        c_status doc' = Completed /\
        c_completed_at doc' = Some completed_at /\
        c_delivery_stats doc' = Some stats.
Proof.
  intros Hok. cbv zeta. rewrite deliverCampaign_unfold in *.
  destruct (delivery_cases personalizeMessage generateEmailHTML job w) as (started_at & _ & H).
  unfold wp in H. destruct H as [_ H].
  destruct (delivery job w) as [[[]|e] w1]; cbn [fst snd] in *.
  - destruct (next_fault (mongo_faults (mongo w))).1; [destruct H; discriminate|].
    cbv zeta in H. destruct H as [[[e He] _]|H]; [discriminate|].
    destruct H as (completed_at & sentCount & failedCount & _ & Hsum & Hstored & Hhistory).
    exists started_at, completed_at,
      (CampaignConsumer.delivery_stats sentCount failedCount (length (CampaignConsumer.customers job))).
    repeat split; auto.
    intros doc Hdoc. eexists. rewrite Hstored, Hhistory.
    rewrite !lookup_alter_eq, Hdoc. cbn [fmap option_fmap option_map].
    unfold written at 2. rewrite lookup_alter_eq, Hdoc. cbn [fmap option_fmap option_map].
    rewrite last_snoc. repeat split.
  - destruct (delivery_failed_throws job e w1) as [e' He']. rewrite He' in Hok. discriminate.
Qed.

End Campaigns.

Lemma delivery_completes_witness :
  let final :=
    (CampaignConsumer.deliverCampaign Scenario.verbatim Scenario.no_html Scenario.three_recipients
       (Scenario.with_campaign Scenario.created [])).2 in
  exists doc stats,
    campaigns (mongo final) !! "c1" = Some doc /\
    c_status doc = Completed /\
    c_delivery_stats doc = Some stats /\
    ds_total stats = 3%nat /\
    (ds_sent stats + ds_failed stats = 3)%nat.
Proof.
  destruct (delivery_completes Scenario.verbatim Scenario.no_html Scenario.three_recipients
              (Scenario.with_campaign Scenario.created []) ltac:(vm_compute; reflexivity))
    as (started_at & completed_at & stats & Htotal & Hsum & _ & _ & Hdoc).
  destruct (Hdoc Scenario.created eq_refl) as (doc & Hfinal & _ & Hstatus & _ & Hstats).
  exists doc, stats. repeat split; assumption.
Defined.

(** C3, as stated, fails on the success rate: with one of three emails
    accepted, the campaign is updated with the string "33.33", the
    hundredths 3333, whereas [sent / total * 100] is the number
    33.33333333333333 (here with its exact value); for no recipients the
    stored rate is the string "NaN". *)
Lemma success_rate_is_rounded :
  let final :=
    (CampaignConsumer.deliverCampaign Scenario.verbatim Scenario.no_html Scenario.three_recipients
       (Scenario.with_campaign Scenario.created [])).2 in
  let quotient := PrimFloat.mul (PrimFloat.div (Number_of 1) (Number_of 3)) (Number_of 100) in
  (c_delivery_stats <$> (campaigns (mongo final) !! "c1")) =
    Some (Some {| ds_sent := 1; ds_failed := 2; ds_total := 3; ds_success_rate := "33.33" |}) /\
  two_decimals 3333 = "33.33" /\
  exact quotient = Some (4691249611844266 # 140737488355328)%Q /\
  ~ (4691249611844266 # 140737488355328 == 3333 # 100)%Q /\
  CampaignConsumer.success_rate 0 0 = "NaN".
Proof.
  cbv zeta. split; [vm_compute; reflexivity|]. split; [vm_compute; reflexivity|].
  split; [vm_compute; reflexivity|]. split; [|vm_compute; reflexivity].
  unfold Qeq. simpl. lia.
Qed.

Section Failure.

Variable personalizeMessage : string -> CampaignConsumer.Customer -> string.
Variable generateEmailHTML :
  CampaignConsumer.MessageContent -> CampaignConsumer.Customer -> string.
Variable fields_of : Job -> CampaignConsumer.DeliverJob.

Abbreviation try_block := (CampaignConsumer.delivery personalizeMessage generateEmailHTML).
Abbreviation engine := (CampaignConsumer.deliverCampaign personalizeMessage generateEmailHTML).
Abbreviation dispatcher :=
  (CampaignConsumer.processCampaignJob personalizeMessage generateEmailHTML fields_of).

(** The first console line of the dispatcher: printed, or the TypeError of
    a type or campaign id that cannot be converted. *)
Lemma announce_run job w :
  CampaignConsumer.announce job w =
    if printable (job !! "type") && printable (job !! "campaignId")
    then console_log ("Processing campaign job: " +:+ template (job !! "type") +:+
                      " for campaign " +:+ template (job !! "campaignId")) w
    else (Throw not_primitive, w).
Proof.
  unfold CampaignConsumer.announce, bind, interpolate, lift, converted.
  destruct (printable (job !! "type")); [|reflexivity].
  destruct (printable (job !! "campaignId")); reflexivity.
Qed.

(** The dispatcher throws on whatever the engine throws. *)
Lemma processCampaignJob_rethrows job w logged :
  is_type (job !! "type") "DELIVER_CAMPAIGN" = true ->
  CampaignConsumer.announce job w = (Ok tt, logged) ->
  forall e, (engine (fields_of job) logged).1 = Throw e ->
    (dispatcher job w).1 = Throw e /\
    mongo (dispatcher job w).2 = mongo (engine (fields_of job) logged).2 /\
    redis (dispatcher job w).2 = redis (engine (fields_of job) logged).2.
Proof.
  intros Htype Hlogged e He.
  unfold CampaignConsumer.processCampaignJob, try_catch, bind.
  rewrite Hlogged, Htype.
  rewrite announce_run in Hlogged.
  destruct (printable (job !! "type")); [|discriminate].
  destruct (printable (job !! "campaignId")) eqn:Hid; [|discriminate].
  destruct (engine _ _) as [r w1]. cbn [fst snd] in *. subst r.
  rewrite interpolate_run, Hid. unfold console_log, throw. cbn [fst snd]. auto.
Qed.

(** C7 (amended). When the [try] block of [deliverCampaign] throws: if the
    update of the [catch] block is applied, the campaign (if stored) is set
    to status failed with a completion time and with the error's message as
    failure reason, and the same error is thrown on; if MongoDB rejects
    that update too, the campaign stays as it was and the update's error is
    thrown instead.  Either way an error is thrown, the dispatcher throws it
    on, and the consumer loop dead-letters the job with that error's message
    whenever Redis accepts the enqueue onto [campaign.jobs:failed].  (The
    job has reached the engine: the dispatcher has printed its first line
    and called it in the state [w] that line left.) *)
Theorem delivery_failure job w e :
  (try_block job w).1 = Throw e ->
  let thrown_at := (try_block job w).2 in
  let id := CampaignConsumer.campaignId job in
  let run := engine job w in
  (exists e', run.1 = Throw e') /\
  match (next_fault (mongo_faults (mongo thrown_at))).1 with
  | None =>
      run.1 = Throw e /\
      exists completed_at,
        campaigns (mongo run.2) =
          alter (CampaignConsumer.set_failed completed_at e) id (campaigns (mongo thrown_at)) /\
        forall doc, campaigns (mongo thrown_at) !! id = Some doc ->
          exists doc',
            campaigns (mongo run.2) !! id = Some doc' /\
            c_status doc' = Failed /\
            c_completed_at doc' = Some completed_at /\
            c_failure_reason doc' = Some e
  | Some e' =>
      run.1 = Throw e' /\ campaigns (mongo run.2) = campaigns (mongo thrown_at)
  end /\
  (forall raw w0 before e',
     fields_of raw = job ->
     is_type (raw !! "type") "DELIVER_CAMPAIGN" = true ->
     queues (redis w0) !! "campaign.jobs" = Some (before ++ [raw]) ->
     (next_fault (redis_faults (redis w0))).1 = None ->
     let started :=
       (console_log ("Processing job " +:+ template (raw !! "id") +:+ " from " +:+ "campaign.jobs")
                    (RedisService.brPop "campaign.jobs" 10 w0).2).2 in
     CampaignConsumer.announce raw started = (Ok tt, w) ->
     run.1 = Throw e' ->
     (next_fault (redis_faults (redis run.2))).1 = None ->
     let final := (RedisService.iteration "campaign.jobs" dispatcher w0).2 in
     (dispatcher raw started).1 = Throw e' /\
     campaigns (mongo final) = campaigns (mongo run.2) /\
     exists entry,
       RedisService.elements final "campaign.jobs:failed" =
         entry :: RedisService.elements run.2 "campaign.jobs:failed" /\
       entry !! "error" = Some (JStr e') /\
       entry !! "type" = Some (JStr "DELIVER_CAMPAIGN")).
Proof.
  intros Hthrow. cbv zeta.
  assert (Hrun : engine job w = CampaignConsumer.delivery_failed job e (try_block job w).2).
  { rewrite deliverCampaign_unfold, Hthrow. reflexivity. }
  split; [rewrite Hrun; apply delivery_failed_throws|].
  split.
  - rewrite Hrun.
    destruct (delivery_failed_cases job e (try_block job w).2) as (completed_at & H).
    unfold wp in H. destruct H as [_ H].
    destruct (next_fault (mongo_faults (mongo (try_block job w).2))).1 as [e'|].
    + destruct H as [Hres (C & _)]. auto.
    + cbv zeta in H. destruct H as (Hres & Hstored & _). split; [exact Hres|].
      exists completed_at. split; [exact Hstored|].
      intros doc Hdoc. eexists. rewrite Hstored, lookup_alter_eq, Hdoc.
      cbn [fmap option_fmap option_map]. repeat split.
  - intros raw w0 before e' Hfields Htype Hq Hfault. cbv zeta. intros Hw He' Hpush.
    destruct (processCampaignJob_rethrows raw
                (console_log ("Processing job " +:+ template (raw !! "id") +:+ " from " +:+ "campaign.jobs")
                   (RedisService.brPop "campaign.jobs" 10 w0).2).2 w Htype Hw e')
      as (Hdispatch & Hmongo & Hredis).
    { rewrite Hfields. exact He'. }
    split; [exact Hdispatch|].
    rewrite Hfields in Hredis, Hmongo.
    destruct (iteration_dead_letter "campaign.jobs" dispatcher w0 before raw e' Hq Hfault Hdispatch)
      as (Hfinal & _ & failedAt & id & timestamp & _ & _ & _ & Hqs).
    split; [rewrite Hfinal, Hmongo; reflexivity|].
    rewrite Hredis, Hpush in Hqs.
    unfold RedisService.elements in Hqs. rewrite Hredis in Hqs.
    apply elements_after_push in Hqs. destruct Hqs as [Hhead _].
    eexists. split; [exact Hhead|].
    destruct (jobData_fields (RedisService.failedJob raw e' failedAt) id timestamp)
      as (_ & _ & _ & Hkeep).
    destruct (failedJob_fields raw e' failedAt) as (Herror & _ & Hkeep').
    assert (Hout : forall key (keys : list string),
              forallb (fun k => negb (String.eqb key k)) keys = true -> key ∉ keys).
    { intros key keys. induction keys as [|k keys IH]; simpl; [intros _; apply not_elem_of_nil|].
      intros Hk. apply andb_true_iff in Hk. destruct Hk as [Hk Hrest].
      apply not_elem_of_cons. split; [|auto].
      apply negb_true_iff, String.eqb_neq in Hk. exact Hk. }
    rewrite !Hkeep by (apply Hout; reflexivity).
    rewrite Herror, Hkeep' by (apply Hout; reflexivity).
    split; [reflexivity|].
    unfold is_type in Htype. destruct (raw !! "type") as [[]|]; try discriminate.
    apply String.eqb_eq in Htype. subst. reflexivity.
Qed.

(** C4 (amended). Take a campaign that is pending, with no completion time,
    when its DELIVER_CAMPAIGN job starts.  The writes one run of the engine
    makes to it change its status along pending -> processing -> completed,
    pending -> processing -> failed, or, when the update to processing is
    itself rejected, pending -> failed (a run whose updates are rejected may
    also stop at pending or at processing); after every write the completion
    time is set exactly when the status is completed or failed; the campaign
    ends completed exactly when the engine returns; and no other campaign is
    written.  (The engine does not look at the status it finds, so nothing of
    this holds for a campaign that is not pending at the start.) *)
Theorem campaign_lifecycle job w doc :
  campaigns (mongo w) !! CampaignConsumer.campaignId job = Some doc ->
  c_status doc = Pending ->
  c_completed_at doc = None ->
  let id := CampaignConsumer.campaignId job in
  let run := engine job w in
  exists writes,
    campaign_writes (mongo run.2) = campaign_writes (mongo w) ++ writes /\
    campaigns (mongo run.2) !! id = Some (default doc (snd <$> last writes)) /\
    (forall other, other <> id -> campaigns (mongo run.2) !! other = campaigns (mongo w) !! other) /\
    Forall (fun write : string * Campaign =>
              write.1 = id /\
              (is_Some (c_completed_at write.2) <->
               c_status write.2 = Completed \/ c_status write.2 = Failed)) writes /\
    (map (fun write : string * Campaign => c_status write.2) writes = [] \/
     map (fun write : string * Campaign => c_status write.2) writes = [Processing] \/
     map (fun write : string * Campaign => c_status write.2) writes = [Processing; Completed] \/
     map (fun write : string * Campaign => c_status write.2) writes = [Processing; Failed] \/
     map (fun write : string * Campaign => c_status write.2) writes = [Failed]) /\
    (run.1 = Ok tt <->
     map (fun write : string * Campaign => c_status write.2) writes = [Processing; Completed]).
Proof.
  intros Hdoc Hpending Hnone. cbv zeta.
  assert (Hiff : forall (c : Campaign) (s : CampaignStatus) (t : option Z),
            c_status c = s -> c_completed_at c = t ->
            (s = Completed \/ s = Failed -> is_Some t) ->
            (is_Some t -> s = Completed \/ s = Failed) ->
            is_Some (c_completed_at c) <-> c_status c = Completed \/ c_status c = Failed).
  { intros c s t -> ->. tauto. }
  assert (Hnot : ~ is_Some (@None Z)) by (intros [? ?]; discriminate).
  rewrite deliverCampaign_unfold.
  destruct (delivery_cases personalizeMessage generateEmailHTML job w) as (started_at & _ & H).
  unfold wp in H. destruct H as [_ H].
  set (tried := try_block job w) in *.
  destruct (next_fault (mongo_faults (mongo w))).1 as [e|].
  - (* the update to processing is rejected *)
    destruct H as [Hres (C & Hw & _)]. rewrite Hres.
    destruct (delivery_failed_cases job e tried.2) as (completed_at & H').
    unfold wp in H'. destruct H' as [_ H'].
    destruct (next_fault (mongo_faults (mongo tried.2))).1 as [e'|].
    + destruct H' as [Hres' (C' & Hw' & _)]. exists [].
      rewrite Hres', C', Hw', C, Hw, app_nil_r. simpl.
      repeat split; auto; try discriminate.
    + cbv zeta in H'. destruct H' as (Hres' & C' & Hw').
      exists [(CampaignConsumer.campaignId job, CampaignConsumer.set_failed completed_at e doc)].
      rewrite Hres', C', Hw', C, Hw. unfold written. rewrite Hdoc, lookup_alter_eq, Hdoc. simpl.
      repeat split; auto; try discriminate.
      * intros other Hother. apply lookup_alter_ne. auto.
      * constructor; [|constructor]. simpl. split; [reflexivity|]. split; eauto.
  - cbv zeta in H.
    assert (Hstep : alter (CampaignConsumer.set_processing started_at) (CampaignConsumer.campaignId job)
                      (campaigns (mongo w)) !! CampaignConsumer.campaignId job =
                    Some (CampaignConsumer.set_processing started_at doc))
      by (rewrite lookup_alter_eq, Hdoc; reflexivity).
    unfold written in H. rewrite Hdoc, Hstep in H.
    destruct H as [([e He] & C & Hw)|(completed_at & sentCount & failedCount & Hres & _ & C & Hw)].
    + (* processing, then an error *)
      rewrite He.
      destruct (delivery_failed_cases job e tried.2) as (completed_at & H').
      unfold wp in H'. destruct H' as [_ H'].
      destruct (next_fault (mongo_faults (mongo tried.2))).1 as [e'|].
      * destruct H' as [Hres' (C' & Hw' & _)].
        exists [(CampaignConsumer.campaignId job, CampaignConsumer.set_processing started_at doc)].
        rewrite Hres', C', Hw', C, Hw, Hstep. simpl.
        repeat split; auto; try discriminate.
        -- intros other Hother. apply lookup_alter_ne. auto.
        -- constructor; [|constructor]. simpl. split; [reflexivity|].
           rewrite Hnone. split; [intros Hs; destruct (Hnot Hs)|intros [|]; discriminate].
      * cbv zeta in H'. destruct H' as (Hres' & C' & Hw').
        exists [(CampaignConsumer.campaignId job, CampaignConsumer.set_processing started_at doc);
                (CampaignConsumer.campaignId job,
                 CampaignConsumer.set_failed completed_at e
                   (CampaignConsumer.set_processing started_at doc))].
        rewrite Hres', C', Hw', C, Hw. unfold written. rewrite Hstep, lookup_alter_eq, Hstep.
        rewrite <- app_assoc. simpl.
        repeat split; auto; try discriminate.
        -- intros other Hother. rewrite !lookup_alter_ne by auto. reflexivity.
        -- constructor; [|constructor; [|constructor]]; simpl; (split; [reflexivity|]).
           ++ rewrite Hnone. split; [intros Hs; destruct (Hnot Hs)|intros [|]; discriminate].
           ++ split; eauto.
    + (* processing, then completed *)
      rewrite Hres. cbn [fst snd].
      exists [(CampaignConsumer.campaignId job, CampaignConsumer.set_processing started_at doc);
              (CampaignConsumer.campaignId job,
               CampaignConsumer.set_completed completed_at
                 (CampaignConsumer.delivery_stats sentCount failedCount
                    (length (CampaignConsumer.customers job)))
                 (CampaignConsumer.set_processing started_at doc))].
      rewrite C, Hw, lookup_alter_eq, Hstep. rewrite <- app_assoc. simpl.
      repeat split; auto; try discriminate.
      * intros other Hother. rewrite !lookup_alter_ne by auto. reflexivity.
      * constructor; [|constructor; [|constructor]]; simpl; (split; [reflexivity|]).
        -- rewrite Hnone. split; [intros Hs; destruct (Hnot Hs)|intros [|]; discriminate].
        -- split; eauto.
Qed.

End Failure.

Lemma delivery_failure_witness :
  let handler :=
    CampaignConsumer.processCampaignJob Scenario.verbatim Scenario.no_html Scenario.fields_of in
  let final := (RedisService.iteration "campaign.jobs" handler Scenario.campaign_queued).2 in
  exists doc entry,
    campaigns (mongo final) !! "c1" = Some doc /\
    c_status doc = Failed /\
    c_failure_reason doc = Some "E11000 duplicate key error" /\
    RedisService.elements final "campaign.jobs:failed" = [entry] /\
    entry !! "error" = Some (JStr "E11000 duplicate key error").
Proof.
  set (started :=
         (console_log "Processing job 1699999999990-i from campaign.jobs"
            (RedisService.brPop "campaign.jobs" 10 Scenario.campaign_queued).2).2).
  set (w := (console_log "Processing campaign job: DELIVER_CAMPAIGN for campaign c1" started).2).
  pose proof (delivery_failure Scenario.verbatim Scenario.no_html Scenario.fields_of
                Scenario.three_recipients w "E11000 duplicate key error"
                ltac:(vm_compute; reflexivity)) as H.
  cbv zeta in H. destruct H as (_ & Hmarked & Hloop).
  assert (E : (next_fault (mongo_faults (mongo
                 (CampaignConsumer.delivery Scenario.verbatim Scenario.no_html
                    Scenario.three_recipients w).2))).1 = None)
    by (vm_compute; reflexivity).
  rewrite E in Hmarked. destruct Hmarked as (Hres & completed_at & _ & Hdoc).
  edestruct Hdoc as (doc & Hfinal & Hstatus & _ & Hreason); [vm_compute; reflexivity|].
  destruct (Hloop Scenario.campaign_job Scenario.campaign_queued [] "E11000 duplicate key error")
    as (_ & Hcampaigns & entry & Hhead & Herror & _);
    [vm_compute; reflexivity | reflexivity | reflexivity | reflexivity
    | reflexivity | exact Hres | vm_compute; reflexivity |].
  exists doc, entry. cbv zeta. rewrite Hcampaigns.
  split; [exact Hfinal|]. split; [exact Hstatus|]. split; [exact Hreason|].
  split; [|exact Herror]. rewrite Hhead. f_equal.
Defined.

(** C7, as stated, fails when the update of the [catch] block is rejected as
    well: with MongoDB down the [try] block throws at its first update, the
    engine throws, and the campaign is still pending, with no completion time
    and no failure reason. *)
Lemma failure_not_recorded :
  let w := Scenario.with_campaign Scenario.created (replicate 4 (Some "connection timed out")) in
  let run :=
    CampaignConsumer.deliverCampaign Scenario.verbatim Scenario.no_html Scenario.three_recipients w in
  (CampaignConsumer.delivery Scenario.verbatim Scenario.no_html Scenario.three_recipients w).1 =
    Throw "connection timed out" /\
  run.1 = Throw "connection timed out" /\
  campaigns (mongo run.2) !! "c1" = Some Scenario.created /\
  c_status Scenario.created = Pending.
Proof. by_evaluation. Qed.

Lemma campaign_lifecycle_witness :
  let run :=
    CampaignConsumer.deliverCampaign Scenario.verbatim Scenario.no_html Scenario.three_recipients
      (Scenario.with_campaign Scenario.created []) in
  map (fun write : string * Campaign => c_status write.2) (campaign_writes (mongo run.2)) =
    [Processing; Completed].
Proof.
  destruct (campaign_lifecycle Scenario.verbatim Scenario.no_html Scenario.three_recipients
              (Scenario.with_campaign Scenario.created []) Scenario.created
              eq_refl eq_refl eq_refl)
    as (writes & Hwrites & _ & _ & _ & _ & Hreturns).
  cbv zeta. rewrite Hwrites. apply Hreturns. vm_compute. reflexivity.
Defined.

(** C4, as stated, fails for a campaign that is already completed when a
    DELIVER_CAMPAIGN job for it arrives (a job enqueued twice, or replayed
    from the dead-letter list): its status goes from completed back to
    processing, and while it is processing its completion time is still
    set. *)
Lemma completed_campaign_reprocessed :
  let run :=
    CampaignConsumer.deliverCampaign Scenario.verbatim Scenario.no_html Scenario.three_recipients
      (Scenario.with_campaign Scenario.delivered []) in
  c_status Scenario.delivered = Completed /\
  map (fun write : string * Campaign => (write.1, c_status write.2, c_completed_at write.2))
      (campaign_writes (mongo run.2)) =
    [("c1", Processing, Some 1699999999000); ("c1", Completed, Some 1700000000070)].
Proof. by_evaluation. Qed.

(* ===================================================================== *)
(** * Further properties *)
(* ===================================================================== *)

(** ** The queue discipline of the broker *)

(** A tape that answers [n + 1] commands answers the next one, and [n] more
    after it. *)
Lemma answers_next n tape :
  answers (S n) tape -> (next_fault tape).1 = None /\ answers n (next_fault tape).2.
Proof.
  unfold answers. destruct tape as [|f rest]; simpl.
  - intros _. split; [reflexivity|]. rewrite take_nil. constructor.
  - intros H. apply Forall_cons in H. destruct H as [-> H]. auto.
Qed.

Lemma answers_first n tape : answers (S n) tape -> (next_fault tape).1 = None.
Proof. intros H. apply (answers_next n tape H). Qed.

Lemma answers_drop n m tape : answers (n + m) tape -> answers m (drop n tape).
Proof.
  revert tape. induction n as [|n IH]; intros tape H; [exact H|].
  destruct tape as [|f rest]; simpl.
  - unfold answers. rewrite take_nil. constructor.
  - apply IH. unfold answers in *. simpl in H. apply Forall_cons in H. apply H.
Qed.

Lemma answers_fewer n m tape : answers (n + m) tape -> answers n tape.
Proof.
  unfold answers. revert tape. induction n as [|n IH]; intros tape H; [constructor|].
  destruct tape as [|f rest]; simpl in *; [constructor|].
  apply Forall_cons in H. destruct H as [Hf H]. constructor; auto.
Qed.

(** A BRPOP on an empty queue times out and changes nothing. *)
Lemma brPop_empty key timeout w :
  RedisService.elements w key = [] ->
  (next_fault (redis_faults (redis w))).1 = None ->
  (RedisService.brPop key timeout w).1 = Ok None /\
  queues (redis (RedisService.brPop key timeout w).2) = queues (redis w) /\
  redis_faults (redis (RedisService.brPop key timeout w).2) = (next_fault (redis_faults (redis w))).2 /\
  mongo (RedisService.brPop key timeout w).2 = mongo w /\
  vendor (RedisService.brPop key timeout w).2 = vendor w /\
  ambient (RedisService.brPop key timeout w).2 = ambient w.
Proof.
  intros Hq Hfault. unfold RedisService.brPop.
  match goal with |- context [RedisService.command ?run w] =>
    destruct (redis_command_cases run w) as (Hcase & Hfaults & Hm & Hv & Ha)
  end.
  rewrite Hfault in Hcase. cbv beta in Hcase.
  unfold RedisService.elements in Hq.
  destruct (queues (redis w) !! key) as [l|]; simpl in Hq, Hcase.
  - subst l. simpl in Hcase. destruct Hcase as [Hr Hqs]. auto 10.
  - destruct Hcase as [Hr Hqs]. auto 10.
Qed.

(** Popping as many times as jobs wait returns them oldest first and
    empties the queue. *)
Lemma drain_waiting key waiting : forall w,
  RedisService.elements w key = waiting ->
  answers (length waiting) (redis_faults (redis w)) ->
  (drain key (length waiting) w).1 = Ok (map Some (rev waiting)) /\
  RedisService.elements (drain key (length waiting) w).2 key = [] /\
  redis_faults (redis (drain key (length waiting) w).2) =
    drop (length waiting) (redis_faults (redis w)).
Proof.
  induction waiting as [|job before IH] using rev_ind; intros w Hq Htape.
  - simpl. auto.
  - rewrite length_app, Nat.add_comm in *. simpl in *.
    apply answers_next in Htape. destruct Htape as [Hfault Htape].
    assert (Hsome : queues (redis w) !! key = Some (before ++ [job])).
    { unfold RedisService.elements in Hq.
      destruct (queues (redis w) !! key) as [l|]; simpl in Hq; [congruence|].
      destruct before; discriminate. }
    destruct (brPop_tail key 10 w before job Hsome Hfault) as (Hpop & Hrest & _ & Hfaults & _).
    unfold bind. destruct (RedisService.brPop key 10 w) as [r w1]. simpl in Hpop, Hrest, Hfaults.
    subst r. rewrite <- Hfaults in Htape.
    destruct (IH w1 Hrest Htape) as (Hrun & Hempty & Htail).
    destruct (drain key (length before) w1) as [r w2]. simpl in *. subst r.
    rewrite rev_app_distr. simpl. repeat split; auto.
    rewrite Htail, Hfaults. destruct (redis_faults (redis w)); simpl; [apply drop_nil|reflexivity].
Qed.

(** Popping [n + m] times is popping [n] times and then [m] times. *)
Lemma drain_app key n m w :
  drain key (n + m) w =
    (let* first := drain key n in let* later := drain key m in ret (first ++ later)) w.
Proof.
  revert w. induction n as [|n IH]; intros w; simpl.
  - unfold bind, ret. destruct (drain key m w) as [[l|e] w1]; reflexivity.
  - unfold bind, ret in *. destruct (RedisService.brPop key 10 w) as [[x|e] w1]; [|reflexivity].
    rewrite IH. destruct (drain key n w1) as [[l|e] w2]; [|reflexivity].
    destruct (drain key m w2) as [[l'|e] w3]; reflexivity.
Qed.

(** X1. Jobs leave a queue in the order they entered it.  Take a queue with
    some jobs waiting and a Redis that answers: after [addToQueue] stores
    one more job, successive BRPOPs return the jobs that were waiting,
    oldest first, then the new job with the id and timestamp the broker
    gave it, and then nothing: the queue is empty. *)
Theorem queue_is_fifo queueName job w :
  answers (length (RedisService.elements w queueName) + 3) (redis_faults (redis w)) ->
  exists id timestamp,
    (RedisService.fresh_id w).1 = Ok id /\
    (Date_now (RedisService.fresh_id w).2).1 = Ok timestamp /\
    let queued := (RedisService.addToQueue queueName job w).2 in
    (drain queueName (length (RedisService.elements w queueName) + 2) queued).1 =
      Ok (map Some (rev (RedisService.elements w queueName)) ++
          [Some (RedisService.jobData job id timestamp); None]).
Proof.
  intros Htape. set (waiting := RedisService.elements w queueName) in *.
  destruct (addToQueue_cases queueName job w) as (_ & _ & Hfaults & id & timestamp & Hid & Hts & Hcase).
  rewrite Nat.add_comm in Htape. simpl in Htape.
  apply answers_next in Htape. destruct Htape as [Hfault Htape].
  rewrite Hfault in Hcase. destruct Hcase as [_ Hqs].
  exists id, timestamp. split; [exact Hid|]. split; [exact Hts|]. cbv zeta.
  set (queued := (RedisService.addToQueue queueName job w).2) in *.
  rewrite <- Hfaults in Htape.
  assert (Hq : RedisService.elements queued queueName =
               RedisService.jobData job id timestamp :: waiting).
  { unfold RedisService.elements at 1. rewrite Hqs, lookup_insert_eq. reflexivity. }
  replace (length waiting + 2)%nat with (length (RedisService.jobData job id timestamp :: waiting) + 1)%nat
    by (simpl; lia).
  rewrite drain_app. unfold bind.
  destruct (drain_waiting queueName _ queued Hq) as (Hrun & Hempty & Htail).
  { apply (answers_fewer _ 1). simpl. replace (S (length waiting + 1)) with (2 + length waiting)%nat by lia.
    exact Htape. }
  destruct (drain queueName (length (RedisService.jobData job id timestamp :: waiting)) queued)
    as [r w1]. simpl in Hrun, Hempty, Htail. subst r.
  assert (Hnext : (next_fault (redis_faults (redis w1))).1 = None).
  { apply (answers_first 0). rewrite Htail. apply answers_drop.
    simpl. replace (S (length waiting + 1)) with (2 + length waiting)%nat by lia. exact Htape. }
  simpl. unfold bind.
  destruct (brPop_empty queueName 10 w1 Hempty Hnext) as (Hpop & _).
  destruct (RedisService.brPop queueName 10 w1) as [r w2]. simpl in Hpop. subst r.
  simpl. rewrite map_app. simpl. rewrite <- app_assoc. reflexivity.
Qed.

(** One job waits in the customer queue and a second one is added. *)
Lemma queue_is_fifo_witness :
  exists id timestamp,
    (drain "customer.jobs" 3
       (RedisService.addToQueue "customer.jobs" Scenario.archive_job Scenario.queued).2).1 =
      Ok [Some Scenario.queued_job;
          Some (RedisService.jobData Scenario.archive_job id timestamp);
          None].
Proof.
  destruct (queue_is_fifo "customer.jobs" Scenario.archive_job Scenario.queued) as (id & ts & _ & _ & H).
  - repeat constructor.
  - exists id, ts. exact H.
Defined.

(** The dead-letter list of a queue is another key than the queue. *)
Lemma append_length (a b : string) : String.length (a +:+ b) = (String.length a + String.length b)%nat.
Proof. induction a as [|c a IH]; simpl; [reflexivity|]. f_equal. exact IH. Qed.

Lemma failed_queue_differs (queueName : string) : queueName +:+ ":failed" <> queueName.
Proof.
  intros H. apply (f_equal String.length) in H. rewrite append_length in H. simpl in H. lia.
Qed.

(** X2. An enqueue is all or nothing.  [addToQueue] either returns, and then
    Redis accepted the LPUSH and exactly one entry, the stamped job, stands
    at the head of the queue; or it throws the very error Redis rejected
    the LPUSH with, and then the keyspace is as it was.  Either way no other
    queue, no document and no vendor state changes. *)
Theorem enqueue_all_or_nothing queueName job w :
  let run := RedisService.addToQueue queueName job w in
  mongo run.2 = mongo w /\ vendor run.2 = vendor w /\
  (forall other, other <> queueName ->
     RedisService.elements run.2 other = RedisService.elements w other) /\
  match run.1 with
  | Ok _ =>
      (next_fault (redis_faults (redis w))).1 = None /\
      exists id timestamp,
        RedisService.elements run.2 queueName =
          RedisService.jobData job id timestamp :: RedisService.elements w queueName
  | Throw e =>
      (next_fault (redis_faults (redis w))).1 = Some e /\
      queues (redis run.2) = queues (redis w)
  end.
Proof.
  cbv zeta.
  destruct (addToQueue_cases queueName job w) as (Hm & Hv & _ & id & timestamp & _ & _ & Hcase).
  split; [exact Hm|]. split; [exact Hv|].
  destruct (next_fault (redis_faults (redis w))).1 as [e|]; destruct Hcase as [Hr Hqs]; rewrite Hr.
  - split; [|auto]. intros other _. unfold RedisService.elements. rewrite Hqs. reflexivity.
  - split.
    + intros other Hne. unfold RedisService.elements. rewrite Hqs, lookup_insert_ne by auto. reflexivity.
    + split; [reflexivity|]. exists id, timestamp.
      unfold RedisService.elements at 1. rewrite Hqs, lookup_insert_eq. reflexivity.
Qed.

(** X3. An accepted enqueue shows in the statistics: when Redis answers the
    LPUSH and the two LLENs, [getQueueStats] after [addToQueue] reports one
    pending job more than the queue held, the same number of failed jobs,
    and their sum. *)
Theorem enqueue_counts queueName job w :
  answers 3 (redis_faults (redis w)) ->
  let queued := (RedisService.addToQueue queueName job w).2 in
  (RedisService.getQueueStats queueName queued).1 =
    Ok {| RedisService.pending := S (length (RedisService.elements w queueName));
          RedisService.failed := length (RedisService.elements w (queueName +:+ ":failed"));
          RedisService.total :=
            S (length (RedisService.elements w queueName)) +
            length (RedisService.elements w (queueName +:+ ":failed")) |}.
Proof.
  intros Htape. cbv zeta.
  destruct (addToQueue_cases queueName job w) as (_ & _ & Hfaults & id & timestamp & _ & _ & Hcase).
  apply answers_next in Htape. destruct Htape as [Hfault Htape].
  rewrite Hfault in Hcase. destruct Hcase as [_ Hqs].
  set (queued := (RedisService.addToQueue queueName job w).2) in *.
  rewrite <- Hfaults in Htape.
  pose proof (getQueueStats_reads queueName queued) as Hstats. cbv zeta in Hstats.
  destruct (answers_next _ _ Htape) as [H1 Htape'].
  destruct (answers_next _ _ Htape') as [H2 _].
  rewrite H1, H2 in Hstats. rewrite Hstats.
  unfold RedisService.elements. rewrite Hqs, lookup_insert_eq.
  rewrite lookup_insert_ne by (intros H; symmetry in H; revert H; apply failed_queue_differs).
  reflexivity.
Qed.

(** A second job in the customer queue: two pending, none failed. *)
Lemma enqueue_counts_witness :
  (RedisService.getQueueStats "customer.jobs"
     (RedisService.addToQueue "customer.jobs" Scenario.archive_job Scenario.queued).2).1 =
    Ok {| RedisService.pending := 2; RedisService.failed := 0; RedisService.total := 2 |}.
Proof.
  apply (enqueue_counts "customer.jobs" Scenario.archive_job Scenario.queued).
  repeat constructor.
Defined.

(** X4. The consumer loop survives whatever happens in a turn: any number
    of turns of [processQueue] returns normally, whatever the handler and
    Redis do.  A turn that finds the queue empty, or whose BRPOP Redis
    rejects, does not run the handler at all (the turn is the same for every
    handler) and leaves the keyspace, the documents and the vendor alone. *)
Theorem consumer_loop_survives queueName callback w :
  (forall n, (RedisService.processQueue queueName callback n w).1 = Ok tt) /\
  (RedisService.elements w queueName = [] \/ (next_fault (redis_faults (redis w))).1 <> None ->
   forall other : Job -> M unit,
     RedisService.iteration queueName other w = RedisService.iteration queueName callback w /\
     queues (redis (RedisService.iteration queueName callback w).2) = queues (redis w) /\
     mongo (RedisService.iteration queueName callback w).2 = mongo w /\
     vendor (RedisService.iteration queueName callback w).2 = vendor w).
Proof.
  split; [intros n; apply processQueue_returns|].
  intros Hidle other.
  unfold RedisService.iteration, try_catch, bind.
  destruct (next_fault (redis_faults (redis w))).1 as [e|] eqn:Hfault.
  - unfold RedisService.brPop.
    match goal with |- context [RedisService.command ?run w] =>
      destruct (redis_command_cases run w) as (Hcase & _ & Hm & Hv & _)
    end.
    rewrite Hfault in Hcase. destruct Hcase as [Hr Hqs].
    destruct (RedisService.command _ w) as [r w1]. simpl in *. subst r.
    unfold console_log, sleep, ret. simpl. auto.
  - destruct Hidle as [Hempty|Hno]; [|congruence].
    destruct (brPop_empty queueName 10 w Hempty Hfault) as (Hpop & Hqs & _ & Hm & Hv & _).
    destruct (RedisService.brPop queueName 10 w) as [r w1]. simpl in *. subst r.
    unfold ret. simpl. auto.
Qed.

(** ** Dispatch and batching *)

(** X5. The customer dispatcher runs the handler of the job's type, and no
    other, on [job.data]: when the handler returns, the dispatcher returns
    in the handler's final state; when it throws, the dispatcher logs the
    failure and throws the same error.  A type without a handler raises
    "Unknown job type: <type>", which is logged in the same way.  All this
    for a type that can be converted to a string: for one that cannot (an
    object with a member [toString]) the dispatcher throws the TypeError of
    the conversion at its first console line and runs no handler. *)
Theorem customer_job_dispatch
    (createCustomer updateCustomer deleteCustomer bulkImportCustomers updateCustomerStats :
       option json -> M unit)
    (job : Job) (w : World) :
  let run :=
    CustomerConsumer.processCustomerJob createCustomer updateCustomer deleteCustomer
      bulkImportCustomers updateCustomerStats job w in
  let type := job !! "type" in
  let started := (console_log ("Processing customer job: " +:+ template type) w).2 in
  let failed := fun e w' =>
    (Throw (A := unit) e,
     (console_log ("Customer job " +:+ template type +:+ " failed: " +:+ e) w').2) in
  if printable type then
    match handler_for (customer_handlers createCustomer updateCustomer deleteCustomer
                         bulkImportCustomers updateCustomerStats) type with
    | Some handler =>
        match handler (job !! "data") started with
        | (Ok _, w') => run = (Ok tt, w')
        | (Throw e, w') => run = failed e w'
        end
    | None => run = failed ("Unknown job type: " +:+ template type) started
    end
  else run = (Throw not_primitive, w).
Proof.
  cbv zeta.
  unfold CustomerConsumer.processCustomerJob, handler_for, customer_handlers, try_catch, bind,
    interpolate, lift, converted, throw.
  destruct (printable (job !! "type")); [|reflexivity].
  cbn [List.find fst snd fmap option_fmap option_map].
  unfold console_log at 1 2 3 4 5 6 7. cbn [fst snd].
  repeat match goal with
  | |- context [is_type ?t ?s] => destruct (is_type t s); cbn [fmap option_fmap option_map snd]
  end;
  try (match goal with |- context [?h (job !! "data") ?w0] =>
         destruct (h (job !! "data") w0) as [[[]|e] w1] end; reflexivity).
  reflexivity.
Qed.

Section AnySize.

Context {A : Type}.

(** With batch size 0 the index never moves. *)
Lemma createBatches_stuck (array : list A) : array <> [] ->
  forall fuel batches, CampaignConsumer.createBatches_from fuel array 0 0 batches = None.
Proof.
  intros Hne. assert (Hlt : (0 <? length array)%nat = true).
  { apply Nat.ltb_lt. destruct array; [congruence|simpl; lia]. }
  induction fuel as [|fuel IH]; intros batches; simpl; rewrite Hlt; [reflexivity|apply IH].
Qed.

(** X6. [createBatches] for any batch size.  For a positive size the loop
    ends and returns the batches that cut the array up in order:
    ceil(N / size) of them, each full except possibly the last, none empty.
    For size 0 it returns no batch for an empty array and never ends for
    any other: no amount of fuel is enough. *)
Theorem createBatches_any_size (array : list A) (batchSize : nat) :
  match batchSize with
  | O =>
      if decide (array = [])
      then CampaignConsumer.createBatches array 0 = Some []
      else forall fuel, CampaignConsumer.createBatches_from fuel array 0 0 [] = None
  | S _ =>
      exists batches,
        CampaignConsumer.createBatches array batchSize = Some batches /\
        concat batches = array /\
        length batches = ((length array + (batchSize - 1)) / batchSize)%nat /\
        Forall (fun batch => (1 <= length batch <= batchSize)%nat) batches /\
        (forall j batch, batches !! j = Some batch -> (S j < length batches)%nat ->
           length batch = batchSize)
  end.
Proof.
  destruct batchSize as [|n].
  - case_decide as Harray.
    + subst array. reflexivity.
    + intros fuel. apply createBatches_stuck. exact Harray.
  - apply createBatches_returns. lia.
Qed.

End AnySize.

(** ** The vendor's bookkeeping *)

(** One send, with the callbacks it schedules: the one that reports the
    decision, and after it, when printing the recipient throws, the one of
    the [catch] block. *)
Lemma sendEmail_schedules emailData w :
  wp (VendorAPIService.sendEmail emailData)
     (fun r w' =>
        exists (isSuccess : bool) vendorMessageId timestamp failureReason delay,
          (isSuccess = true -> failureReason = None) /\
          let decided :=
            (delay,
             fun _ : Z =>
               VendorAPIService.receipt_of emailData (Some vendorMessageId)
                 (if isSuccess then "SENT" else "FAILED") timestamp failureReason) in
          if printable (emailData !! "to")
          then
            r = Ok {| VendorAPIService.success := true;
                      VendorAPIService.vendorMessageId := Some vendorMessageId;
                      VendorAPIService.status := if isSuccess then "SENT" else "FAILED";
                      VendorAPIService.estimatedDelivery :=
                        Some (if isSuccess then "1-3 minutes" else "Failed");
                      VendorAPIService.error := None |} /\
            timers (vendor w') = timers (vendor w) ++ [decided]
          else
            r = Ok {| VendorAPIService.success := false;
                      VendorAPIService.vendorMessageId := None;
                      VendorAPIService.status := "FAILED";
                      VendorAPIService.estimatedDelivery := None;
                      VendorAPIService.error := Some not_primitive |} /\
            timers (vendor w') =
              timers (vendor w) ++
              [decided;
               (100,
                fun timestamp : Z =>
                  VendorAPIService.receipt_of emailData None "FAILED" timestamp
                    (Some ("Vendor API Error: " +:+ not_primitive)))]) w.
Proof.
  unfold VendorAPIService.sendEmail.
  apply wp_try_catch.
  apply wp_quiet_bind; [auto with quiet|]. intros _ w1 (R1 & M1 & V1).
  apply wp_quiet_bind; [auto with quiet|]. intros d w2 (R2 & M2 & V2).
  apply wp_quiet_bind; [auto with quiet|]. intros vid w3 (R3 & M3 & V3).
  apply wp_quiet_bind; [auto with quiet|]. intros ts w4 (R4 & M4 & V4).
  apply wp_bind.
  eapply (wp_mono _ (fun r w5 =>
            (exists reason, r = Ok reason /\
               (PrimFloat.ltb (value d) VendorAPIService.nine_tenths = true -> reason = None)) /\
            ambient_only w4 w5)).
  { destruct (PrimFloat.ltb _ _).
    - apply wp_ret. split; [eauto|apply ambient_only_refl].
    - eapply wp_mono; [apply quiet_getRandomFailureReason|].
      intros r w5 [[reason ->] Hw]. split; [|exact Hw]. exists reason. split; [reflexivity|discriminate]. }
  intros r w5 [(reason & -> & Hreason) (R5 & M5 & V5)].
  apply wp_bind. eapply wp_mono; [apply wp_on_stats|].
  intros r w6 (-> & R6 & M6 & S6 & B6 & T6).
  apply wp_quiet_bind; [auto with quiet|]. intros delay w7 (R7 & M7 & V7).
  apply wp_bind. eapply wp_mono; [apply wp_setTimeout|].
  intros r w8 (-> & R8 & M8 & S8 & B8 & T8).
  assert (Htimers : timers (vendor w8) =
            timers (vendor w) ++
            [(delay,
              fun _ : Z =>
                VendorAPIService.receipt_of emailData (Some vid)
                  (if PrimFloat.ltb (value d) VendorAPIService.nine_tenths then "SENT" else "FAILED")
                  ts reason)]).
  { rewrite T8, V7, T6, V5, V4, V3, V2, V1. reflexivity. }
  apply wp_bind. unfold wp at 1. rewrite interpolate_run. cbn [fst snd].
  destruct (printable (emailData !! "to")).
  - apply wp_quiet_bind; [auto with quiet|]. intros _ w9 (R9 & M9 & V9). apply wp_ret.
    exists (PrimFloat.ltb (value d) VendorAPIService.nine_tenths), vid, ts, reason, delay.
    split; [exact Hreason|]. cbv zeta. split; [reflexivity|]. rewrite V9. exact Htimers.
  - apply wp_quiet_bind; [auto with quiet|]. intros _ w9 (R9 & M9 & V9).
    apply wp_bind. eapply wp_mono; [apply wp_setTimeout|].
    intros r w10 (-> & R10 & M10 & S10 & B10 & T10). apply wp_ret.
    exists (PrimFloat.ltb (value d) VendorAPIService.nine_tenths), vid, ts, reason, delay.
    split; [exact Hreason|]. cbv zeta. split; [reflexivity|].
    rewrite T10, V9, Htimers, <- app_assoc. reflexivity.
Qed.

(** The body of a receipt as the handler reads it: the message id of the
    email, if it has one, and the vendor's status. *)
Lemma receipt_body r :
  fields (VendorWebhook.receiptData r) !! "messageId" = r_messageId r /\
  fields (VendorWebhook.receiptData r) !! "status" = Some (JStr (r_status r)).
Proof.
  unfold VendorWebhook.receiptData, VendorWebhook.member, fields.
  destruct (r_messageId r), (r_recipient r), (r_campaignId r), (r_customerId r);
    split; reflexivity.
Qed.

(** A receipt that passes validation is not answered 400. *)
Lemma handleDeliveryReceipt_validated Date_parse receiptData w :
  truthy (receiptData !! "messageId") = true ->
  truthy (receiptData !! "status") = true ->
  exists response,
    (VendorController.handleDeliveryReceipt Date_parse receiptData w).1 = Ok response /\
    VendorController.statusCode response <> 400%nat.
Proof.
  intros Hid Hst.
  destruct (VendorController.lower_cased (receiptData !! "status")) as [lowered|e] eqn:Hlow.
  - destruct (VendorController.delivery_date Date_parse (receiptData !! "status")
                (receiptData !! "deliveredAt")) as [delivered|e] eqn:Hdate.
    + destruct (handleDeliveryReceipt_run Date_parse receiptData w lowered delivered Hid Hst Hlow Hdate)
        as (_ & receivedAt & response & _ & Hres & Hcase).
      exists response. split; [exact Hres|].
      destruct (next_fault (mongo_faults (mongo w))).1.
      * destruct Hcase as [-> _]. discriminate.
      * destruct Hcase as [_ ->].
        destruct (Mongoose.update_first _ _ _).1; [discriminate|].
        destruct (printable _); discriminate.
    + destruct (handleDeliveryReceipt_fails_early Date_parse receiptData w e Hid Hst) as [Hres _].
      { rewrite Hlow. exact Hdate. }
      eexists. split; [exact Hres|]. discriminate.
  - destruct (handleDeliveryReceipt_fails_early Date_parse receiptData w e Hid Hst) as [Hres _].
    { rewrite Hlow. reflexivity. }
    eexists. split; [exact Hres|]. discriminate.
Qed.


(** One email, two receipts, the first of which says SENT: the recipient
    cannot be converted. *)
Lemma unconvertible_recipient_two_receipts :
  let run := VendorAPIService.sendEmail (fields Cases.unconvertible_email) Scenario.fresh in
  run.1 = Ok {| VendorAPIService.success := false;
                VendorAPIService.vendorMessageId := None;
                VendorAPIService.status := "FAILED";
                VendorAPIService.estimatedDelivery := None;
                VendorAPIService.error := Some "Cannot convert object to primitive value" |} /\
  totalSent (deliveryStats (vendor run.2)) = 1%nat /\
  map (fun timer => r_status (timer.2 0)) (timers (vendor run.2)) = ["SENT"; "FAILED"] /\
  map (fun timer => r_vendorMessageId (timer.2 0)) (timers (vendor run.2)) =
    [Some "vendor_0_"; None].
Proof. by_evaluation. Qed.


(** The loop of [sendBulkEmails] on emails none of which is null, email by
    email: one detail, one count and one update of the statistics for each,
    and one callback, or two for a recipient that cannot be printed. *)
Lemma sendEach_accounts emails : forall results w,
  Forall (fun email => email <> JNull) emails ->
  wp (VendorAPIService.sendEach emails results)
     (fun r w' =>
        redis w' = redis w /\ mongo w' = mongo w /\
        bulk_faults (vendor w') = bulk_faults (vendor w) /\
        length (timers (vendor w')) =
          (length (timers (vendor w)) + length emails +
           length (List.filter (fun email => negb (addressable email)) emails))%nat /\
        totalSent (deliveryStats (vendor w')) =
          (totalSent (deliveryStats (vendor w)) + length emails)%nat /\
        exists final new,
          r = Ok final /\
          VendorAPIService.total final = VendorAPIService.total results /\
          VendorAPIService.details final = VendorAPIService.details results ++ new /\
          map VendorAPIService.d_to new = map (fun email => fields email !! "to") emails /\
          map VendorAPIService.d_messageId new =
            map (fun email => fields email !! "messageId") emails /\
          VendorAPIService.sent final =
            (VendorAPIService.sent results +
             length (filter (fun d => VendorAPIService.d_status d = "SENT") new))%nat /\
          VendorAPIService.failed final =
            (VendorAPIService.failed results +
             length (filter (fun d => VendorAPIService.d_status d = "FAILED") new))%nat /\
          (length (filter (fun d => VendorAPIService.d_status d = "SENT") new) +
           length (filter (fun d => VendorAPIService.d_status d = "FAILED") new) = length emails)%nat /\
          (forallb addressable emails = true ->
           stats_moved (deliveryStats (vendor w)) (deliveryStats (vendor w'))
             (VendorAPIService.sent final - VendorAPIService.sent results)
             (VendorAPIService.failed final - VendorAPIService.failed results))) w.
Proof.
  induction emails as [|email later IH]; intros results w Hemails; simpl.
  - apply wp_ret. repeat split; [lia|lia|]. exists results, []. rewrite app_nil_r. simpl.
    repeat split; lia.
  - apply Forall_cons in Hemails. destruct Hemails as [Hemail Hlater].
    apply wp_bind. apply wp_try_catch.
    destruct (sendEmail_any_cases email) as [[-> _]|[_ Hsend]]; [congruence|]. rewrite Hsend.
    apply wp_bind.
    eapply wp_mono; [apply wp_sendEmail|].
    intros r w1 (isSuccess & result & -> & Hstatus & Hsuccess & R1 & M1 & S1 & B1 & T1).
    apply wp_quiet_bind; [destruct later; auto with quiet|].
    intros _ w2 (R2 & M2 & V2). apply wp_ret.
    eapply wp_mono; [apply (IH _ _ Hlater)|]. cbv beta.
    intros r w3 (R3 & M3 & B3 & T3 & N3 & final & new & -> & Htotal & Hdetails & Hto & Hid &
                 Hsent & Hfailed & Hsum & Hcount).
    rewrite V2 in *. rewrite R3, R2, R1, M3, M2, M1, B3, B1, T3, T1, N3, S1.
    fold (addressable email) in *.
    split; [reflexivity|]. split; [reflexivity|]. split; [reflexivity|].
    split; [destruct (addressable email); simpl; lia|].
    split; [simpl; lia|].
    cbn [VendorAPIService.sent VendorAPIService.failed VendorAPIService.total
         VendorAPIService.details] in *.
    eexists final, (_ :: new). split; [reflexivity|]. split; [exact Htotal|].
    split; [rewrite Hdetails, <- app_assoc; reflexivity|].
    cbn [map VendorAPIService.d_to VendorAPIService.d_messageId].
    split; [f_equal; exact Hto|]. split; [f_equal; exact Hid|].
    rewrite !filter_cons. cbn [VendorAPIService.d_status].
    rewrite Hsuccess, Hstatus in *.
    destruct (addressable email) eqn:Hprint; destruct isSuccess;
      cbn [andb String.eqb Ascii.eqb Bool.eqb fst snd] in *;
      repeat case_decide; try discriminate; try congruence;
      cbn [length] in *;
      (split; [lia|]); (split; [lia|]); (split; [lia|]);
      (lazymatch goal with
       | |- false = true -> _ => discriminate
       | _ =>
           intros Hall; specialize (Hcount Hall); destruct Hcount as (C1 & C2 & C3);
           rewrite S1 in C1, C2, C3;
           cbn [VendorAPIService.updateStats totalSent successful stat_failed] in *;
           unfold stats_moved; repeat split; lia
       end).
Qed.

(** The loop stops at a null email: the [catch] block of that turn throws
    in its turn. *)
Lemma sendEach_null emails : forall results w,
  JNull ∈ emails ->
  wp (VendorAPIService.sendEach emails results)
     (fun r w' =>
        r = Throw "Cannot read properties of null (reading 'to')" /\
        redis w' = redis w /\ mongo w' = mongo w) w.
Proof.
  induction emails as [|email later IH]; intros results w Hnull; simpl.
  - apply elem_of_nil in Hnull. destruct Hnull.
  - apply wp_bind. apply wp_try_catch.
    destruct (sendEmail_any_cases email) as [[-> Hsend]|[Hemail Hsend]]; rewrite Hsend.
    + apply wp_bind. apply wp_throw. apply wp_throw. auto.
    + apply elem_of_cons in Hnull. destruct Hnull as [Hnull|Hnull]; [congruence|].
      apply wp_bind. eapply wp_mono; [apply wp_sendEmail|].
      intros r w1 (isSuccess & result & -> & _ & _ & R1 & M1 & _).
      apply wp_quiet_bind; [destruct later; auto with quiet|].
      intros _ w2 (R2 & M2 & V2). apply wp_ret.
      eapply wp_mono; [apply (IH _ _ Hnull)|]. cbv beta.
      intros r w3 (-> & R3 & M3). rewrite R3, M3, R2, M2, R1, M1. auto.
Qed.

(** [sendBulkEmails] as a whole, on a batch without null. *)
Lemma wp_sendBulkEmails_accounts emailBatch w :
  Forall (fun email => email <> JNull) emailBatch ->
  wp (VendorAPIService.sendBulkEmails emailBatch)
     (fun r w' =>
        exists results,
          r = Ok results /\
          VendorAPIService.total results = length emailBatch /\
          (VendorAPIService.sent results + VendorAPIService.failed results)%nat =
            length emailBatch /\
          map VendorAPIService.d_to (VendorAPIService.details results) =
            map (fun email => fields email !! "to") emailBatch /\
          map VendorAPIService.d_messageId (VendorAPIService.details results) =
            map (fun email => fields email !! "messageId") emailBatch /\
          VendorAPIService.sent results =
            length (filter (fun d => VendorAPIService.d_status d = "SENT")
                      (VendorAPIService.details results)) /\
          totalSent (deliveryStats (vendor w')) =
            (totalSent (deliveryStats (vendor w)) + length emailBatch)%nat /\
          (forallb addressable emailBatch = true ->
           stats_moved (deliveryStats (vendor w)) (deliveryStats (vendor w'))
             (VendorAPIService.sent results) (VendorAPIService.failed results)) /\
          length (timers (vendor w')) =
            (length (timers (vendor w)) + length emailBatch +
             length (List.filter (fun email => negb (addressable email)) emailBatch))%nat /\
          redis w' = redis w /\ mongo w' = mongo w) w.
Proof.
  intros Hemails. unfold VendorAPIService.sendBulkEmails.
  apply wp_quiet_bind; [auto with quiet|]. intros _ w1 (R1 & M1 & V1).
  apply wp_bind. eapply wp_mono; [apply (sendEach_accounts _ _ _ Hemails)|]. cbv beta.
  intros r w2 (R2 & M2 & B2 & T2 & N2 & final & new & -> & Htotal & Hdetails & Hto & Hid &
               Hsent & Hfailed & Hsum & Hcount).
  apply wp_quiet_bind; [auto with quiet|]. intros _ w3 (R3 & M3 & V3).
  apply wp_ret. exists final.
  cbn [VendorAPIService.sent VendorAPIService.failed VendorAPIService.total
       VendorAPIService.details app] in *.
  rewrite !Nat.sub_0_r in Hcount.
  rewrite V3, R3, R2, R1, M3, M2, M1, T2, N2, Hdetails, V1 in *.
  split; [reflexivity|]. split; [exact Htotal|]. split; [lia|].
  split; [exact Hto|]. split; [exact Hid|]. split; [lia|]. split; [lia|].
  split; [exact Hcount|]. split; [lia|]. split; reflexivity.
Qed.

(** X8. A bulk send accounts for every email of a batch without null.
    [sendBulkEmails] then returns a result with [total] equal to the size of
    the batch and [sent + failed = total]; [details] lists the emails in
    order, each with its recipient and message id, and [sent] is the number
    of details with status SENT.  The vendor's [totalSent] moves by the size
    of the batch, and when every recipient can be printed [successful] moves
    by [sent] and [failed] by [failed]; one receipt callback is scheduled
    per email, and one more for each recipient that cannot be printed.  On a
    batch that holds null the call throws a TypeError instead: the [catch]
    block of the loop reads [email.to].  Redis and MongoDB are not touched
    either way. *)
Theorem bulk_send_accounts emailBatch w :
  let run := VendorAPIService.sendBulkEmails emailBatch w in
  redis run.2 = redis w /\ mongo run.2 = mongo w /\
  if existsb is_null emailBatch
  then run.1 = Throw "Cannot read properties of null (reading 'to')"
  else
    exists results,
      run.1 = Ok results /\
      VendorAPIService.total results = length emailBatch /\
      (VendorAPIService.sent results + VendorAPIService.failed results)%nat = length emailBatch /\
      map VendorAPIService.d_to (VendorAPIService.details results) =
        map (fun email => fields email !! "to") emailBatch /\
      map VendorAPIService.d_messageId (VendorAPIService.details results) =
        map (fun email => fields email !! "messageId") emailBatch /\
      VendorAPIService.sent results =
        length (filter (fun d => VendorAPIService.d_status d = "SENT")
                  (VendorAPIService.details results)) /\
      totalSent (deliveryStats (vendor run.2)) =
        (totalSent (deliveryStats (vendor w)) + length emailBatch)%nat /\
      (forallb addressable emailBatch = true ->
       stats_moved (deliveryStats (vendor w)) (deliveryStats (vendor run.2))
         (VendorAPIService.sent results) (VendorAPIService.failed results)) /\
      length (timers (vendor run.2)) =
        (length (timers (vendor w)) + length emailBatch +
         length (List.filter (fun email => negb (addressable email)) emailBatch))%nat.
Proof.
  cbv zeta. destruct (existsb is_null emailBatch) eqn:Hnull.
  - assert (Hin : JNull ∈ emailBatch).
    { apply existsb_exists in Hnull. destruct Hnull as (email & Hin & Hemail).
      destruct email; try discriminate. apply list_elem_of_In. exact Hin. }
    assert (H : wp (VendorAPIService.sendBulkEmails emailBatch)
                  (fun r w' =>
                     r = Throw "Cannot read properties of null (reading 'to')" /\
                     redis w' = redis w /\ mongo w' = mongo w) w).
    { unfold VendorAPIService.sendBulkEmails.
      apply wp_quiet_bind; [auto with quiet|]. intros _ w1 (R1 & M1 & V1).
      apply wp_bind. eapply wp_mono; [apply (sendEach_null _ _ _ Hin)|]. cbv beta.
      intros r w2 (-> & R2 & M2). rewrite R2, M2, R1, M1. auto. }
    unfold wp in H. destruct H as (Hres & R & M). auto.
  - assert (Hemails : Forall (fun email => email <> JNull) emailBatch).
    { apply Forall_forall. intros email Hin ->.
      assert (existsb is_null emailBatch = true); [|congruence].
      apply existsb_exists. exists JNull. split; [apply list_elem_of_In; exact Hin|reflexivity]. }
    pose proof (wp_sendBulkEmails_accounts emailBatch w Hemails) as H. unfold wp in H.
    destruct H as (results & Hres & H1 & H2 & H3 & H4 & H5 & H6 & H7 & H8 & R & M).
    split; [exact R|]. split; [exact M|]. exists results. auto 10.
Qed.

(** A batch as the bulk endpoint may receive it, with null in it. *)
Lemma null_email_rejects_batch :
  (VendorAPIService.sendBulkEmails [Cases.plain_email; JNull] Scenario.fresh).1 =
    Throw "Cannot read properties of null (reading 'to')".
Proof. by_evaluation. Qed.

(** ** The logs of a delivery *)

(** What the three queries of the engine do to the stored logs. *)
Lemma insertMany_run logs w :
  wp (Mongoose.CommunicationLog_insertMany logs)
     (fun r w' =>
        redis w' = redis w /\ vendor w' = vendor w /\ ambient w' = ambient w /\
        campaigns (mongo w') = campaigns (mongo w) /\
        match r with
        | Ok stored =>
            stored = logs /\
            communicationLogs (mongo w') = communicationLogs (mongo w) ++ logs
        | Throw e => communicationLogs (mongo w') = communicationLogs (mongo w)
        end) w.
Proof.
  unfold wp, Mongoose.CommunicationLog_insertMany.
  match goal with |- context [Mongoose.command ?run w] =>
    destruct (mongo_command_cases run w) as (Hcase & R & V & A)
  end.
  cbv zeta in Hcase.
  destruct (next_fault (mongo_faults (mongo w))).1 as [e|]; destruct Hcase as [Hr Hdb];
    rewrite Hr, Hdb; cbn; auto 10.
Qed.

Lemma updateMany_run filter update w :
  wp (Mongoose.CommunicationLog_updateMany filter update)
     (fun r w' =>
        redis w' = redis w /\ vendor w' = vendor w /\ ambient w' = ambient w /\
        campaigns (mongo w') = campaigns (mongo w) /\
        (communicationLogs (mongo w') = communicationLogs (mongo w) \/
         communicationLogs (mongo w') =
           map (fun log => if filter log then update log else log) (communicationLogs (mongo w)))) w.
Proof.
  unfold wp, Mongoose.CommunicationLog_updateMany.
  match goal with |- context [Mongoose.command ?run w] =>
    destruct (mongo_command_cases run w) as (Hcase & R & V & A)
  end.
  cbv zeta in Hcase.
  destruct (next_fault (mongo_faults (mongo w))).1 as [e|]; destruct Hcase as [Hr Hdb];
    rewrite Hdb; cbn; auto 10.
Qed.

Lemma findByIdAndUpdate_keeps_logs id update w :
  wp (Mongoose.Campaign_findByIdAndUpdate id update)
     (fun r w' => communicationLogs (mongo w') = communicationLogs (mongo w)) w.
Proof.
  unfold wp, Mongoose.Campaign_findByIdAndUpdate.
  match goal with |- context [Mongoose.command ?run w] =>
    destruct (mongo_command_cases run w) as (Hcase & R & V & A)
  end.
  cbv zeta in Hcase.
  destruct (next_fault (mongo_faults (mongo w))).1 as [e|]; destruct Hcase as [Hr Hdb];
    rewrite Hdb; cbn; [reflexivity|].
  destruct (campaigns (mongo w) !! id); reflexivity.
Qed.

(** The vendor stores nothing in MongoDB. *)
Lemma sendEach_keeps_mongo emails : forall results w,
  wp (VendorAPIService.sendEach emails results) (fun r w' => mongo w' = mongo w) w.
Proof.
  induction emails as [|email later IH]; intros results w; simpl.
  - apply wp_ret. reflexivity.
  - apply wp_bind. apply wp_try_catch.
    destruct (sendEmail_any_cases email) as [[-> Hsend]|[Hemail Hsend]]; rewrite Hsend.
    + apply wp_bind. apply wp_throw. apply wp_throw. reflexivity.
    + apply wp_bind. eapply wp_mono; [apply wp_sendEmail|].
      intros r w1 (isSuccess & result & -> & _ & _ & R1 & M1 & _).
      apply wp_quiet_bind; [destruct later; auto with quiet|].
      intros _ w2 (R2 & M2 & V2). apply wp_ret.
      eapply wp_mono; [apply IH|]. cbv beta.
      intros r w3 M3. rewrite M3, M2, M1. reflexivity.
Qed.

Lemma vendorAPI_sendBulkEmails_keeps_mongo emailBatch w :
  wp (VendorAPIService.vendorAPI_sendBulkEmails emailBatch)
     (fun r w' => mongo w' = mongo w) w.
Proof.
  unfold wp, VendorAPIService.vendorAPI_sendBulkEmails.
  destruct (next_fault (bulk_faults (vendor w))) as [[e|] rest]; [reflexivity|].
  match goal with |- context [VendorAPIService.sendBulkEmails ?batch ?w1] =>
    assert (H : wp (VendorAPIService.sendBulkEmails batch) (fun r w' => mongo w' = mongo w1) w1)
  end.
  { unfold VendorAPIService.sendBulkEmails.
    apply wp_quiet_bind; [auto with quiet|]. intros _ w1 (R1 & M1 & V1).
    apply wp_bind. eapply wp_mono; [apply sendEach_keeps_mongo|]. cbv beta.
    intros [counted|e] w2 M2; [|rewrite M2, M1; reflexivity].
    apply wp_quiet_bind; [auto with quiet|]. intros _ w3 (R3 & M3 & V3).
    apply wp_ret. rewrite M3, M2, M1. reflexivity. }
  unfold wp in H. rewrite H. reflexivity.
Qed.

(** Force-failing a log does not change whom it is about. *)
Lemma mark_failed_addressee reason at_ log :
  addressee (CampaignConsumer.mark_failed reason at_ log) = addressee log.
Proof. reflexivity. Qed.

Lemma addressee_updated (filter : CommunicationLog -> bool) reason at_ logs :
  map addressee
    (map (fun log => if filter log then CampaignConsumer.mark_failed reason at_ log else log) logs) =
  map addressee logs.
Proof.
  rewrite map_map. apply map_ext. intros log. destruct (filter log); reflexivity.
Qed.

Section Logs.

Variable personalizeMessage : string -> CampaignConsumer.Customer -> string.
Variable generateEmailHTML :
  CampaignConsumer.MessageContent -> CampaignConsumer.Customer -> string.

(** The logs built for a batch: one per customer, pending, about that
    customer and the campaign. *)
Lemma buildLogs_run customers campaignId messageContent : forall w,
  wp (CampaignConsumer.buildLogs personalizeMessage customers campaignId messageContent)
     (fun r w' =>
        ambient_only w w' /\
        exists logs,
          r = Ok logs /\
          map addressee logs = map (addressed campaignId) customers /\
          Forall (fun log => log_status log = "pending") logs) w.
Proof.
  induction customers as [|customer rest IH]; intros w; simpl.
  - apply wp_ret. split; [apply ambient_only_refl|]. exists []. auto.
  - apply wp_quiet_bind; [auto with quiet|]. intros message_id w1 Hw1.
    apply wp_bind. eapply wp_mono; [apply IH|]. cbv beta.
    intros r w2 (Hw2 & logs & -> & Haddr & Hpending).
    apply wp_ret. split; [eauto using ambient_only_trans|].
    eexists. split; [reflexivity|]. simpl. split; [f_equal; exact Haddr|].
    constructor; [reflexivity|exact Hpending].
Qed.

(** The logs are appended to the collection, or none is. *)
Lemma createCommunicationLogs_run customers campaignId messageContent w :
  wp (CampaignConsumer.createCommunicationLogs personalizeMessage customers campaignId messageContent)
     (fun r w' =>
        redis w' = redis w /\ vendor w' = vendor w /\
        campaigns (mongo w') = campaigns (mongo w) /\
        match r with
        | Ok logs =>
            communicationLogs (mongo w') = communicationLogs (mongo w) ++ logs /\
            map addressee logs = map (addressed campaignId) customers /\
            Forall (fun log => log_status log = "pending") logs
        | Throw e => communicationLogs (mongo w') = communicationLogs (mongo w)
        end) w.
Proof.
  unfold CampaignConsumer.createCommunicationLogs.
  apply wp_bind. eapply wp_mono; [apply buildLogs_run|]. cbv beta.
  intros r w1 ((R1 & M1 & V1) & logs & -> & Haddr & Hpending).
  eapply wp_mono; [apply insertMany_run|]. cbv beta.
  intros r w2 (R2 & V2 & _ & C2 & Hcase).
  rewrite R2, V2, C2, R1, V1, M1. repeat split.
  destruct r as [stored|e]; rewrite M1 in Hcase; [|exact Hcase].
  destruct Hcase as [-> Hlogs]. auto.
Qed.

(** With a log for every customer of the batch from [index] on, the emails
    are built, one per customer, each with the message id of its log. *)
Lemma emailBatch_from_run batch : forall index communicationLogs campaignId messageContent w,
  (index + length batch <= length communicationLogs)%nat ->
  exists mails,
    CampaignConsumer.emailBatch_from personalizeMessage generateEmailHTML index batch
      communicationLogs campaignId messageContent w = (Ok mails, w) /\
    map VendorAPIService.messageId mails =
      map message_id (take (length batch) (drop index communicationLogs)) /\
    map VendorAPIService.to mails = map CampaignConsumer.email batch /\
    map VendorAPIService.customerId mails = map CampaignConsumer.id batch /\
    Forall (fun mail => VendorAPIService.campaignId mail = campaignId) mails.
Proof.
  induction batch as [|customer rest IH]; intros index logs campaignId messageContent w Hlen; simpl.
  - exists []. auto.
  - simpl in Hlen.
    destruct (lookup_lt_is_Some_2 logs index ltac:(lia)) as [log Hlog]. rewrite Hlog.
    destruct (IH (S index) logs campaignId messageContent w ltac:(lia))
      as (mails & Hrun & Hids & Hto & Hcust & Hcamp).
    unfold bind. rewrite Hrun. eexists. split; [reflexivity|].
    simpl. rewrite Hids, Hto, Hcust.
    rewrite (drop_S _ _ _ Hlog). simpl. auto.
Qed.

(** X9. The emails of a batch carry the message ids of the logs created
    for them.  When [createCommunicationLogs] returns, it has appended one
    pending log per customer of the batch, in order, to the collection, and
    the emails then built from the batch and those logs are one per
    customer, each with the message id, the mailbox and the customer id of
    the log at the same position: building them never reads past the logs.
    When the insertion is rejected, no log is stored. *)
Theorem batch_emails_match_logs batch campaignId messageContent w :
  let created :=
    CampaignConsumer.createCommunicationLogs personalizeMessage batch campaignId messageContent w in
  match created.1 with
  | Ok logs =>
      communicationLogs (mongo created.2) = communicationLogs (mongo w) ++ logs /\
      map addressee logs = map (addressed campaignId) batch /\
      Forall (fun log => log_status log = "pending") logs /\
      exists mails,
        CampaignConsumer.emailBatch_from personalizeMessage generateEmailHTML 0 batch logs
          campaignId messageContent created.2 = (Ok mails, created.2) /\
        map VendorAPIService.messageId mails = map message_id logs /\
        map VendorAPIService.to mails = map recipient_email logs /\
        map VendorAPIService.customerId mails = map customer_id logs
  | Throw e => communicationLogs (mongo created.2) = communicationLogs (mongo w)
  end.
Proof.
  cbv zeta.
  pose proof (createCommunicationLogs_run batch campaignId messageContent w) as H.
  unfold wp in H. destruct H as (_ & _ & _ & H).
  destruct (CampaignConsumer.createCommunicationLogs _ _ _ _ w) as [[logs|e] w1];
    cbn [fst snd] in *; [|exact H].
  destruct H as (Hlogs & Haddr & Hpending).
  split; [exact Hlogs|]. split; [exact Haddr|]. split; [exact Hpending|].
  assert (Hlen : length logs = length batch).
  { rewrite <- (length_map addressee logs), Haddr, length_map. reflexivity. }
  destruct (emailBatch_from_run batch 0 logs campaignId messageContent w1 ltac:(simpl; lia))
    as (mails & Hrun & Hids & Hto & Hcust & _).
  exists mails. split; [exact Hrun|].
  rewrite drop_0, <- Hlen, firstn_all in Hids.
  split; [exact Hids|].
  split.
  - rewrite Hto. transitivity (map snd (map addressee logs)).
    + rewrite Haddr, map_map. reflexivity.
    + rewrite map_map. reflexivity.
  - rewrite Hcust. transitivity (map (fun a : string * string * string => a.1.1) (map addressee logs)).
    + rewrite Haddr, map_map. reflexivity.
    + rewrite map_map. reflexivity.
Qed.

(** The batch loop appends the logs of the batches it reaches, recipient by
    recipient, and re-addresses none that is stored. *)
Lemma deliverBatches_logs job batchCount batches : forall batchIndex sentCount failedCount w,
  wp (CampaignConsumer.deliverBatches personalizeMessage generateEmailHTML job batchCount
        batchIndex batches sentCount failedCount)
     (fun r w' =>
        exists reached,
          map addressee (communicationLogs (mongo w')) =
            map addressee (communicationLogs (mongo w)) ++
            map (addressed (CampaignConsumer.campaignId job)) reached /\
          reached `prefix_of` concat batches /\
          (forall counts, r = Ok counts -> reached = concat batches)) w.
Proof.
  induction batches as [|batch later IH]; intros batchIndex sentCount failedCount w; simpl.
  - apply wp_ret. exists []. rewrite app_nil_r. repeat split; auto.
  - apply wp_quiet_bind; [auto with quiet|]. intros _ w1 (_ & M1 & _).
    apply wp_bind. eapply wp_mono; [apply createCommunicationLogs_run|]. cbv beta.
    intros [stored|e] w2 (_ & _ & _ & Hcase); rewrite M1 in Hcase.
    2:{ exists []. rewrite app_nil_r. split; [f_equal; exact Hcase|].
        split; [apply prefix_nil|discriminate]. }
    destruct Hcase as (Hlogs & Haddr & _).
    assert (Hbatch :
      forall w', communicationLogs (mongo w') = communicationLogs (mongo w2) ->
        map addressee (communicationLogs (mongo w')) =
          map addressee (communicationLogs (mongo w)) ++
          map (addressed (CampaignConsumer.campaignId job)) batch).
    { intros w' ->. rewrite Hlogs, map_app, Haddr. reflexivity. }
    assert (Hstop :
      forall (r : result (nat * nat)) w', (forall counts, r <> Ok counts) ->
        map addressee (communicationLogs (mongo w')) =
          map addressee (communicationLogs (mongo w2)) ->
        exists reached,
          map addressee (communicationLogs (mongo w')) =
            map addressee (communicationLogs (mongo w)) ++
            map (addressed (CampaignConsumer.campaignId job)) reached /\
          reached `prefix_of` batch ++ concat later /\
          (forall counts, r = Ok counts -> reached = batch ++ concat later)).
    { intros r w' Hr Hsame. exists batch. rewrite Hsame, (Hbatch w2 eq_refl).
      split; [reflexivity|]. split; [apply prefix_app_r; reflexivity|].
      intros counts Hc. destruct (Hr counts Hc). }
    assert (Hgo :
      forall idx s f w',
        map addressee (communicationLogs (mongo w')) =
          map addressee (communicationLogs (mongo w2)) ->
        wp (CampaignConsumer.deliverBatches personalizeMessage generateEmailHTML job batchCount
              idx later s f)
           (fun r w'' =>
              exists reached,
                map addressee (communicationLogs (mongo w'')) =
                  map addressee (communicationLogs (mongo w)) ++
                  map (addressed (CampaignConsumer.campaignId job)) reached /\
                reached `prefix_of` batch ++ concat later /\
                (forall counts, r = Ok counts -> reached = batch ++ concat later)) w').
    { intros idx s f w' Hsame. eapply wp_mono; [apply IH|]. cbv beta.
      intros r w'' (reached & Hmap & Hpre & Hall).
      exists (batch ++ reached). rewrite Hmap, Hsame, (Hbatch w2 eq_refl), map_app, app_assoc.
      split; [reflexivity|]. split; [apply prefix_app; exact Hpre|].
      intros counts Hc. rewrite (Hall counts Hc). reflexivity. }
    apply wp_bind. eapply wp_mono; [apply wp_emailBatch_from|]. cbv beta.
    intros [emailBatch|e] w3 [-> _]; [|apply Hstop; [discriminate|reflexivity]].
    apply wp_bind. apply wp_try_catch. apply wp_bind.
    eapply wp_mono; [apply vendorAPI_sendBulkEmails_keeps_mongo|]. cbv beta.
    intros [batchResult|batchError] w4 M4.
    + apply wp_quiet_bind; [auto with quiet|]. intros _ w5 (_ & M5 & _).
      apply wp_quiet_bind; [destruct (_ <? _)%nat; auto with quiet|]. intros _ w6 (_ & M6 & _).
      apply wp_ret. apply Hgo. rewrite M6, M5, M4. reflexivity.
    + apply wp_quiet_bind; [auto with quiet|]. intros _ w5 (_ & M5 & _).
      apply wp_quiet_bind; [auto with quiet|]. intros now w6 (_ & M6 & _).
      apply wp_bind. eapply wp_mono; [apply updateMany_run|]. cbv beta.
      intros r w7 (_ & _ & _ & _ & Hupd).
      assert (Hsame : map addressee (communicationLogs (mongo w7)) =
                      map addressee (communicationLogs (mongo w2))).
      { destruct Hupd as [-> | ->]; rewrite ?addressee_updated, M6, M5, M4; reflexivity. }
      destruct r as [[]|e]; [|apply Hstop; [discriminate|exact Hsame]].
      apply wp_ret. apply Hgo. exact Hsame.
Qed.

(** X10. A delivery appends one log per recipient and re-addresses none.
    After [deliverCampaign], returned or thrown, the stored logs are the
    ones stored before, each still about the same customer, campaign and
    mailbox, followed by one log per recipient reached, in the order of the
    job's recipient list and for the job's campaign.  The recipients
    reached are a prefix of the list, and the whole list when the delivery
    returns. *)
Theorem delivery_appends_logs job w :
  let run := CampaignConsumer.deliverCampaign personalizeMessage generateEmailHTML job w in
  exists reached,
    map addressee (communicationLogs (mongo run.2)) =
      map addressee (communicationLogs (mongo w)) ++
      map (addressed (CampaignConsumer.campaignId job)) reached /\
    reached `prefix_of` CampaignConsumer.customers job /\
    (run.1 = Ok tt -> reached = CampaignConsumer.customers job).
Proof.
  cbv zeta.
  assert (H : wp (CampaignConsumer.deliverCampaign personalizeMessage generateEmailHTML job)
                (fun r w' =>
                   exists reached,
                     map addressee (communicationLogs (mongo w')) =
                       map addressee (communicationLogs (mongo w)) ++
                       map (addressed (CampaignConsumer.campaignId job)) reached /\
                     reached `prefix_of` CampaignConsumer.customers job /\
                     (r = Ok tt -> reached = CampaignConsumer.customers job)) w);
    [|exact H].
  assert (Hcatch :
    forall e w', 
      (exists reached,
         map addressee (communicationLogs (mongo w')) =
           map addressee (communicationLogs (mongo w)) ++
           map (addressed (CampaignConsumer.campaignId job)) reached /\
         reached `prefix_of` CampaignConsumer.customers job) ->
      wp (CampaignConsumer.delivery_failed job e)
         (fun r w'' =>
            exists reached,
              map addressee (communicationLogs (mongo w'')) =
                map addressee (communicationLogs (mongo w)) ++
                map (addressed (CampaignConsumer.campaignId job)) reached /\
              reached `prefix_of` CampaignConsumer.customers job /\
              (r = Ok tt -> reached = CampaignConsumer.customers job)) w').
  { intros e w' (reached & Hmap & Hpre).
    unfold CampaignConsumer.delivery_failed.
    apply wp_quiet_bind; [auto with quiet|]. intros _ w1 (_ & M1 & _).
    apply wp_quiet_bind; [auto with quiet|]. intros at_ w2 (_ & M2 & _).
    apply wp_bind. eapply wp_mono; [apply findByIdAndUpdate_keeps_logs|]. cbv beta.
    intros r w3 M3.
    assert (Hend : forall (r' : result unit) e', r' = Throw e' ->
              exists reached0,
                map addressee (communicationLogs (mongo w3)) =
                  map addressee (communicationLogs (mongo w)) ++
                  map (addressed (CampaignConsumer.campaignId job)) reached0 /\
                reached0 `prefix_of` CampaignConsumer.customers job /\
                (r' = Ok tt -> reached0 = CampaignConsumer.customers job)).
    { intros r' e' ->. exists reached. rewrite M3, M2, M1. split; [exact Hmap|].
      split; [exact Hpre|discriminate]. }
    destruct r as [found|e']; [apply wp_throw|]; eapply Hend; reflexivity. }
  unfold CampaignConsumer.deliverCampaign. apply wp_try_catch.
  unfold CampaignConsumer.delivery.
  apply wp_quiet_bind; [auto with quiet|]. intros started_at w1 (_ & M1 & _).
  apply wp_bind. eapply wp_mono; [apply findByIdAndUpdate_keeps_logs|]. cbv beta.
  intros r w2 M2.
  assert (Hnone : forall w', communicationLogs (mongo w') = communicationLogs (mongo w) ->
            exists reached,
              map addressee (communicationLogs (mongo w')) =
                map addressee (communicationLogs (mongo w)) ++
                map (addressed (CampaignConsumer.campaignId job)) reached /\
              reached `prefix_of` CampaignConsumer.customers job).
  { intros w' ->. exists []. rewrite app_nil_r. split; [reflexivity|apply prefix_nil]. }
  destruct r as [found|e]; [|apply Hcatch, Hnone; rewrite M2, M1; reflexivity].
  apply wp_quiet_bind; [auto with quiet|]. intros _ w3 (_ & M3 & _).
  destruct (createBatches_returns (CampaignConsumer.customers job) CampaignConsumer.batchSize)
    as (batches & Hrun & Hcat & _); [unfold CampaignConsumer.batchSize; lia|].
  rewrite Hrun. cbn [default from_option]. unfold id.
  apply wp_bind. eapply wp_mono; [apply deliverBatches_logs|]. cbv beta.
  intros r w4 (reached & Hmap & Hpre & Hall).
  rewrite Hcat, M3, M2, M1 in *.
  destruct r as [counts|e]; [|apply Hcatch; eauto].
  specialize (Hall counts eq_refl). subst reached.
  apply wp_quiet_bind; [auto with quiet|]. intros completed_at w5 (_ & M5 & _).
  apply wp_bind. eapply wp_mono; [apply findByIdAndUpdate_keeps_logs|]. cbv beta.
  intros r w6 M6.
  assert (Hdone : exists reached,
            map addressee (communicationLogs (mongo w6)) =
              map addressee (communicationLogs (mongo w)) ++
              map (addressed (CampaignConsumer.campaignId job)) reached /\
            reached `prefix_of` CampaignConsumer.customers job).
  { exists (CampaignConsumer.customers job). rewrite M6, M5. split; [exact Hmap|reflexivity]. }
  destruct r as [found'|e]; [|apply Hcatch; exact Hdone].
  eapply wp_mono; [apply wp_console_log|]. cbv beta.
  intros r w7 (-> & _ & M7 & _).
  exists (CampaignConsumer.customers job). rewrite M7, M6, M5. auto.
Qed.

End Logs.

(** ** From the campaign API to the engine *)

(** A recipient is read back from its JSON form. *)
Lemma customer_round_trip customer :
  Scenario.customer_of (SegmentController.customer_json customer) = customer.
Proof. destruct customer as [id [name|] email]; reflexivity. Qed.

(** X11. The delivery job survives the queue.  The job the campaign API
    hands to the broker, once stamped by [addToQueue] with id, timestamp
    and status, still has type DELIVER_CAMPAIGN and the campaign's id, and
    the engine reads from it exactly the campaign id, recipients, message
    content and user it was built from: none of the stamped fields
    overwrites a field of the job. *)
Theorem delivery_job_round_trip segmentId job id timestamp :
  let stored :=
    RedisService.jobData (SegmentController.delivery_job segmentId job) id timestamp in
  is_type (stored !! "type") "DELIVER_CAMPAIGN" = true /\
  template (stored !! "campaignId") = CampaignConsumer.campaignId job /\
  Scenario.fields_of stored = job.
Proof.
  cbv zeta. unfold RedisService.jobData, SegmentController.delivery_job.
  split; [|split].
  - rewrite !lookup_insert_ne by discriminate. rewrite lookup_singleton_eq. reflexivity.
  - rewrite !lookup_insert_ne by discriminate. rewrite lookup_insert_eq. reflexivity.
  - unfold Scenario.fields_of.
    repeat (rewrite lookup_insert_eq || rewrite lookup_insert_ne by discriminate).
    cbn [Scenario.text default from_option]. unfold Datatypes.id. cbn.
    destruct job as [campaignId customers [subject message from_name from_email] userId userEmail].
    cbn. f_equal.
    rewrite map_map. induction customers as [|c cs IH]; [reflexivity|].
    simpl. rewrite customer_round_trip. f_equal. exact IH.
Qed.

(** ** Segment rules *)

Section SegmentRules.

Variable JSON_parse : string -> result json.

(** One rule: the query gets the rule's condition on the rule's field, or
    stays as it is and a rejected rule is logged. *)
Lemma each_rule_run rule query w :
  Segments.each_rule JSON_parse rule query w =
    (Ok (match rule_target JSON_parse rule with
         | Some (field, condition) => <[field := condition]> query
         | None => query
         end),
     if rule_rejected JSON_parse rule
     then with_ambient (fun a => {| clock := clock a; random := random a;
                                    console := console a ++
                                      ["Error parsing rule: " +:+
                                       match JSON_parse rule with
                                       | Throw message => message
                                       | Ok JNull => "Cannot destructure property 'field' of 'parsedRule' as it is null."
                                       | Ok _ => not_primitive
                                       end] |}) w
     else w).
Proof.
  unfold Segments.each_rule, rule_target, rule_rejected, try_catch, Segments.assign, lift, converted.
  destruct (JSON_parse rule) as [parsedRule|message]; [|reflexivity].
  destruct parsedRule as [| | | | |members]; try reflexivity; cbv zeta; unfold ret;
    (destruct (Segments.condition_of _ _); [|reflexivity]);
    (destruct (printable _); [|reflexivity]);
    try reflexivity;
    destruct (String.eqb _ "__proto__"); reflexivity.
Qed.

(** The query after all rules, from the query before them. *)
Lemma forEach_run rules : forall query w,
  exists final,
    (Segments.forEach JSON_parse rules query w).1 = Ok final /\
    ambient_only w (Segments.forEach JSON_parse rules query w).2 /\
    length (console (ambient (Segments.forEach JSON_parse rules query w).2)) =
      (length (console (ambient w)) +
       length (List.filter (rule_rejected JSON_parse) rules))%nat /\
    (forall field,
       (forall rule condition, rule ∈ rules ->
          rule_target JSON_parse rule <> Some (field, condition)) ->
       final !! field = query !! field) /\
    (forall before rule after field condition,
       rules = before ++ rule :: after ->
       rule_target JSON_parse rule = Some (field, condition) ->
       (forall later other, later ∈ after ->
          rule_target JSON_parse later <> Some (field, other)) ->
       final !! field = Some condition).
Proof.
  induction rules as [|rule later IH]; intros query w.
  - exists query. simpl. repeat split; auto.
    intros [|? ?] ? ? ? ? H; discriminate.
  - cbn [Segments.forEach]. unfold bind. rewrite each_rule_run.
    match goal with |- context [Segments.forEach JSON_parse later ?q ?w1] =>
      destruct (IH q w1) as (final & Hrun & (R & M & V) & Hlog & Hnone & Hlast)
    end.
    exists final. split; [exact Hrun|]. split; [|split; [|split]].
    + destruct (rule_rejected JSON_parse rule); repeat split; auto.
    + rewrite Hlog. cbn [List.filter].
      destruct (rule_rejected JSON_parse rule); simpl; rewrite ?length_app; simpl; lia.
    + intros field Hfree. rewrite Hnone by (intros; apply Hfree; set_solver).
      destruct (rule_target JSON_parse rule) as [[field' condition]|] eqn:Htarget; [|reflexivity].
      rewrite lookup_insert_ne; [reflexivity|].
      intros ->. apply (Hfree rule condition); [set_solver|exact Htarget].
    + intros before rule' after field condition Hsplit Htarget Hafter.
      destruct before as [|b before]; simpl in Hsplit; injection Hsplit as -> ->.
      * rewrite Hnone by exact Hafter. rewrite Htarget. apply lookup_insert_eq.
      * eapply Hlast; eauto.
Qed.


(** X13. Building a segment's query never fails, whatever the rules are,
    and never selects inactive customers.  The query the callers send has
    [is_active] equal to true even when a rule says otherwise; a rule that
    does not parse, parses to null, or has a known operator and a field
    that cannot be converted to a property key, is logged in one console
    line and skipped; every other rule logs nothing; nothing but the
    console changes. *)
Theorem segment_query_never_fails rules w :
  let run := Segments.active_customers_query JSON_parse rules w in
  exists query,
    run.1 = Ok query /\
    query !! "is_active" = Some (Segments.Equals (Some (JBool true))) /\
    ambient_only w run.2 /\
    length (console (ambient run.2)) =
      (length (console (ambient w)) + length (List.filter (rule_rejected JSON_parse) rules))%nat.
Proof.
  cbv zeta. unfold Segments.active_customers_query, Segments.buildSegmentQuery, bind.
  destruct (forEach_run rules ∅ w) as (final & Hrun & Hw & Hlog & _).
  destruct (Segments.forEach JSON_parse rules ∅ w) as [r w1]. simpl in *. subst r.
  eexists. split; [reflexivity|]. split; [apply lookup_insert_eq|]. auto.
Qed.

End SegmentRules.

(** A rule whose field cannot be converted is logged and constrains
    nothing. *)
Lemma unconvertible_field_skipped :
  let run := Segments.buildSegmentQuery Cases.parse_unconvertible ["rule"] Scenario.fresh in
  run.1 = Ok ∅ /\
  console (ambient run.2) = ["Error parsing rule: Cannot convert object to primitive value"].
Proof. by_evaluation. Qed.


(** ** Launching a campaign *)

Section Launch.

Variable JSON_parse : string -> result json.
Variable Segment_findOne : string -> string -> M (option CampaignEndpoint.Segment).
Variable Customer_find : Segments.Query -> M (list CampaignConsumer.Customer).
Variable Campaign_create : CampaignEndpoint.NewCampaign -> M CampaignEndpoint.CampaignDoc.

Abbreviation createCampaign :=
  (CampaignEndpoint.createCampaign JSON_parse Segment_findOne Customer_find Campaign_create).

(** X14. 202 means queued.  [createCampaign] always answers, whatever the
    models and Redis do.  A request without name, subject or message is
    answered 400 with nothing at all done.  An answer of 202 is given only
    after a delivery job stands at the head of [campaign.jobs]: the job
    of the campaign whose id the answer carries, built for this segment
    and user and for a list of customers that is not empty. *)
Theorem campaign_accepted_means_queued segmentId user body w :
  let run := createCampaign segmentId user body w in
  exists reply,
    run.1 = Ok reply /\
    (nonempty (CampaignEndpoint.name body) && nonempty (CampaignEndpoint.subject body) &&
     nonempty (CampaignEndpoint.message body) = false ->
     run.2 = w /\ VendorEndpoints.code reply = 400%nat) /\
    (VendorEndpoints.code reply = 202%nat ->
     exists customers campaign id timestamp waiting,
       customers <> [] /\
       RedisService.elements run.2 "campaign.jobs" =
         RedisService.jobData
           (CampaignEndpoint.job_of segmentId user customers campaign) id timestamp :: waiting /\
       (CampaignEndpoint.campaign_id <$> VendorEndpoints.data reply) =
         Some (CampaignEndpoint._id campaign)).
Proof.
  cbv zeta.
  destruct (nonempty (CampaignEndpoint.name body) && nonempty (CampaignEndpoint.subject body) &&
            nonempty (CampaignEndpoint.message body)) eqn:Hvalid.
  2:{ assert (Hrun : createCampaign segmentId user body w =
                     (Ok {| VendorEndpoints.code := 400; VendorEndpoints.success := false;
                            VendorEndpoints.message :=
                              "Campaign name, subject, and message are required";
                            VendorEndpoints.data := None; VendorEndpoints.error := None |}, w)).
      { unfold CampaignEndpoint.createCampaign, try_catch.
        destruct (nonempty (CampaignEndpoint.name body)); [|reflexivity].
        destruct (nonempty (CampaignEndpoint.subject body)); [|reflexivity].
        destruct (nonempty (CampaignEndpoint.message body)); [discriminate|reflexivity]. }
      rewrite Hrun. eexists. split; [reflexivity|]. split; [auto|discriminate]. }
  apply andb_true_iff in Hvalid. destruct Hvalid as [Hvalid Hmessage].
  apply andb_true_iff in Hvalid. destruct Hvalid as [Hname Hsubject].
  destruct (createCampaign segmentId user body w) as [r final] eqn:Hrun. cbn [fst snd].
  revert Hrun.
  unfold CampaignEndpoint.createCampaign, try_catch.
  rewrite Hname, Hsubject, Hmessage. cbn [negb orb].
  unfold bind, console_log, ret.
  destruct (Segment_findOne segmentId (CampaignEndpoint.user_id user) w) as [[[segment|]|e] w1];
    cbn [fst snd];
    [|intros [= <- <-]; eexists; split; [reflexivity|]; split; discriminate..].
  destruct (Segments.active_customers_query JSON_parse (CampaignEndpoint.rules segment) w1)
    as [[query|e] w2]; cbn [fst snd];
    [|intros [= <- <-]; eexists; split; [reflexivity|]; split; discriminate].
  destruct (Customer_find query w2) as [[customers|e] w3]; cbn [fst snd];
    [|intros [= <- <-]; eexists; split; [reflexivity|]; split; discriminate].
  destruct (length customers =? 0)%nat eqn:Hnone;
    [intros [= <- <-]; eexists; split; [reflexivity|]; split; discriminate|].
  destruct (Campaign_create _ w3) as [[campaign|e] w4]; cbn [fst snd];
    [|intros [= <- <-]; eexists; split; [reflexivity|]; split; discriminate].
  match goal with |- context [RedisService.addToQueue "campaign.jobs" ?job ?w5] =>
    destruct (addToQueue_cases "campaign.jobs" job w5)
      as (_ & _ & _ & id & timestamp & _ & _ & Hcase);
    destruct (RedisService.addToQueue "campaign.jobs" job w5) as [[[]|e] w6]
  end; cbn [fst snd] in *;
    [|intros [= <- <-]; eexists; split; [reflexivity|]; split; discriminate].
  intros [= <- <-]. eexists. split; [reflexivity|]. split; [discriminate|]. intros _.
  exists customers, campaign, id, timestamp. eexists.
  split; [intros ->; discriminate|]. split; [|reflexivity].
  destruct (next_fault _).1; destruct Hcase as [Hr Hqs]; [discriminate|].
  unfold RedisService.elements at 1. cbn [redis with_ambient queues].
  rewrite Hqs, lookup_insert_eq. reflexivity.
Qed.

End Launch.

(** [Math.ceil(n / 10)], the minutes the answer promises. *)
Example Math_ceil_tenths :
  map (fun n => Math_ceil (PrimFloat.div (Number_of n) (Number_of 10))) [1; 10; 11; 25]%nat =
  [1; 1; 2; 3].
Proof. vm_compute. reflexivity. Qed.

(** A launch for a segment of three customers: answered 202, with one job
    queued that the engine reads back as those three customers. *)
Lemma campaign_accepted_means_queued_witness :
  let run :=
    CampaignEndpoint.createCampaign Cases.parse_known Cases.find_segment Cases.find_customers
      Cases.create_c1 "s1" Cases.marketer Cases.launch Scenario.same_instant in
  (VendorEndpoints.code <$> match run.1 with Ok reply => Some reply | Throw _ => None end) =
    Some 202%nat /\
  length (RedisService.elements run.2 "campaign.jobs") = 1%nat /\
  (CampaignConsumer.customers <$>
     (Scenario.fields_of <$> head (RedisService.elements run.2 "campaign.jobs"))) =
    Some (map Scenario.recipient [1; 2; 3]%nat).
Proof.
  cbv zeta.
  destruct (campaign_accepted_means_queued Cases.parse_known Cases.find_segment
              Cases.find_customers Cases.create_c1 "s1" Cases.marketer Cases.launch
              Scenario.same_instant) as (reply & Hrun & _ & Hqueued).
  assert (Hcode : VendorEndpoints.code reply = 202%nat).
  { vm_compute in Hrun. injection Hrun as <-. reflexivity. }
  split; [rewrite Hrun; simpl; rewrite Hcode; reflexivity|].
  destruct (Hqueued Hcode) as (customers & campaign & id & timestamp & waiting & _ & Hq & _).
  split; vm_compute; reflexivity.
Defined.

(** ** Templates *)

(** Concatenation of strings, equation by equation. *)
Lemma append_cons c (s t : string) : String c s +:+ t = String c (s +:+ t).
Proof. reflexivity. Qed.

Lemma append_empty_l (t : string) : "" +:+ t = t.
Proof. reflexivity. Qed.

Lemma append_empty_r (s : string) : s +:+ "" = s.
Proof. induction s as [|c s IH]; [reflexivity|]. rewrite append_cons, IH. reflexivity. Qed.

Lemma append_assoc (a b c : string) : (a +:+ b) +:+ c = a +:+ (b +:+ c).
Proof. induction a as [|x a IH]; [reflexivity|]. rewrite !append_cons, IH. reflexivity. Qed.

Lemma without_append c (a b : string) :
  without c (a +:+ b) = without c a && without c b.
Proof.
  induction a as [|x a IH]; [reflexivity|].
  rewrite append_cons. simpl. rewrite IH, andb_assoc. reflexivity.
Qed.

(** A pattern matches where it stands. *)
Lemma starts_with_append (p t : string) : CampaignMessages.starts_with p (p +:+ t) = true.
Proof.
  induction p as [|c p IH]; [destruct t; reflexivity|].
  rewrite append_cons. simpl. rewrite Ascii.eqb_refl, IH. reflexivity.
Qed.

Lemma slice_from_append (p t : string) :
  CampaignMessages.slice_from (String.length p) (p +:+ t) = t.
Proof.
  induction p as [|c p IH]; [destruct t; reflexivity|]. rewrite append_cons. simpl. exact IH.
Qed.

(** A replacement without dollar signs stands for itself. *)
Lemma GetSubstitution_plain matched before after replacement :
  without "$" replacement = true ->
  CampaignMessages.GetSubstitution matched before after replacement = replacement.
Proof.
  induction replacement as [|c rest IH]; simpl; [reflexivity|].
  intros H. apply andb_true_iff in H. destruct H as [Hc Hrest].
  apply negb_true_iff in Hc. rewrite Hc. f_equal. auto.
Qed.

(** The characters of a match are passed over. *)
Lemma scan_skip pattern replacement (s : string) : forall before t,
  CampaignMessages.replace_scan pattern replacement (String.length s) before (s +:+ t) =
  CampaignMessages.replace_scan pattern replacement 0 (before +:+ s) t.
Proof.
  induction s as [|c s IH]; intros before t.
  - rewrite append_empty_r, append_empty_l. destruct t; reflexivity.
  - rewrite append_cons. simpl. rewrite IH, append_assoc. reflexivity.
Qed.

(** At a match the replacement is put in and the scan goes on behind it. *)
Lemma scan_match c pattern replacement before t :
  CampaignMessages.replace_scan (String c pattern) replacement 0 before (String c pattern +:+ t) =
  CampaignMessages.GetSubstitution (String c pattern) before t replacement +:+
  CampaignMessages.replace_scan (String c pattern) replacement 0 (before +:+ String c pattern) t.
Proof.
  rewrite append_cons at 1.
  cbn [CampaignMessages.replace_scan].
  rewrite <- append_cons.
  rewrite starts_with_append, slice_from_append.
  f_equal.
  replace (String.length (String c pattern) - 1)%nat with (String.length pattern)
    by (cbn [String.length]; lia).
  rewrite scan_skip, append_assoc. reflexivity.
Qed.

(** Text without the pattern's first character is copied. *)
Lemma scan_text c pattern replacement (s : string) : forall before t,
  without c s = true ->
  CampaignMessages.replace_scan (String c pattern) replacement 0 before (s +:+ t) =
  s +:+ CampaignMessages.replace_scan (String c pattern) replacement 0 (before +:+ s) t.
Proof.
  induction s as [|x s IH]; intros before t Hs.
  - rewrite append_empty_r. reflexivity.
  - simpl in Hs. apply andb_true_iff in Hs. destruct Hs as [Hx Hs].
    apply negb_true_iff in Hx. rewrite Ascii.eqb_sym in Hx.
    rewrite !append_cons. cbn [CampaignMessages.replace_scan CampaignMessages.starts_with].
    rewrite Hx. cbn [andb].
    f_equal. rewrite IH by exact Hs. rewrite append_assoc. reflexivity.
Qed.

(** Another placeholder is copied. *)
Lemma scan_other f g replacement before t :
  f <> g ->
  CampaignMessages.replace_scan (marker f) replacement 0 before (marker g +:+ t) =
  marker g +:+
  CampaignMessages.replace_scan (marker f) replacement 0 (before +:+ marker g) t.
Proof.
  intros Hne.
  assert (Hrest : forall body : string,
            without "{" body = true ->
            CampaignMessages.starts_with (marker f) (String "{" (body +:+ t)) = false ->
            CampaignMessages.replace_scan (marker f) replacement 0 before
              (String "{" body +:+ t) =
            String "{" body +:+
            CampaignMessages.replace_scan (marker f) replacement 0
              (before +:+ String "{" body) t).
  { intros body Hbody Hmiss.
    rewrite !append_cons.
    cbn [CampaignMessages.replace_scan]. rewrite Hmiss.
    f_equal.
    destruct f; cbn [marker]; rewrite scan_text by exact Hbody;
      rewrite append_assoc; reflexivity. }
  destruct f, g; try congruence; cbn [marker]; apply Hrest; reflexivity.
Qed.

Lemma written_as_app (a b : list Piece) : written_as (a ++ b) = written_as a +:+ written_as b.
Proof.
  induction a as [|[s|f] a IH]; [reflexivity| |]; simpl; rewrite IH, append_assoc; reflexivity.
Qed.

(** Replacing a placeholder by a text without brace keeps a template
    well-formed. *)
Lemma well_formed_substituted f replacement pieces :
  without "{" replacement = true -> well_formed pieces ->
  well_formed (substituted f replacement pieces).
Proof.
  intros Hr Hwf. induction Hwf as [|[s|g] rest Hp _ IH]; simpl; constructor; auto.
  case_decide; auto.
Qed.

(** One pass of [replace] over a well-formed template whose placeholder, if
    it occurs at all, is replaced by a text without dollar signs. *)
Lemma scan_pieces f replacement pieces : forall before,
  well_formed pieces ->
  (Field f ∈ pieces -> without "$" replacement = true) ->
  CampaignMessages.replace_scan (marker f) replacement 0 before (written_as pieces) =
  written_as (substituted f replacement pieces).
Proof.
  induction pieces as [|[s|g] rest IH]; intros before Hwf Hplain.
  - reflexivity.
  - apply Forall_cons in Hwf. destruct Hwf as [Hs Hwf].
    cbn [written_as substituted].
    assert (Hcopy : CampaignMessages.replace_scan (marker f) replacement 0 before
                      (s +:+ written_as rest) =
                    s +:+ CampaignMessages.replace_scan (marker f) replacement 0
                            (before +:+ s) (written_as rest))
      by (destruct f; apply scan_text; exact Hs).
    rewrite Hcopy, IH; [reflexivity|exact Hwf|].
    intros Hin. apply Hplain. set_solver.
  - apply Forall_cons in Hwf. destruct Hwf as [_ Hwf].
    cbn [written_as substituted].
    case_decide as Hg.
    + subst g.
      assert (Hput : CampaignMessages.replace_scan (marker f) replacement 0 before
                       (marker f +:+ written_as rest) =
                     CampaignMessages.GetSubstitution (marker f) before (written_as rest)
                       replacement +:+
                     CampaignMessages.replace_scan (marker f) replacement 0
                       (before +:+ marker f) (written_as rest))
        by (destruct f; apply scan_match).
      rewrite Hput, GetSubstitution_plain by (apply Hplain; set_solver).
      rewrite IH; [reflexivity|exact Hwf|]. intros Hin. apply Hplain. set_solver.
    + rewrite scan_other by congruence.
      rewrite IH; [reflexivity|exact Hwf|]. intros Hin. apply Hplain. set_solver.
Qed.

(** A placeholder that does not occur is not replaced. *)
Lemma substituted_absent f replacement pieces :
  Field f ∉ pieces -> substituted f replacement pieces = pieces.
Proof.
  induction pieces as [|[s|g] rest IH]; intros Hnot; simpl.
  - reflexivity.
  - rewrite IH; [reflexivity|]. set_solver.
  - case_decide as Hg; [subst g; exfalso; apply Hnot; set_solver|].
    rewrite IH; [reflexivity|]. set_solver.
Qed.

(** Filling the placeholders one after the other is filling them at once. *)
Lemma substituted_thrice customer pieces :
  written_as
    (substituted FirstNameField (value_of customer FirstNameField)
       (substituted EmailField (value_of customer EmailField)
          (substituted NameField (value_of customer NameField) pieces))) =
  filled customer pieces.
Proof.
  induction pieces as [|[s|f] rest IH].
  - reflexivity.
  - cbn [substituted written_as filled]. rewrite IH. reflexivity.
  - cbn [substituted filled].
    destruct f; repeat (case_decide; try congruence; cbn [substituted]);
      cbn [written_as]; rewrite IH; reflexivity.
Qed.

(** X15. The placeholders of a well-formed template are filled in at once.
    Take a template made of texts without opening brace and of the
    placeholders {name}, {email} and {firstName}, and a customer whose
    shown name, e-mail address and first name contain neither an opening
    brace nor a dollar sign.  [personalizeMessage] returns the texts
    unchanged with every placeholder replaced by its value: the name or
    "Valued Customer" when it is missing or empty, the e-mail address, and
    the name up to its first space or "Valued Customer" when that is
    empty. *)
Theorem personalizeMessage_fills pieces customer :
  well_formed pieces ->
  (forall f, without "{" (value_of customer f) = true /\ without "$" (value_of customer f) = true) ->
  CampaignMessages.personalizeMessage (written_as pieces) customer = filled customer pieces.
Proof.
  intros Hwf Hvalues.
  unfold CampaignMessages.personalizeMessage, CampaignMessages.replace_all.
  change "{name}" with (marker NameField).
  change "{email}" with (marker EmailField).
  change "{firstName}" with (marker FirstNameField).
  change (CampaignMessages.or_else (CampaignConsumer.name customer) "Valued Customer")
    with (value_of customer NameField).
  change (CampaignConsumer.email customer) with (value_of customer EmailField).
  change (CampaignMessages.or_else
            (CampaignMessages.before_space <$> CampaignConsumer.name customer) "Valued Customer")
    with (value_of customer FirstNameField).
  rewrite scan_pieces by (auto; intros _; apply Hvalues).
  rewrite scan_pieces
    by (try (apply well_formed_substituted; [apply Hvalues|]); auto; intros _; apply Hvalues).
  rewrite scan_pieces
    by (try (repeat (apply well_formed_substituted; [apply Hvalues|])); auto;
        intros _; apply Hvalues).
  apply substituted_thrice.
Qed.

(** A greeting for Ann Lee. *)
Lemma personalizeMessage_fills_witness :
  CampaignMessages.personalizeMessage "Hello {firstName}, we wrote to {email}."
    (Scenario.recipient 1) =
  "Hello Ann, we wrote to ann1@example.com.".
Proof.
  apply (personalizeMessage_fills Cases.greeting (Scenario.recipient 1)).
  - repeat constructor.
  - intros []; split; vm_compute; reflexivity.
Defined.

(** X16. A template without an opening brace is left as it is, for every
    customer, whatever the customer's name and address contain. *)
Theorem personalizeMessage_without_placeholders template customer :
  without "{" template = true ->
  CampaignMessages.personalizeMessage template customer = template.
Proof.
  intros Htext.
  assert (Hpass : forall f replacement,
            CampaignMessages.replace_all (marker f) replacement template = template).
  { intros f replacement. unfold CampaignMessages.replace_all.
    pose proof (scan_pieces f replacement [Text template] "") as H.
    cbn [written_as substituted] in H. rewrite append_empty_r in H.
    apply H; [repeat constructor; exact Htext|]. set_solver. }
  unfold CampaignMessages.personalizeMessage.
  rewrite (Hpass NameField), (Hpass EmailField), (Hpass FirstNameField). reflexivity.
Qed.

Lemma personalizeMessage_without_placeholders_witness :
  CampaignMessages.personalizeMessage "Our shop reopens on Monday." Cases.trader =
  "Our shop reopens on Monday.".
Proof.
  apply (personalizeMessage_without_placeholders "Our shop reopens on Monday." Cases.trader).
  reflexivity.
Defined.

(** The expansion of a replacement, two characters at a time. *)
Lemma GetSubstitution_step matched before after c d rest :
  CampaignMessages.GetSubstitution matched before after (String c (String d rest)) =
  if Ascii.eqb c "$" then
    if Ascii.eqb d "$" then String "$" (CampaignMessages.GetSubstitution matched before after rest)
    else if Ascii.eqb d "&" then matched +:+ CampaignMessages.GetSubstitution matched before after rest
    else if Ascii.eqb d "`" then before +:+ CampaignMessages.GetSubstitution matched before after rest
    else if Ascii.eqb d "'" then after +:+ CampaignMessages.GetSubstitution matched before after rest
    else String c (CampaignMessages.GetSubstitution matched before after (String d rest))
  else String c (CampaignMessages.GetSubstitution matched before after (String d rest)).
Proof. reflexivity. Qed.

(** What a replacement expands to is a row of texts and copies of the
    match. *)
Lemma GetSubstitution_pieces f before after replacement :
  without "{" before = true -> without "{" after = true ->
  without "{" replacement = true ->
  exists pieces,
    well_formed pieces /\
    (forall g, Field g ∈ pieces -> g = f) /\
    written_as pieces = CampaignMessages.GetSubstitution (marker f) before after replacement.
Proof.
  intros Hb Ha.
  assert (Hchar : forall (c : ascii) tail,
            negb (Ascii.eqb c "{") = true ->
            (exists pieces,
               well_formed pieces /\ (forall g, Field g ∈ pieces -> g = f) /\
               written_as pieces = tail) ->
            exists pieces',
              well_formed pieces' /\ (forall g, Field g ∈ pieces' -> g = f) /\
              written_as pieces' = String c tail).
  { intros c tail Hc (pieces & Hwf & Honly & Htext).
    exists (Text (String c "") :: pieces). split; [|split].
    - constructor; [simpl; rewrite Hc; reflexivity|exact Hwf].
    - intros g Hg. apply elem_of_cons in Hg. destruct Hg as [Hg|Hg]; [discriminate|auto].
    - cbn [written_as]. rewrite Htext. reflexivity. }
  assert (Htext : forall (s : string) tail,
            without "{" s = true ->
            (exists pieces,
               well_formed pieces /\ (forall g, Field g ∈ pieces -> g = f) /\
               written_as pieces = tail) ->
            exists pieces',
              well_formed pieces' /\ (forall g, Field g ∈ pieces' -> g = f) /\
              written_as pieces' = s +:+ tail).
  { intros s tail Hs (pieces & Hwf & Honly & Htext).
    exists (Text s :: pieces). split; [|split].
    - constructor; [exact Hs|exact Hwf].
    - intros g Hg. apply elem_of_cons in Hg. destruct Hg as [Hg|Hg]; [discriminate|auto].
    - cbn [written_as]. rewrite Htext. reflexivity. }
  assert (Hboth :
    (without "{" replacement = true ->
     exists pieces,
       well_formed pieces /\ (forall g, Field g ∈ pieces -> g = f) /\
       written_as pieces = CampaignMessages.GetSubstitution (marker f) before after replacement) /\
    (forall c, without "{" (String c replacement) = true ->
     exists pieces,
       well_formed pieces /\ (forall g, Field g ∈ pieces -> g = f) /\
       written_as pieces =
         CampaignMessages.GetSubstitution (marker f) before after (String c replacement)));
    [|apply Hboth].
  induction replacement as [|d rest [IHrest IHcons]].
  - split.
    + intros _. exists []. repeat split; [constructor|]. intros g Hg. set_solver.
    + intros c Hc. cbn [CampaignMessages.GetSubstitution].
      simpl in Hc. rewrite andb_true_r in Hc.
      destruct (Ascii.eqb c "$"); apply (Hchar c ""); auto;
        (exists []; split; [constructor|split; [intros g Hg; set_solver|reflexivity]]).
  - split; [apply IHcons|].
    intros c Hc.
    assert (Hc' : negb (Ascii.eqb c "{") = true /\ negb (Ascii.eqb d "{") = true /\
                  without "{" rest = true).
    { simpl in Hc. apply andb_true_iff in Hc. destruct Hc as [H1 Hc].
      apply andb_true_iff in Hc. destruct Hc as [H2 H3]. auto. }
    destruct Hc' as (Hc1 & Hd1 & Hrest).
    assert (Hdrest : without "{" (String d rest) = true) by (simpl; rewrite Hd1; exact Hrest).
    rewrite GetSubstitution_step.
    destruct (Ascii.eqb c "$").
    + destruct (Ascii.eqb d "$"); [apply (Hchar "$"%char); [reflexivity|apply IHrest; exact Hrest]|].
      destruct (Ascii.eqb d "&").
      { destruct (IHrest Hrest) as (pieces & Hwf & Honly & Hw).
        exists (Field f :: pieces). split; [constructor; [exact I|exact Hwf]|]. split.
        - intros g Hg. apply elem_of_cons in Hg. destruct Hg as [Hg|Hg]; [congruence|auto].
        - cbn [written_as]. rewrite Hw. reflexivity. }
      destruct (Ascii.eqb d "`"); [apply Htext; [exact Hb|apply IHrest; exact Hrest]|].
      destruct (Ascii.eqb d "'"); [apply Htext; [exact Ha|apply IHrest; exact Hrest]|].
      apply Hchar; [exact Hc1|]. apply (IHcons d). exact Hdrest.
    + apply Hchar; [exact Hc1|]. apply (IHcons d). exact Hdrest.
Qed.

(** X17. A customer's name is read as a replacement pattern, not as plain
    text.  In a template with one {name} between two texts without opening
    brace, a customer's non-empty name without opening brace is put in
    after expansion: [$$] becomes one dollar sign, [$&] the placeholder
    itself, [$`] the text before the placeholder and [$'] the text after
    it.  The result is then left alone by the other two replacements,
    whatever the e-mail address is. *)
Theorem personalizeMessage_expands_patterns before after customer fullName :
  without "{" before = true -> without "{" after = true ->
  CampaignConsumer.name customer = Some fullName ->
  fullName <> "" -> without "{" fullName = true ->
  CampaignMessages.personalizeMessage (before +:+ "{name}" +:+ after) customer =
  before +:+ CampaignMessages.GetSubstitution "{name}" before after fullName +:+ after.
Proof.
  intros Hb Ha Hname Hfull Hplain.
  unfold CampaignMessages.personalizeMessage. rewrite Hname.
  replace (CampaignMessages.or_else (Some fullName) "Valued Customer") with fullName
    by (destruct fullName; [congruence|reflexivity]).
  assert (Hfirst :
    CampaignMessages.replace_all "{name}" fullName (before +:+ "{name}" +:+ after) =
    before +:+ CampaignMessages.GetSubstitution "{name}" before after fullName +:+ after).
  { unfold CampaignMessages.replace_all.
    rewrite scan_text by exact Hb. rewrite append_empty_l.
    rewrite scan_match.
    replace after with (after +:+ "") at 2 by apply append_empty_r.
    rewrite scan_text by exact Ha. rewrite append_empty_r. reflexivity. }
  rewrite Hfirst.
  destruct (GetSubstitution_pieces NameField before after fullName Hb Ha Hplain)
    as (pieces & Hwf & Honly & Hw).
  cbn [marker] in Hw. rewrite <- Hw.
  set (row := Text before :: pieces ++ [Text after]).
  assert (Hrow : before +:+ written_as pieces +:+ after = written_as row).
  { subst row. cbn [written_as]. rewrite written_as_app. cbn [written_as].
    rewrite append_empty_r. reflexivity. }
  assert (Hwf' : well_formed row).
  { subst row. constructor; [exact Hb|]. apply Forall_app. split; [exact Hwf|].
    repeat constructor. exact Ha. }
  assert (Hnone : forall g, g <> NameField -> Field g ∉ row).
  { intros g Hg Hin. subst row. apply elem_of_cons in Hin. destruct Hin as [Hin|Hin]; [discriminate|].
    apply elem_of_app in Hin. destruct Hin as [Hin|Hin]; [apply Hg, Honly, Hin|set_solver]. }
  rewrite Hrow.
  assert (Hpass : forall g replacement, g <> NameField ->
            CampaignMessages.replace_all (marker g) replacement (written_as row) = written_as row).
  { intros g replacement Hg. unfold CampaignMessages.replace_all.
    rewrite scan_pieces; [|exact Hwf'|intros Hin; destruct (Hnone g Hg Hin)].
    rewrite substituted_absent by (apply Hnone; exact Hg). reflexivity. }
  rewrite (Hpass EmailField) by discriminate.
  rewrite (Hpass FirstNameField) by discriminate. reflexivity.
Qed.

(** A customer called "US$$ Trader" is greeted as "US$ Trader". *)
Lemma personalizeMessage_expands_patterns_witness :
  CampaignMessages.personalizeMessage "Dear {name}, welcome." Cases.trader =
  "Dear US$ Trader, welcome.".
Proof.
  apply (personalizeMessage_expands_patterns "Dear " ", welcome." Cases.trader "US$$ Trader");
    [reflexivity | reflexivity | reflexivity | discriminate | reflexivity].
Defined.

(** ** The vendor's webhook and send endpoint *)

(** [JSON.stringify] and base64 on known values. *)
Example JSON_stringify_object :
  VendorWebhook.JSON_stringify
    (JObj [("a", JArr [JNum 1; JNull; JBool true]); ("b", JStr "x\y")]) =
  String "{" (String VendorWebhook.quote ("a" +:+ String VendorWebhook.quote
    (":[1,null,true]," +:+ String VendorWebhook.quote ("b" +:+ String VendorWebhook.quote
       (":" +:+ String VendorWebhook.quote ("x\\y" +:+ String VendorWebhook.quote "}")))))).
Proof. vm_compute. reflexivity. Qed.

Example base64_padding :
  VendorWebhook.base64 "Man" = "TWFu" /\ VendorWebhook.base64 "Ma" = "TWE=" /\
  VendorWebhook.base64 "M" = "TQ==" /\ VendorWebhook.base64 "light work." = "bGlnaHQgd29yay4=".
Proof. vm_compute. auto. Qed.

(** Every receipt is written with the vendor's message id first. *)
Lemma receipt_payload_starts r :
  exists rest,
    VendorWebhook.JSON_stringify (VendorWebhook.receiptData r) =
    String "{" (String VendorWebhook.quote ("vendorMessage" +:+ rest)).
Proof.
  destruct r as [vid mid st dat fr rc camp cust].
  unfold VendorWebhook.receiptData.
  cbn [r_vendorMessageId r_messageId r_status r_deliveredAt r_failureReason r_recipient
       r_campaignId r_customerId].
  destruct mid, st, dat; cbn [fmap option_fmap option_map VendorWebhook.member app];
    cbn [VendorWebhook.JSON_stringify separated]; eexists; reflexivity.
Qed.

(** Three bytes make four digits; the first [n] characters of a text. *)
Lemma base64_three a b c rest :
  VendorWebhook.base64 (String a (String b (String c rest))) =
  String (VendorWebhook.base64_digit (nat_of_ascii a / 4))
    (String (VendorWebhook.base64_digit (nat_of_ascii a mod 4 * 16 + nat_of_ascii b / 16))
       (String (VendorWebhook.base64_digit (nat_of_ascii b mod 16 * 4 + nat_of_ascii c / 64))
          (String (VendorWebhook.base64_digit (nat_of_ascii c mod 64))
             (VendorWebhook.base64 rest)))).
Proof. reflexivity. Qed.

Lemma substring_cons n c s :
  String.substring 0 (S n) (String c s) = String c (String.substring 0 n s).
Proof. reflexivity. Qed.

Lemma substring_none s : String.substring 0 0 s = "".
Proof. destruct s; reflexivity. Qed.

(** X18. The webhook signature does not depend on the receipt.  The
    signature is cut from the first 20 base64 digits of the payload, that
    is from its first 15 bytes, and every receipt is written with the
    member "vendorMessageId" first: whatever a receipt says, its signature
    is the same string. *)
Theorem webhook_signature_is_constant (r : Receipt) :
  VendorWebhook.generateWebhookSignature (VendorWebhook.receiptData r) =
    "sha256=eyJ2ZW5kb3JNZXNzYWdl".
Proof.
  destruct (receipt_payload_starts r) as (rest & Hpayload).
  unfold VendorWebhook.generateWebhookSignature. cbv zeta. rewrite Hpayload.
  rewrite !append_cons, !append_empty_l.
  rewrite !base64_three.
  rewrite !substring_cons, substring_none.
  vm_compute. reflexivity.
Qed.

(** X19. The send endpoint validates before it sends.  The body of the
    request is an object.  When one of the six required fields of the body
    is missing or falsy, the answer is 400, its message lists exactly those
    fields in the order of the check, and nothing at all has happened: no
    send, no statistics, no callback.  Otherwise the answer is 200, with
    [success] true in the answer itself, and carries the result of exactly
    one send, recorded once in the vendor's statistics.  When the recipient
    converts to text, the result says success, its status is the outcome
    drawn, and one callback is scheduled.  When the recipient is an object
    that cannot be converted, the log line of the send throws after the
    first callback is scheduled: the result says no success and FAILED
    whatever was drawn, and a second callback is scheduled.  The 500 answer
    of the handler is never given. *)
Theorem vendor_send_validates (emailData : Job) (w : World) :
  let run := VendorEndpoints.sendEmailViaVendor emailData w in
  if forallb (fun field => truthy (emailData !! field)) VendorEndpoints.required
  then
    exists (isSuccess : bool) result,
      run.1 = Ok {| VendorEndpoints.code := 200; VendorEndpoints.success := true;
                    VendorEndpoints.message := "Email submitted to vendor API";
                    VendorEndpoints.data := Some result; VendorEndpoints.error := None |} /\
      VendorAPIService.success result = printable (emailData !! "to") /\
      VendorAPIService.status result =
        (if printable (emailData !! "to") && isSuccess then "SENT" else "FAILED") /\
      sent_one w run.2 isSuccess (if printable (emailData !! "to") then 1 else 2)
  else
    run =
      (Ok {| VendorEndpoints.code := 400; VendorEndpoints.success := false;
             VendorEndpoints.message :=
               "Missing required fields: " +:+
               separated ", " (VendorEndpoints.missing emailData);
             VendorEndpoints.data := None; VendorEndpoints.error := None |},
       w) /\
    VendorEndpoints.missing emailData <> [].
Proof.
  cbv zeta.
  assert (Hmissing :
    forallb (fun field => truthy (emailData !! field)) VendorEndpoints.required =
    negb (0 <? length (VendorEndpoints.missing emailData))%nat).
  { unfold VendorEndpoints.missing.
    generalize VendorEndpoints.required. intros fields.
    induction fields as [|field fields IH]; [reflexivity|].
    cbn [forallb List.filter]. destruct (truthy (emailData !! field)); [exact IH|reflexivity]. }
  rewrite Hmissing. unfold VendorEndpoints.sendEmailViaVendor, try_catch.
  destruct (0 <? length (VendorEndpoints.missing emailData))%nat eqn:Hany; cbn [negb].
  - split; [reflexivity|]. apply Nat.ltb_lt in Hany. intros Hnil. rewrite Hnil in Hany. simpl in Hany. lia.
  - pose proof (wp_sendEmail emailData w) as H. unfold wp in H.
    destruct H as (isSuccess & result & Hrun & Hstatus & Hsuccess & Hone).
    unfold bind.
    destruct (VendorAPIService.sendEmail emailData w) as [r w1].
    cbn [fst snd] in *. subst r. exists isSuccess, result. auto.
Qed.

(** A body with every required field and a recipient that cannot be
    converted: 200, with a send that failed. *)
Lemma unconvertible_recipient_accepted :
  let run := VendorEndpoints.sendEmailViaVendor (fields Cases.unconvertible_email) Scenario.fresh in
  run.1 = Ok {| VendorEndpoints.code := 200; VendorEndpoints.success := true;
                VendorEndpoints.message := "Email submitted to vendor API";
                VendorEndpoints.data :=
                  Some {| VendorAPIService.success := false;
                          VendorAPIService.vendorMessageId := None;
                          VendorAPIService.status := "FAILED";
                          VendorAPIService.estimatedDelivery := None;
                          VendorAPIService.error :=
                            Some "Cannot convert object to primitive value" |};
                VendorEndpoints.error := None |} /\
  length (timers (vendor run.2)) = 2%nat.
Proof. by_evaluation. Qed.

(** ** Bulk import and customer events *)

Section BulkImport.

Variable User_findById : string -> M (option Job).
Variable Customer_insertMany : list Job -> M unit.
Variable publish : string -> Job -> M unit.

Abbreviation import_from := (CustomerImport.import_from Customer_insertMany).
Abbreviation bulkImportCustomers :=
  (CustomerImport.bulkImportCustomers User_findById Customer_insertMany publish).

(** The loop invariant: the customers before the index are counted, each
    once, as imported or as failed. *)
Lemma import_from_counts data customers : forall fuel i results w,
  let total := length customers in
  (total - i <= fuel)%nat ->
  (CustomerImport.imported results + CustomerImport.failed results = Nat.min i total)%nat ->
  (CustomerImport.failed results <= 100 * length (CustomerImport.errors results))%nat ->
  Forall (fun e => (1 <= CustomerImport.batch e <= (total + 99) / 100)%nat)
    (CustomerImport.errors results) ->
  exists final,
    (import_from fuel data customers i results w).1 = Ok final /\
    (CustomerImport.imported final + CustomerImport.failed final = total)%nat /\
    (CustomerImport.failed final <= 100 * length (CustomerImport.errors final))%nat /\
    Forall (fun e => (1 <= CustomerImport.batch e <= (total + 99) / 100)%nat)
      (CustomerImport.errors final).
Proof.
  cbv zeta. induction fuel as [|fuel IH]; intros i results w Hfuel Hsum Hfailed Hbatches.
  - simpl. destruct (Nat.ltb_spec i (length customers)); [lia|].
    exists results. repeat split; auto. simpl. lia.
  - cbn [CustomerImport.import_from].
    destruct (Nat.ltb_spec i (length customers)) as [Hlt|Hge].
    2:{ exists results. repeat split; auto. simpl. lia. }
    set (batch := CampaignConsumer.slice i (i + CustomerImport.batchSize) customers).
    assert (Hbatch : length batch = Nat.min 100 (length customers - i)).
    { subst batch. unfold CampaignConsumer.slice, CustomerImport.batchSize.
      rewrite length_take, length_drop. lia. }
    assert (Hnumber : (1 <= i / CustomerImport.batchSize + 1 <=
                       (length customers + 99) / 100)%nat).
    { unfold CustomerImport.batchSize. split; [lia|].
      replace (length customers + 99)%nat
        with ((length customers - 1) + 1 * 100)%nat by lia.
      rewrite Nat.div_add by lia.
      assert (i / 100 <= (length customers - 1) / 100)%nat
        by (apply Nat.Div0.div_le_mono; lia).
      lia. }
    unfold bind at 1. unfold try_catch, bind.
    destruct (Customer_insertMany _ w) as [[[]|e] w1].
    + unfold console_log, ret. cbn [fst snd].
      match goal with |- context [import_from fuel data customers _ ?r ?w2] =>
        destruct (IH (i + CustomerImport.batchSize)%nat r w2) as (final & Hrun & H)
      end.
      * unfold CustomerImport.batchSize. lia.
      * cbn [CustomerImport.imported CustomerImport.failed].
        unfold CustomerImport.batchSize. lia.
      * cbn [CustomerImport.failed CustomerImport.errors]. exact Hfailed.
      * cbn [CustomerImport.errors]. exact Hbatches.
      * exists final. auto.
    + unfold console_log, ret. cbn [fst snd].
      match goal with |- context [import_from fuel data customers _ ?r ?w2] =>
        destruct (IH (i + CustomerImport.batchSize)%nat r w2) as (final & Hrun & H)
      end.
      * unfold CustomerImport.batchSize. lia.
      * cbn [CustomerImport.imported CustomerImport.failed].
        unfold CustomerImport.batchSize. lia.
      * cbn [CustomerImport.failed CustomerImport.errors]. rewrite length_app. simpl. lia.
      * cbn [CustomerImport.errors]. apply Forall_app. split; [exact Hbatches|].
        apply Forall_singleton. simpl. exact Hnumber.
      * exists final. auto.
Qed.

(** X20. A bulk import counts every customer once.  The data of the job is
    an object whose [customers] member is an array of objects, or is
    missing.  With the array, whatever the models and the publisher do, the
    results [bulkImportCustomers] returns satisfy
    [imported + failed = customers.length] (so the loop has gone through
    the whole list: a rejected batch does not stop it), every entry of
    [errors] stands for a batch of at most 100 customers counted as failed,
    and carries a batch number between 1 and ceil(N / 100); for a verified
    user the import then throws only if publishing the completion event
    does, after the whole list has been counted.  Without the array the
    import never returns results: for a verified user, reading the length
    of the list throws a TypeError, nothing is inserted, the failure event
    with that message is published, and the TypeError is thrown again, or
    the publisher's error if the publication fails. *)
Theorem bulk_import_counts data w :
  let run := bulkImportCustomers data w in
  match CustomerImport.customers data with
  | Some customers =>
      let total := length customers in
      match run.1 with
      | Ok results =>
          (CustomerImport.imported results + CustomerImport.failed results = total)%nat /\
          (CustomerImport.failed results <= 100 * length (CustomerImport.errors results))%nat /\
          Forall (fun e => (1 <= CustomerImport.batch e <= (total + 99) / 100)%nat)
            (CustomerImport.errors results)
      | Throw e =>
          (forall user, (User_findById (CustomerImport.userId data) w).1 = Ok user ->
             CustomerImport.verified user (CustomerImport.userEmail data) = true ->
             exists results event w1 after,
               (CustomerImport.imported results + CustomerImport.failed results = total)%nat /\
               event !! "type" = Some (JStr "customer.bulk.import.completed") /\
               (publish "customer.events" event w1).1 = Throw after)
      end
  | None =>
      (exists e, run.1 = Throw e) /\
      (forall other : list Job -> M unit,
         CustomerImport.bulkImportCustomers User_findById other publish data w = run) /\
      (forall user, (User_findById (CustomerImport.userId data) w).1 = Ok user ->
         CustomerImport.verified user (CustomerImport.userEmail data) = true ->
         let announced :=
           publish "customer.events"
             (<["data" := JObj [("error", JStr "Cannot read properties of undefined (reading 'length')");
                                ("userId", JStr (CustomerImport.userId data))]]>
                ({[ "type" := JStr "customer.bulk.import.failed" ]}))
             (User_findById (CustomerImport.userId data) w).2 in
         run =
           (Throw (match announced.1 with
                   | Ok _ => "Cannot read properties of undefined (reading 'length')"
                   | Throw e => e
                   end),
            announced.2))
  end.
Proof.
  cbv zeta. unfold CustomerImport.bulkImportCustomers, try_catch, bind.
  destruct (CustomerImport.customers data) as [customers|].
  - destruct (User_findById (CustomerImport.userId data) w) as [[user|e] w1] eqn:Huser.
    2:{ cbn [fst snd]. destruct (publish _ _ w1) as [[[]|e'] w2]; cbn; intros ? [=]. }
    destruct (CustomerImport.verified user (CustomerImport.userEmail data)) eqn:Hverified.
    2:{ unfold throw. cbn [fst snd]. destruct (publish _ _ w1) as [[[]|e'] w2]; cbn;
          intros ? [= <-]; congruence. }
    destruct (import_from_counts data customers (length customers) 0
                {| CustomerImport.imported := 0; CustomerImport.failed := 0;
                   CustomerImport.errors := [] |} w1)
      as (final & Hrun & Hsum & Hfailed & Hbatches); cbn; try lia; [constructor|].
    destruct (import_from _ data customers 0 _ w1) as [r w2]. simpl in Hrun. subst r.
    destruct (publish "customer.events" _ w2) as [[[]|e'] w3] eqn:Hpublish.
    + unfold console_log, ret. cbn. auto.
    + cbn [fst snd].
      assert (Hevent : exists results event w' after,
                (CustomerImport.imported results + CustomerImport.failed results =
                 length customers)%nat /\
                event !! "type" = Some (JStr "customer.bulk.import.completed") /\
                (publish "customer.events" event w').1 = Throw after).
      { eexists final, _, w2, e'. split; [exact Hsum|]. split; [|rewrite Hpublish; reflexivity].
        rewrite lookup_insert_ne by discriminate. apply lookup_singleton_eq. }
      destruct (publish _ _ w3) as [[[]|e''] w4]; cbn; intros; exact Hevent.
  - split; [|split].
    + destruct (User_findById (CustomerImport.userId data) w) as [[user|e] w1]; cbn [fst snd].
      * destruct (CustomerImport.verified user (CustomerImport.userEmail data));
          unfold throw; cbn [fst snd];
          destruct (publish _ _ w1) as [[[]|e'] w2]; cbn; eauto.
      * destruct (publish _ _ w1) as [[[]|e'] w2]; cbn; eauto.
    + intros other. reflexivity.
    + intros user Huser Hverified.
      destruct (User_findById (CustomerImport.userId data) w) as [r w1].
      simpl in Huser. subst r. rewrite Hverified. unfold throw. cbn [fst snd].
      destruct (publish _ _ w1) as [[[]|e'] w2]; reflexivity.
Qed.

(** X21. No import without a verified user.  When the user looked up is
    not there or has another e-mail address than the job names, no batch
    is inserted (the run is the same for every [Customer.insertMany]); the
    failure event with the message "User verification failed" is
    published, and that error is thrown, or the publisher's error if the
    publication fails. *)
Theorem bulk_import_needs_verified_user data w user :
  (User_findById (CustomerImport.userId data) w).1 = Ok user ->
  CustomerImport.verified user (CustomerImport.userEmail data) = false ->
  (forall other : list Job -> M unit,
     CustomerImport.bulkImportCustomers User_findById other publish data w =
     bulkImportCustomers data w) /\
  let announced :=
    publish "customer.events"
      (<["data" := JObj [("error", JStr "User verification failed");
                         ("userId", JStr (CustomerImport.userId data))]]>
         ({[ "type" := JStr "customer.bulk.import.failed" ]}))
      (User_findById (CustomerImport.userId data) w).2 in
  bulkImportCustomers data w =
    (Throw (match announced.1 with
            | Ok _ => "User verification failed"
            | Throw e => e
            end),
     announced.2).
Proof.
  intros Huser Hverified.
  unfold CustomerImport.bulkImportCustomers, try_catch, bind.
  destruct (User_findById (CustomerImport.userId data) w) as [r w1]. simpl in Huser. subst r.
  rewrite Hverified. unfold throw. cbn [fst snd].
  split; [reflexivity|].
  destruct (publish _ _ w1) as [[[]|e] w2]; reflexivity.
Qed.

End BulkImport.

(** Nobody is found for the import. *)
Lemma bulk_import_needs_verified_user_witness :
  (CustomerImport.bulkImportCustomers Cases.no_user Cases.insert_batch Cases.published
     Cases.import_250 Scenario.fresh).1 = Throw "User verification failed".
Proof.
  pose proof (proj2 (bulk_import_needs_verified_user Cases.no_user Cases.insert_batch Cases.published
                       Cases.import_250 Scenario.fresh None eq_refl eq_refl)) as H.
  cbv zeta in H. rewrite H. reflexivity.
Defined.

(** The counting at work: the second of three batches is rejected. *)
Lemma bulk_import_counts_witness :
  exists results,
    (CustomerImport.bulkImportCustomers Cases.owner Cases.insert_batch Cases.published
       Cases.import_250 Cases.second_rejected).1 = Ok results /\
    (CustomerImport.imported results + CustomerImport.failed results)%nat = 250%nat /\
    CustomerImport.errors results =
      [ {| CustomerImport.batch := 2; CustomerImport.error := "E11000 duplicate key error" |} ].
Proof.
  pose proof (bulk_import_counts Cases.owner Cases.insert_batch Cases.published
                Cases.import_250 Cases.second_rejected) as H.
  cbv zeta in H.
  destruct (CustomerImport.bulkImportCustomers Cases.owner Cases.insert_batch Cases.published
              Cases.import_250 Cases.second_rejected).1 as [results|e] eqn:Hrun.
  - exists results. split; [reflexivity|]. split; [apply H|].
    vm_compute in Hrun. injection Hrun as <-. reflexivity.
  - vm_compute in Hrun. discriminate.
Defined.

(** An import that names no customers fails on the length of the list. *)
Lemma import_without_customers :
  (CustomerImport.bulkImportCustomers Cases.owner Cases.insert_batch Cases.published
     Cases.import_nothing Scenario.fresh).1 =
    Throw "Cannot read properties of undefined (reading 'length')".
Proof. by_evaluation. Qed.

(** A handler of an event logs one line or throws, and does nothing else. *)
Lemma event_handler_run (data : option json) (key text : string) w :
  let run := (let* value := read_property data key in console_log (text +:+ value)) w in
  (run.1 = Ok tt /\ exists line,
     run.2 = with_ambient (fun a => {| clock := clock a; random := random a;
                                       console := console a ++ [line] |}) w) \/
  ((exists e, run.1 = Throw e) /\ run.2 = w).
Proof.
  cbv zeta. unfold bind, read_property, interpolate, lift, converted.
  destruct data as [value|]; [|unfold throw; cbn [fst snd]; eauto].
  destruct value; unfold throw, ret, console_log; cbn [fst snd]; eauto;
    destruct (printable _); cbn [fst snd]; eauto.
Qed.

(** X22. An event whose type converts to text never makes the customer
    consumer fail.  The event is an object, as the subscriber hands it
    over.  When its type can be converted to text (a string, a number,
    nothing at all: every type the handlers know is one),
    [handleCustomerEvent] returns normally, also for an event of unknown
    type or without [data] (whose handler throws a TypeError); it prints
    exactly two console lines, the first naming the event's type, and
    changes nothing else.  When the type is an object that cannot be
    converted, the first console line, which stands in front of the [try]
    block, throws the TypeError of the conversion: the handler fails with
    it and has printed and changed nothing. *)
Theorem customer_event_contained (event : Job) (w : World) :
  let run := CustomerEvents.handleCustomerEvent event w in
  if printable (event !! "type")
  then
    run.1 = Ok tt /\
    ambient_only w run.2 /\
    exists line,
      console (ambient run.2) =
        console (ambient w) ++
        ["Received customer event: " +:+ template (event !! "type"); line]
  else run = (Throw not_primitive, w).
Proof.
  cbv zeta. unfold CustomerEvents.handleCustomerEvent.
  unfold interpolate, lift, converted.
  destruct (printable (event !! "type")) eqn:Hprintable; [|reflexivity].
  unfold bind at 1. cbn [fst snd].
  unfold bind at 1. unfold console_log at 1. cbn [fst snd].
  set (w0 := with_ambient _ w).
  assert (Hhandler : forall (key text : string),
    let handled := (let* value := read_property (event !! "data") key in console_log (text +:+ value)) in
    let run := try_catch handled
                 (fun error =>
                    let* failed := (fun w => (Ok (template (event !! "type")), w)) in
                    console_log ("Error handling customer event " +:+ failed +:+ ": " +:+ error)) w0 in
    run.1 = Ok tt /\ ambient_only w run.2 /\
    exists line,
      console (ambient run.2) =
        console (ambient w) ++
        ["Received customer event: " +:+ template (event !! "type"); line]).
  { intros key text. cbv zeta. unfold try_catch.
    destruct (event_handler_run (event !! "data") key text w0) as [[Hr [line Hw]]|[[e Hr] Hw]];
      cbv zeta in Hr, Hw;
      destruct ((let* value := read_property (event !! "data") key in console_log (text +:+ value)) w0)
        as [r w1]; cbn [fst snd] in *; subst r w1.
    - split; [reflexivity|]. split; [repeat split|].
      exists line. subst w0. cbn. rewrite <- app_assoc. reflexivity.
    - unfold bind, console_log. cbn [fst snd]. split; [reflexivity|]. split; [repeat split|].
      eexists. subst w0. cbn. rewrite <- app_assoc. reflexivity. }
  unfold CustomerEvents.handleValidationSuccess, CustomerEvents.handleValidationFailed,
    CustomerEvents.handleActivityUpdate.
  destruct (is_type (event !! "type") "customer.validation.success"); [apply Hhandler|].
  destruct (is_type (event !! "type") "customer.validation.failed"); [apply Hhandler|].
  destruct (is_type (event !! "type") "customer.activity.updated"); [apply Hhandler|].
  unfold try_catch, bind, console_log. cbn [fst snd].
  split; [reflexivity|]. split; [repeat split|].
  eexists. subst w0. cbn. rewrite <- app_assoc. reflexivity.
Qed.

(** An event whose type cannot be converted. *)
Lemma unconvertible_event_raises :
  CustomerEvents.handleCustomerEvent Cases.unconvertible_job Scenario.fresh =
    (Throw "Cannot convert object to primitive value", Scenario.fresh).
Proof. reflexivity. Qed.
